(** * Signalis connector: the matching and semantic-alignment engine

    A shallow embedding of [connector/matcher.py] and
    [connector/semantic_expansion.py], and the properties of the engine that
    the specification states about them.

    Conventions of the embedding.
    - Python [str] values are Rocq strings; the text handled by the engine is
      taken to be ASCII, so [str.lower], [\w], [\s] and [\b] are the ASCII
      ones (bytes above 127 are kept as they are and count as neither word
      characters nor white space).
    - Python [float] is IEEE 754 binary64, computed with the Standard
      Library's [SpecFloat] operations at precision 53 and [emax] 1024.
    - A Python exception is the result [None] of an [option]-valued
      function; the functions that cannot raise are total. The engine
      raises in two places: [industry_raw[0]] on an empty industry list of
      a supply record, and the division of [score_size] when the quotient
      of the two sizes is beyond the range of a float. [filter_by_score]
      reads an attribute of the demand records that the record class may
      lack; the attribute is a parameter of its model.
    - [set] is [gset string], [dict] with string keys is [gmap string _]
      when iteration order is not observed and an association list in
      insertion order when it is.
    - The limit of the interpreter on the number of digits that [int]
      converts is a parameter of the functions that parse a size. *)

From Stdlib Require Import ZArith Bool Ascii String List Lia.
From Stdlib Require Import Floats.SpecFloat.
From stdpp Require Import gmap strings list pretty sorting.

Local Open Scope string_scope.
Local Open Scope list_scope.

(** ** Python primitives *)

Module Py.

(** *** Characters and strings *)

Definition code (c : ascii) : nat := nat_of_ascii c.

Definition between (lo hi : nat) (c : ascii) : bool :=
  (lo <=? code c)%nat && (code c <=? hi)%nat.

Definition is_upper (c : ascii) : bool := between 65 90 c.
Definition is_lower (c : ascii) : bool := between 97 122 c.
Definition is_digit (c : ascii) : bool := between 48 57 c.

(** [\w]: letters, digits and the underscore. *)
Definition is_word (c : ascii) : bool :=
  is_upper c || is_lower c || is_digit c || (code c =? 95)%nat.

(** [\s] and the separators of [str.split()]: tab, line feed, vertical
    tab, form feed, carriage return, the four separators 28..31, space. *)
Definition is_space (c : ascii) : bool :=
  between 9 13 c || between 28 31 c || (code c =? 32)%nat.

Definition lower_char (c : ascii) : ascii :=
  if is_upper c then ascii_of_nat (code c + 32) else c.

(** [s.lower()] *)
Fixpoint lower (s : string) : string :=
  match s with
  | EmptyString => EmptyString
  | String c s' => String (lower_char c) (lower s')
  end.

(** [bool(s)] for a string *)
Definition truthy (s : string) : bool :=
  match s with EmptyString => false | _ => true end.

(** [a or b] on strings *)
Definition str_or (a b : string) : string := if truthy a then a else b.

Fixpoint starts_with (p s : string) : bool :=
  match p, s with
  | EmptyString, _ => true
  | String a p', String b s' => Ascii.eqb a b && starts_with p' s'
  | String _ _, EmptyString => false
  end.

(** [sub in s] *)
Fixpoint contains (sub s : string) : bool :=
  starts_with sub s ||
  match s with
  | EmptyString => false
  | String _ s' => contains sub s'
  end.

Fixpoint str_map (f : ascii -> ascii) (s : string) : string :=
  match s with
  | EmptyString => EmptyString
  | String c s' => String (f c) (str_map f s')
  end.

Fixpoint str_filter (f : ascii -> bool) (s : string) : string :=
  match s with
  | EmptyString => EmptyString
  | String c s' => if f c then String c (str_filter f s') else str_filter f s'
  end.

Fixpoint str_existsb (f : ascii -> bool) (s : string) : bool :=
  match s with
  | EmptyString => false
  | String c s' => f c || str_existsb f s'
  end.

(** [s.split()]: the maximal runs of characters that are not white space.
    [cur] is the run being read. *)
Fixpoint split_go (cur : string) (s : string) : list string :=
  match s with
  | EmptyString => if truthy cur then [cur] else []
  | String c s' =>
      if is_space c
      then (if truthy cur then cur :: split_go EmptyString s'
            else split_go EmptyString s')
      else split_go (cur +:+ String c EmptyString) s'
  end.

Definition split (s : string) : list string := split_go EmptyString s.

(** [sep.join(l)] *)
Fixpoint join (sep : string) (l : list string) : string :=
  match l with
  | [] => EmptyString
  | [x] => x
  | x :: rest => x +:+ sep +:+ join sep rest
  end.

(** [repr(s)] of a string: single quotes, unless the string has a single
    quote and no double quote; backslash, the quote, tab, line feed and
    carriage return are escaped, other controls are written [\xhh]. *)
Definition hex_digit (n : nat) : ascii :=
  if (n <? 10)%nat then ascii_of_nat (48 + n) else ascii_of_nat (87 + n).

Definition repr_char (q : ascii) (c : ascii) : string :=
  let bs := ascii_of_nat 92 in
  if Ascii.eqb c bs then String bs (String bs EmptyString)
  else if Ascii.eqb c q then String bs (String q EmptyString)
  else if (code c =? 9)%nat then String bs "t"
  else if (code c =? 10)%nat then String bs "n"
  else if (code c =? 13)%nat then String bs "r"
  else if (code c <? 32)%nat || (code c =? 127)%nat
  then String bs (String "x" (String (hex_digit (code c / 16))
                                (String (hex_digit (code c mod 16)) EmptyString)))
  else String c EmptyString.

Fixpoint repr_body (q : ascii) (s : string) : string :=
  match s with
  | EmptyString => EmptyString
  | String c s' => repr_char q c +:+ repr_body q s'
  end.

Definition repr (s : string) : string :=
  let sq := ascii_of_nat 39 in
  let dq := ascii_of_nat 34 in
  let q := if str_existsb (Ascii.eqb sq) s && negb (str_existsb (Ascii.eqb dq) s)
           then dq else sq in
  String q (repr_body q s +:+ String q EmptyString).

(** [str(n)] for a count *)
Definition str_of_nat (n : nat) : string := pretty n.

(** The value of a string of decimal digits, as [int] reads it. *)
Definition digit_val (c : ascii) : Z := Z.of_nat (code c - 48).

Fixpoint int_of_digits_go (acc : Z) (s : string) : Z :=
  match s with
  | EmptyString => acc
  | String c s' => int_of_digits_go (10 * acc + digit_val c)%Z s'
  end.

Definition int_of_digits (s : string) : Z := int_of_digits_go 0%Z s.

(** *** binary64 *)

Definition prec : Z := 53.
Definition emax : Z := 1024.

Definition float := spec_float.

Definition is_finite (f : float) : bool :=
  match f with
  | S754_zero _ | S754_finite _ _ _ => true
  | _ => false
  end.

(** [float(z)]: the nearest binary64, [OverflowError] beyond the range. *)
Definition float_of_int (z : Z) : option float :=
  let f := binary_normalize prec emax z 0 false in
  if is_finite f then Some f else None.

(** A decimal literal [n/d], as the parser reads it: the nearest binary64.
    The correctly rounded quotient of two exactly represented integers. *)
Definition literal (n d : Z) : float :=
  SFdiv prec emax (binary_normalize prec emax n 0 false)
                  (binary_normalize prec emax d 0 false).

Definition fmul (x y : float) : float := SFmul prec emax x y.
Definition fadd (x y : float) : float := SFadd prec emax x y.
Definition fdiv (x y : float) : float := SFdiv prec emax x y.
Definition fle (x y : float) : bool := SFleb x y.

(** [a / b] on [int]: the correctly rounded quotient; [ZeroDivisionError]
    and [OverflowError] are [None]. *)
Definition int_true_div (a b : Z) : option float :=
  match a, b with
  | _, Z0 => None
  | Z0, _ => Some (S754_zero (b <? 0)%Z)
  | _, _ =>
      let q := SFdiv prec emax
                 (S754_finite (a <? 0)%Z (Z.to_pos (Z.abs a)) 0)
                 (S754_finite (b <? 0)%Z (Z.to_pos (Z.abs b)) 0) in
      if is_finite q then Some q else None
  end.

(** Round the fraction [m/d] ([d] positive) to an integer, ties to even. *)
Definition round_half_even (m d : Z) : Z :=
  let q := (m / d)%Z in
  let r := (m mod d)%Z in
  match (2 * r ?= d)%Z with
  | Lt => q
  | Gt => (q + 1)%Z
  | Eq => if Z.even q then q else (q + 1)%Z
  end.

(** [round(f)] with one argument: the nearest integer to the exact value
    of [f], ties to even; [None] for an infinity or a NaN. *)
Definition round (f : float) : option Z :=
  match f with
  | S754_zero _ => Some 0%Z
  | S754_finite s m e =>
      let v := match e with
               | Zneg p => round_half_even (Zpos m) (2 ^ Zpos p)
               | _ => (Zpos m * 2 ^ e)%Z
               end in
      Some (if s then (- v)%Z else v)
  | _ => None
  end.

(** [z >= f] for an [int] and a [float]: the comparison of the two exact
    values; it is false for a NaN. *)
Definition int_ge_float (z : Z) (f : float) : bool :=
  match f with
  | S754_nan => false
  | S754_infinity s => s
  | S754_zero _ => (0 <=? z)%Z
  | S754_finite s m e =>
      let v := if s then Zneg m else Zpos m in
      match e with
      | Zneg p => (v <=? z * 2 ^ Zpos p)%Z
      | _ => (v * 2 ^ e <=? z)%Z
      end
  end.

End Py.

(** ** Regular expressions

    Every pattern of the engine is an alternation of literal words, each
    with an optional word boundary [\b] before and after it. *)

Module Re.

Record alt := Alt { lead_b : bool; word : string; trail_b : bool }.

Definition regex := list alt.

(** [w], [\bw\b], [w\b] and [\bw] *)
Definition lit (w : string) : alt := Alt false w false.
Definition wb (w : string) : alt := Alt true w true.
Definition tb (w : string) : alt := Alt false w true.

Definition word_opt (c : option ascii) : bool :=
  match c with Some a => Py.is_word a | None => false end.

(** [\b] between the character before and the one after a position. *)
Definition boundary (prev next : option ascii) : bool :=
  xorb (word_opt prev) (word_opt next).

Definition head (s : string) : option ascii :=
  match s with EmptyString => None | String c _ => Some c end.

Definition char_eq (icase : bool) (a b : ascii) : bool :=
  if icase then Ascii.eqb (Py.lower_char a) (Py.lower_char b)
  else Ascii.eqb a b.

(** Read the word [p] at the start of [s]: the last character read (or
    [prev] when [p] is empty) and what is left of [s]. *)
Fixpoint read (icase : bool) (p s : string) (prev : option ascii)
  : option (option ascii * string) :=
  match p, s with
  | EmptyString, _ => Some (prev, s)
  | String a p', String b s' =>
      if char_eq icase a b then read icase p' s' (Some b) else None
  | String _ _, EmptyString => None
  end.

Definition alt_at (icase : bool) (prev : option ascii) (s : string) (a : alt) : bool :=
  (if lead_b a then boundary prev (head s) else true) &&
  match read icase (word a) s prev with
  | Some (last, rest) =>
      if trail_b a then boundary last (head rest) else true
  | None => false
  end.

Fixpoint search_from (icase : bool) (r : regex) (prev : option ascii) (s : string) : bool :=
  existsb (alt_at icase prev s) r ||
  match s with
  | EmptyString => false
  | String c s' => search_from icase r (Some c) s'
  end.

(** [bool(re.search(r, s))] *)
Definition search (r : regex) (s : string) : bool := search_from false r None s.

(** [bool(re.search(r, s, re.IGNORECASE))] *)
Definition search_i (r : regex) (s : string) : bool := search_from true r None s.

End Re.

(** ** The data model ([connector/models.py])

    Modelled from the spec: the record classes [NormalizedRecord],
    [NeedProfile], [CapabilityProfile], [Match] and [MatchingResult] are
    imported by the engine from [connector/models.py], whose text is not
    part of the sources at hand. Their fields are those of section 3 of the
    specification and those the engine reads. The free-form metadata slot of
    a record, which the engine neither reads nor writes, is left out. *)

(** A field that holds text or a list of texts ([industry], [size]). *)
Inductive field :=
| FStr (s : string)
| FList (l : list string).

(** [bool(v)] *)
Definition field_truthy (v : field) : bool :=
  match v with
  | FStr s => Py.truthy s
  | FList l => match l with [] => false | _ => true end
  end.

(** [str(v)], also what an f-string and [to_string_safe] make of [v]: a
    list is written as its [repr]. *)
Definition field_str (v : field) : string :=
  match v with
  | FStr s => s
  | FList l => "[" +:+ Py.join ", " (map Py.repr l) +:+ "]"
  end.

(** [v[0] if isinstance(v, list) else v]; [IndexError] on the empty list. *)
Definition first_or_self (v : field) : option string :=
  match v with
  | FStr s => Some s
  | FList l => match l with [] => None | x :: _ => Some x end
  end.

Module SignalMeta.
Record t := mk { kind : option string; label : option string }.
End SignalMeta.

Module NormalizedRecord.
Record t := mk {
  domain : string;
  company : string;
  full_name : string;
  first_name : string;
  last_name : string;
  email : string;
  title : string;
  industry : field;
  signal : string;
  signal_meta : option SignalMeta.t;
  company_description : string;
  company_funding : string;
  size : field;
  record_key : string
}.
End NormalizedRecord.

Module NeedProfile.
Record t := mk {
  category : string;
  specifics : list string;
  confidence : Py.float;
  source : string
}.
End NeedProfile.

Module CapabilityProfile.
Record t := mk {
  category : string;
  specifics : list string;
  confidence : Py.float;
  source : string
}.
End CapabilityProfile.

Inductive Tier := strong | good | open.

Module Match.
Record t := mk {
  demand : NormalizedRecord.t;
  supply : NormalizedRecord.t;
  score : Z;
  reasons : list string;
  tier : Tier;
  tier_reason : string;
  need_profile : NeedProfile.t;
  capability_profile : CapabilityProfile.t
}.
End Match.

(** One entry of [supply_aggregates]. *)
Module Aggregate.
Record t := mk {
  supply : NormalizedRecord.t;
  matches : list Match.t;
  best_match : Match.t;
  total_matches : nat
}.
End Aggregate.

Module Stats.
Record t := mk {
  total_demand : nat;
  total_supply : nat;
  total_matches : nat;
  unique_demands_matched : nat;
  avg_score : Z
}.
End Stats.

Module MatchingResult.
Record t := mk {
  demand_matches : list Match.t;
  supply_aggregates : list Aggregate.t;
  stats : Stats.t
}.
End MatchingResult.

(** ** [connector/semantic_expansion.py] *)

Module SemanticExpansion.

Definition SEMANTIC_MATCHING_ENABLED : bool := true.

Definition SUPPLY_CAPABILITY_EXPANSIONS : gmap string (list string) :=
  list_to_map [
    ("recruiting",
      ["hiring"; "talent acquisition"; "staffing"; "headhunting";
       "recruiter"; "placement"; "sourcing"; "talent"; "hire";
       "engineer"; "engineers"; "engineering"; "developer"; "software";
       "sales"; "marketing"]);
    ("recruit", ["hiring"; "talent"; "staffing"; "hire"]);
    ("staffing", ["recruiting"; "hiring"; "talent"; "hire"]);
    ("talent", ["recruiting"; "hiring"; "staffing"; "hire"]);
    ("engineering_recruiting",
      ["technical hiring"; "hire engineers"; "engineering hires";
       "tech hiring"; "developer hiring"; "engineer"; "software"]);
    ("sales_recruiting",
      ["sales hiring"; "hire salespeople"; "sales hires"; "revenue hiring"]);
    ("marketing_recruiting",
      ["marketing hiring"; "hire marketers"; "marketing hires"]);
    ("executive_recruiting",
      ["executive hiring"; "leadership hiring"; "c-suite hiring";
       "executive search"])
  ].

Definition DEMAND_NEED_EXPANSIONS : gmap string (list string) :=
  list_to_map [
    ("hiring",
      ["recruiting"; "talent acquisition"; "staffing"; "team building";
       "headcount"; "recruit"; "recruiter"]);
    ("engineer",
      ["recruiting"; "staffing"; "talent"; "hire"; "hiring";
       "technical hiring"]);
    ("engineers", ["recruiting"; "staffing"; "talent"; "hire"; "hiring"]);
    ("engineering",
      ["recruiting"; "staffing"; "talent"; "hire"; "hiring";
       "engineering hires"; "hire engineers"; "technical hiring";
       "developer"; "software engineer"; "tech talent"]);
    ("software", ["recruiting"; "staffing"; "talent"; "hire"; "engineering"]);
    ("developer", ["recruiting"; "staffing"; "talent"; "hire"; "engineering"]);
    ("sales",
      ["recruiting"; "staffing"; "talent"; "hire"; "hiring";
       "sales hires"; "hire salespeople"; "sales talent"; "revenue team"]);
    ("marketing",
      ["recruiting"; "staffing"; "talent"; "hire"; "hiring";
       "marketing hires"; "hire marketers"; "marketing talent"]);
    ("operations",
      ["recruiting"; "staffing"; "talent"; "hire";
       "operations hires"; "hire ops"; "ops talent"]);
    ("finance",
      ["recruiting"; "staffing"; "talent"; "hire";
       "finance hires"; "hire finance"; "accounting talent"])
  ].

Inductive Side := demand | supply.

Definition side_eqb (a b : Side) : bool :=
  match a, b with
  | demand, demand | supply, supply => true
  | _, _ => false
  end.

Record SemanticContext := { side : Side; text : string }.

Inductive Resolution := need | capability.

(** [\b(hire|hiring|team|headcount|recruit|talent|staffing|placement)\b] *)
Definition hiring_context_re : Re.regex :=
  map Re.wb ["hire"; "hiring"; "team"; "headcount"; "recruit"; "talent";
             "staffing"; "placement"].

(** [\b(recruit|recruiting|staffing|talent|headhunt|placement|sourcing)\b] *)
Definition recruiting_context_re : Re.regex :=
  map Re.wb ["recruit"; "recruiting"; "staffing"; "talent"; "headhunt";
             "placement"; "sourcing"].

Definition in_list (x : string) (l : list string) : bool :=
  existsb (String.eqb x) l.

Definition has_hiring_context (lower_text : string) : bool :=
  Re.search hiring_context_re lower_text.

Definition has_recruiting_context (lower_text : string) : bool :=
  Re.search recruiting_context_re lower_text.

Definition resolve_ambiguous_term (term : string) (ctx : SemanticContext)
  : option Resolution :=
  let lower_term := Py.lower term in
  let lower_text := Py.lower (text ctx) in
  if in_list lower_term ["engineering"; "engineer"; "engineers"] then
    if side_eqb (side ctx) demand && has_hiring_context lower_text then Some need
    else if side_eqb (side ctx) supply && has_recruiting_context lower_text
    then Some capability
    else None
  else if String.eqb lower_term "sales" then
    if side_eqb (side ctx) demand && has_hiring_context lower_text then Some need
    else if side_eqb (side ctx) supply && has_recruiting_context lower_text
    then Some capability
    else None
  else if String.eqb lower_term "marketing" then
    if side_eqb (side ctx) demand && has_hiring_context lower_text then Some need
    else if side_eqb (side ctx) supply && has_recruiting_context lower_text
    then Some capability
    else None
  else if String.eqb lower_term "growth" then
    if has_hiring_context lower_text
    then Some (if side_eqb (side ctx) demand then need else capability)
    else None
  else None.

Record SemanticExpansionResult := {
  base : gset string;
  expanded : gset string;
  reasons : gmap string (list string)
}.

(** The two accumulators of the expansion: [expanded] and [reasons]. *)
Definition acc : Type := gset string * gmap string (list string).

(** [expanded.add(e)] followed by [reasons[e].append(tag)], the list being
    created when [e] has none. *)
Definition add_tagged (tag : string) (st : acc) (expansion : string) : acc :=
  let e := Py.lower expansion in
  ({[ e ]} ∪ st.1, <[ e := default [] (st.2 !! e) ++ [tag] ]> st.2).

Definition add_all (tag : string) (exps : list string) (st : acc) : acc :=
  fold_left (add_tagged tag) exps st.

(** The same, only for an expansion that [expanded] does not hold yet. *)
Definition add_new (tag : string) (st : acc) (expansion : string) : acc :=
  if bool_decide (Py.lower expansion ∈ st.1) then st
  else add_tagged tag st expansion.

Definition add_all_new (tag : string) (exps : list string) (st : acc) : acc :=
  fold_left (add_new tag) exps st.

Definition expansion_map (s : Side) : gmap string (list string) :=
  if side_eqb s demand then DEMAND_NEED_EXPANSIONS
  else SUPPLY_CAPABILITY_EXPANSIONS.

(** The body of the loop over the tokens. *)
Definition expand_token (ctx : SemanticContext) (st : acc) (token : string) : acc :=
  let lower_token := Py.lower token in
  let st1 :=
    match expansion_map (side ctx) !! lower_token with
    | Some exps => add_all ("taxonomy:" +:+ lower_token) exps st
    | None => st
    end in
  match resolve_ambiguous_term lower_token ctx with
  | Some need =>
      if side_eqb (side ctx) demand
      then add_all ("ambiguity:" +:+ lower_token +:+ "→need")
             (default [] (DEMAND_NEED_EXPANSIONS !! "hiring")) st1
      else st1
  | Some capability =>
      if side_eqb (side ctx) supply
      then add_all ("ambiguity:" +:+ lower_token +:+ "→capability")
             (default [] (SUPPLY_CAPABILITY_EXPANSIONS !! "recruiting")) st1
      else st1
  | None => st1
  end.

(** The state after the loop over the tokens. *)
Definition expand_tokens (tokens : list string) (ctx : SemanticContext) : acc :=
  fold_left (expand_token ctx) tokens
    (list_to_set (map Py.lower tokens), ∅).

(** [\b(recruit|recruiting|staffing|talent|headhunt|placement)\b] *)
Definition text_recruiting_re : Re.regex :=
  map Re.wb ["recruit"; "recruiting"; "staffing"; "talent"; "headhunt";
             "placement"].

(** [\b(hiring|hire|hires|team building|headcount)\b] *)
Definition text_hiring_re : Re.regex :=
  map Re.wb ["hiring"; "hire"; "hires"; "team building"; "headcount"].

(** The text-based context detection that follows the loop. *)
Definition expand_text (ctx : SemanticContext) (st : acc) : acc :=
  let lower_text := Py.lower (text ctx) in
  let st1 :=
    if side_eqb (side ctx) supply && Re.search text_recruiting_re lower_text
    then add_all_new "text:recruiting_detected"
           (default [] (SUPPLY_CAPABILITY_EXPANSIONS !! "recruiting")) st
    else st in
  if side_eqb (side ctx) demand && Re.search text_hiring_re lower_text
  then add_all_new "text:hiring_detected"
         (default [] (DEMAND_NEED_EXPANSIONS !! "hiring")) st1
  else st1.

Definition expand_semantic_signals (tokens : list string) (ctx : SemanticContext)
  : SemanticExpansionResult :=
  let base := list_to_set (map Py.lower tokens) : gset string in
  if negb SEMANTIC_MATCHING_ENABLED
  then {| base := base; expanded := base; reasons := ∅ |}
  else
    let st := expand_text ctx (expand_tokens tokens ctx) in
    {| base := base; expanded := st.1; reasons := st.2 |}.

(** [re.sub(r'[^\w\s]', ' ', text.lower())], then [split()], keeping the
    tokens longer than two characters. *)
Definition extract_tokens (text : string) : list string :=
  if negb (Py.truthy text) then []
  else
    let cleaned :=
      Py.str_map (fun c => if Py.is_word c || Py.is_space c then c else " "%char)
        (Py.lower text) in
    filter (fun t => bool_decide (2 < String.length t)%nat) (Py.split cleaned).

(** The overlap of two token sets. The Python list [matchedTokens] holds
    the members of the intersection in the iteration order of the demand
    set, which nothing in the engine observes; it is the set here. *)
Record Overlap := { overlapCount : nat; matchedTokens : gset string }.

Definition compute_semantic_overlap (demand_tokens supply_tokens : gset string)
  : Overlap :=
  let matched := filter (fun t => t ∈ supply_tokens) demand_tokens in
  {| overlapCount := size matched; matchedTokens := matched |}.

Definition calculate_semantic_bonus (overlap_count : nat) : Z :=
  if (5 <=? overlap_count)%nat then 30%Z
  else if (3 <=? overlap_count)%nat then 20%Z
  else if (1 <=? overlap_count)%nat then 10%Z
  else 0%Z.

Record SemanticScore := {
  bonus : Z;
  score_overlapCount : nat;
  score_matchedTokens : gset string
}.

Definition get_semantic_score (demand_text supply_text : string) : SemanticScore :=
  let demand_tokens := extract_tokens demand_text in
  let supply_tokens := extract_tokens supply_text in
  let demand_result :=
    expand_semantic_signals demand_tokens {| side := demand; text := demand_text |} in
  let supply_result :=
    expand_semantic_signals supply_tokens {| side := supply; text := supply_text |} in
  let overlap :=
    compute_semantic_overlap (expanded demand_result) (expanded supply_result) in
  {| bonus := calculate_semantic_bonus (overlapCount overlap);
     score_overlapCount := overlapCount overlap;
     score_matchedTokens := matchedTokens overlap |}.

End SemanticExpansion.

(** ** [connector/matcher.py] *)

Module Matcher.

Import SemanticExpansion.

Definition lits (ws : list string) : Re.regex := map Re.lit ws.

(** The decimal literals of the module. *)
Definition f0_95 : Py.float := Py.literal 95 100.
Definition f0_9 : Py.float := Py.literal 9 10.
Definition f0_85 : Py.float := Py.literal 85 100.
Definition f0_8 : Py.float := Py.literal 8 10.
Definition f0_75 : Py.float := Py.literal 75 100.
Definition f0_7 : Py.float := Py.literal 7 10.
Definition f0_65 : Py.float := Py.literal 65 100.
Definition f0_6 : Py.float := Py.literal 6 10.
Definition f0_5 : Py.float := Py.literal 5 10.
Definition f0_4 : Py.float := Py.literal 4 10.
Definition f0_3 : Py.float := Py.literal 3 10.
Definition f0_2 : Py.float := Py.literal 2 10.
Definition f0_15 : Py.float := Py.literal 15 100.
Definition f0_10 : Py.float := Py.literal 10 100.
Definition f0_50 : Py.float := Py.literal 50 100.

(** A list that holds [x] when [c] holds: one conditional [append]. *)
Definition when (c : bool) (x : string) : list string := if c then [x] else [].

(** [to_string_safe] on a text field is the identity, on a field that may
    hold a list it is [field_str]. *)
Definition to_string_safe (v : field) : string := field_str v.

Definition funding_re : Re.regex :=
  lits ["raised"; "funding"; "series"; "seed"; "round"].

Definition extract_need_from_demand (demand : NormalizedRecord.t) : NeedProfile.t :=
  let signal := Py.lower (NormalizedRecord.signal demand) in
  let title := Py.lower (NormalizedRecord.title demand) in
  let description := Py.lower (NormalizedRecord.company_description demand) in
  let funding := Py.lower (NormalizedRecord.company_funding demand) in
  let industry := Py.lower (to_string_safe (NormalizedRecord.industry demand)) in
  let company := Py.lower (NormalizedRecord.company demand) in
  let is_hiring_data :=
    match NormalizedRecord.signal_meta demand with
    | Some meta =>
        match SignalMeta.kind meta with
        | Some k => String.eqb k "HIRING_ROLE"
        | None => false
        end
    | None => false
    end in
  if negb is_hiring_data then
    let industry_and_desc := industry +:+ " " +:+ company +:+ " " +:+ description in
    if Re.search_i
         (lits ["biotech"; "pharma"; "therapeutic"; "clinical"; "life science";
                "drug"; "medical device"; "biopharma"]) industry_and_desc
    then NeedProfile.mk "biotech" (when (Py.truthy funding) "funded") f0_85 "industry"
    else if Re.search_i (lits ["health"; "medical"; "hospital"; "patient"; "clinic"])
              industry_and_desc
            && negb (Re.search_i (lits ["biotech"; "pharma"]) industry_and_desc)
    then NeedProfile.mk "healthcare" [] f0_8 "industry"
    else if Re.search_i
              [Re.wb "software"; Re.lit "saas"; Re.wb "cloud"; Re.lit "platform";
               Re.lit "digital"; Re.lit "ai company"; Re.lit "tech company"]
              industry_and_desc
            && negb (Re.search_i (lits ["biotech"; "fintech"; "healthtech"])
                       industry_and_desc)
    then NeedProfile.mk "tech" [] f0_8 "industry"
    else if Re.search_i (lits ["fintech"; "financial technology"]) industry_and_desc
    then NeedProfile.mk "fintech" [] f0_8 "industry"
    else if Re.search_i
              (lits ["financ"; "banking"; "insurance"; "invest"; "capital"; "asset"])
              industry_and_desc
            && negb (Re.search_i (lits ["fintech"]) industry_and_desc)
    then NeedProfile.mk "finance_co" [] f0_75 "industry"
    else if Py.truthy funding || Re.search_i funding_re description
    then NeedProfile.mk "growth" ["post-funding"; "scaling"] f0_7 "funding_signal"
    else NeedProfile.mk "company" [] f0_4 "industry"
  else
    let combined := signal +:+ " " +:+ title in
    if Re.search_i
         [Re.lit "engineer"; Re.lit "developer"; Re.wb "software"; Re.lit "devops";
          Re.lit "backend"; Re.lit "frontend"; Re.lit "fullstack"; Re.tb "ml";
          Re.tb "ai"; Re.lit "data scientist"] combined
       && negb (Re.search_i (lits ["recruit"]) combined)
    then
      let specifics :=
        when (Re.search_i (lits ["senior"; "staff"; "lead"; "principal"]) combined)
          "senior"
        ++ when (Re.search_i [Re.lit "ml"; Re.lit "machine learning"; Re.tb "ai"]
                   combined) "ML/AI"
        ++ when (Re.search_i (lits ["backend"; "server"]) combined) "backend"
        ++ when (Re.search_i (lits ["frontend"; "react"; "ui"]) combined) "frontend" in
      NeedProfile.mk "engineering" specifics f0_9 "job_signal"
    else if Re.search_i
              [Re.wb "sales"; Re.lit "account executive"; Re.wb "ae"; Re.wb "sdr";
               Re.wb "bdr"; Re.lit "revenue"; Re.lit "business development";
               Re.lit "closer"] combined
    then
      let specifics :=
        when (Re.search_i (lits ["vp"; "head"; "director"]) combined) "leadership"
        ++ when (Re.search_i (lits ["enterprise"]) combined) "enterprise" in
      NeedProfile.mk "sales" specifics f0_9 "job_signal"
    else if Re.search_i
              [Re.lit "marketing"; Re.lit "growth"; Re.lit "brand"; Re.lit "content";
               Re.wb "seo"; Re.lit "paid"; Re.lit "demand gen"; Re.lit "gtm"] combined
    then
      let specifics :=
        when (Re.search_i (lits ["head"; "vp"; "director"]) combined) "leadership"
        ++ when (Re.search_i (lits ["content"]) combined) "content" in
      NeedProfile.mk "marketing" specifics f0_9 "job_signal"
    else if Re.search_i
              [Re.wb "finance"; Re.wb "cfo"; Re.lit "accounting"; Re.lit "controller";
               Re.lit "fp&a"; Re.lit "bookkeep"] combined
    then NeedProfile.mk "finance" [] f0_9 "job_signal"
    else if Re.search_i
              [Re.lit "operations"; Re.wb "ops"; Re.wb "coo"; Re.lit "chief operating";
               Re.lit "supply chain"; Re.lit "logistics"] combined
    then NeedProfile.mk "operations" [] f0_9 "job_signal"
    else if Re.search_i
              [Re.lit "recruiter"; Re.lit "talent"; Re.wb "hr";
               Re.lit "human resources"; Re.lit "people ops"] combined
    then NeedProfile.mk "recruiting" [] f0_9 "job_signal"
    else if Py.truthy funding
            || Re.search_i funding_re (combined +:+ " " +:+ description)
    then NeedProfile.mk "growth" ["post-funding"; "scaling"] f0_7 "funding_signal"
    else NeedProfile.mk "general" [] f0_3 "none".

(** [recruit|staffing|talent acquisition|headhunt|placement|hiring agency|staffing agency] *)
Definition recruiting_provider_re : Re.regex :=
  lits ["recruit"; "staffing"; "talent acquisition"; "headhunt"; "placement";
        "hiring agency"; "staffing agency"].

(** [None] is the [IndexError] of [industry_raw[0]] on an empty list. *)
Definition extract_capability_from_supply (supply : NormalizedRecord.t)
  : option CapabilityProfile.t :=
  let description := Py.lower (NormalizedRecord.company_description supply) in
  let title := Py.lower (NormalizedRecord.title supply) in
  let company := Py.lower (NormalizedRecord.company supply) in
  industry_raw ← first_or_self (NormalizedRecord.industry supply);
  let industry := Py.lower industry_raw in
  let combined := description +:+ " " +:+ title +:+ " " +:+ company +:+ " " +:+ industry in
  Some (
    if Re.search_i recruiting_provider_re combined then
      let specifics :=
        when (Re.search_i [Re.lit "engineer"; Re.wb "software"] combined) "tech"
        ++ when (Re.search_i (lits ["executive"; "c-suite"; "leadership"]) combined)
             "executive" in
      let confidence :=
        if Py.contains "recruit" description then f0_95
        else if Py.contains "recruit" title then f0_85 else f0_7 in
      let source :=
        if Py.contains "recruit" description then "description"
        else if Py.contains "recruit" title then "title" else "company_name" in
      CapabilityProfile.mk "recruiting" specifics confidence source
    else if Re.search_i
              (lits ["marketing agency"; "ad agency"; "advertising agency";
                     "creative agency"; "pr agency"]) combined
    then
      let specifics :=
        when (Re.search_i (lits ["startup"; "venture"]) combined) "startups"
        ++ when (Re.search_i (lits ["enterprise"; "b2b"]) combined) "enterprise" in
      CapabilityProfile.mk "marketing" specifics f0_9 "description"
    else if Re.search_i
              (lits ["dev shop"; "development agency"; "software agency";
                     "software consultancy"; "app development"]) combined
    then
      let specifics :=
        when (Re.search_i (lits ["startup"]) combined) "startups"
        ++ when (Re.search_i (lits ["mobile"; "ios"; "android"]) combined) "mobile" in
      CapabilityProfile.mk "engineering" specifics f0_8 "description"
    else if Re.search_i
              (lits ["consulting firm"; "advisory firm"; "management consulting";
                     "strategy consulting"; "consultancy"]) combined
    then CapabilityProfile.mk "consulting" [] f0_75 "description"
    else if Re.search_i
              (lits ["fractional"; "interim"; "outsourced cfo"; "outsourced coo";
                     "part-time executive"]) combined
    then CapabilityProfile.mk "fractional" [] f0_8 "title"
    else if Re.search_i
              (lits ["biotech"; "pharma"; "therapeutic"; "clinical"; "life science";
                     "biopharma"]) combined
    then CapabilityProfile.mk "biotech_contact" [] f0_7 "industry"
    else if Re.search_i (lits ["health"; "medical"; "hospital"]) combined
            && negb (Re.search_i (lits ["biotech"; "pharma"]) combined)
    then CapabilityProfile.mk "healthcare_contact" [] f0_65 "industry"
    else if Re.search_i
              [Re.wb "software"; Re.lit "saas"; Re.wb "cloud"; Re.lit "platform"]
              combined
            && negb (Re.search_i
                       (lits ["agency"; "shop"; "development company"; "consultancy"])
                       combined)
    then CapabilityProfile.mk "tech_contact" [] f0_6 "industry"
    else if Re.search_i (lits ["financ"; "banking"; "investment"; "capital"]) combined
            && negb (Re.search_i (lits ["recruit"]) combined)
    then CapabilityProfile.mk "finance_contact" [] f0_6 "industry"
    else if Re.search_i
              [Re.lit "business development"; Re.lit "licensing";
               Re.lit "partnerships"; Re.tb "bd"] title
    then CapabilityProfile.mk "bd_professional" [] f0_7 "title"
    else if Re.search_i
              (lits ["ceo"; "cto"; "cfo"; "coo"; "founder"; "co-founder";
                     "president"; "chief"]) title
    then CapabilityProfile.mk "executive" [] f0_5 "title"
    else CapabilityProfile.mk "professional" [] f0_3 "none").

Definition industry_matches : gmap string (list string) :=
  list_to_map [
    ("biotech", ["biotech_contact"; "bd_professional"]);
    ("healthcare", ["healthcare_contact"; "biotech_contact"]);
    ("tech", ["tech_contact"; "engineering"]);
    ("fintech", ["finance_contact"; "tech_contact"]);
    ("finance_co", ["finance_contact"; "consulting"])
  ].

Definition cross_matches : gmap string (list string) :=
  list_to_map [
    ("engineering", ["recruiting"; "consulting"]);
    ("sales", ["marketing"; "recruiting"]);
    ("marketing", ["sales"; "growth"]);
    ("finance", ["consulting"; "fractional"])
  ].

(** The first block of [score_alignment]: the value it returns, if any. *)
Definition industry_alignment (need_cat cap_cat : string) : option Z :=
  match industry_matches !! need_cat with
  | Some caps =>
      if match caps with c :: _ => String.eqb c cap_cat | [] => false end
      then Some 50%Z
      else if in_list cap_cat caps then Some 40%Z
      else None
  | None => None
  end.

Definition score_alignment (need : NeedProfile.t) (capability : CapabilityProfile.t) : Z :=
  let need_cat := NeedProfile.category need in
  let cap_cat := CapabilityProfile.category capability in
  match industry_alignment need_cat cap_cat with
  | Some v => v
  | None =>
    if String.eqb cap_cat "recruiting"
       && in_list need_cat ["engineering"; "sales"; "marketing"; "finance";
                            "operations"; "recruiting"]
    then 45
    else if String.eqb cap_cat "engineering" && String.eqb need_cat "engineering"
    then 40
    else if String.eqb cap_cat "marketing" && String.eqb need_cat "marketing"
    then 50
    else if String.eqb cap_cat "consulting"
            && in_list need_cat ["operations"; "growth"; "finance_co"; "company"]
    then 35
    else if String.eqb cap_cat "fractional"
            && in_list need_cat ["growth"; "finance"; "operations"]
    then 40
    else if String.eqb cap_cat "bd_professional"
    then (if in_list need_cat ["growth"; "biotech"; "healthcare"; "tech"; "fintech"]
          then 35 else 20)
    else if String.eqb cap_cat "executive"
    then (if String.eqb need_cat "growth" then 30 else 15)
    else if String.eqb need_cat "growth"
    then (if in_list cap_cat ["marketing"; "recruiting"] then 40
          else if in_list cap_cat ["consulting"; "fractional"] then 35
          else if negb (in_list cap_cat ["general"; "professional"]) then 25
          else 15)
    else if match cross_matches !! need_cat with
            | Some caps => in_list cap_cat caps
            | None => false
            end
    then 25
    else if in_list need_cat ["general"; "company"]
    then (if in_list cap_cat ["consulting"; "bd_professional"] then 20 else 15)
    else if in_list cap_cat ["general"; "professional"]
    then 10
    else 5
  end%Z.

Definition need_labels : gmap string string :=
  list_to_map [
    ("engineering", "Hiring engineers");
    ("sales", "Hiring sales");
    ("marketing", "Hiring marketing");
    ("recruiting", "Hiring recruiters");
    ("finance", "Hiring finance");
    ("operations", "Hiring operations");
    ("growth", "Raised funding");
    ("general", "Active company");
    ("biotech", "Biotech company");
    ("healthcare", "Healthcare company");
    ("tech", "Tech company");
    ("fintech", "Fintech company");
    ("finance_co", "Finance company");
    ("company", "Company")
  ].

Definition cap_labels : gmap string string :=
  list_to_map [
    ("recruiting", "Recruiter");
    ("marketing", "Marketing agency");
    ("engineering", "Dev shop");
    ("consulting", "Consultant");
    ("fractional", "Fractional exec");
    ("sales", "Sales consultant");
    ("finance", "Finance consultant");
    ("operations", "Ops consultant");
    ("growth", "Growth partner");
    ("general", "Provider");
    ("biotech_contact", "Biotech BD contact");
    ("healthcare_contact", "Healthcare contact");
    ("tech_contact", "Tech contact");
    ("finance_contact", "Finance contact");
    ("bd_professional", "BD professional");
    ("executive", "Executive");
    ("professional", "Professional")
  ].

Definition determine_tier (score : Z) (need : NeedProfile.t)
    (capability : CapabilityProfile.t) (demand_signal_label : option string)
  : Tier * string :=
  let fallback :=
    default (NeedProfile.category need) (need_labels !! NeedProfile.category need) in
  let need_label :=
    match demand_signal_label with
    | Some l => Py.str_or l fallback
    | None => fallback
    end in
  let cap_label :=
    default "Provider" (cap_labels !! CapabilityProfile.category capability) in
  let tier_reason := need_label +:+ " → " +:+ cap_label in
  let combined_confidence :=
    Py.fdiv (Py.fadd (NeedProfile.confidence need)
                     (CapabilityProfile.confidence capability))
            (Py.literal 2 1) in
  if (70 <=? score)%Z && Py.fle f0_7 combined_confidence
  then (strong, tier_reason)
  else if (45 <=? score)%Z || ((30 <=? score)%Z && Py.fle f0_5 combined_confidence)
  then (good, tier_reason)
  else (open, tier_reason).

Definition related_groups : list (list string) :=
  [ ["software"; "tech"; "technology"; "saas"; "it"];
    ["finance"; "fintech"; "banking"; "financial services"];
    ["healthcare"; "health"; "medical"; "biotech"; "pharma"];
    ["staffing"; "recruiting"; "hr"; "talent"; "human resources"];
    ["marketing"; "advertising"; "media"; "digital marketing"];
    ["sales"; "business development"; "revenue"] ].

(** [None] would be the [IndexError] of [x[0]]; the test on the two
    arguments comes first, so that it does not arise
    ([score_industry_total]). *)
Definition score_industry (demand_industry supply_industry : field) : option Z :=
  if negb (field_truthy demand_industry) || negb (field_truthy supply_industry)
  then Some 10%Z
  else
    d_raw ← first_or_self demand_industry;
    s_raw ← first_or_self supply_industry;
    let d := Py.lower d_raw in
    let s := Py.lower s_raw in
    if String.eqb d s then Some 30%Z
    else if Py.contains d s || Py.contains s d then Some 20%Z
    else if existsb (fun group =>
                       existsb (fun term => Py.contains term d) group
                       && existsb (fun term => Py.contains term s) group)
              related_groups
    then Some 15%Z
    else Some 5%Z.

Definition score_signal (demand_signal : string) (supply_title : string)
    (supply_industry : field) : Z :=
  if negb (Py.truthy demand_signal) then 5%Z
  else
    let signal := Py.lower demand_signal in
    let title := Py.lower supply_title in
    let industry := Py.lower (to_string_safe supply_industry) in
    let is_engineering :=
      Re.search (lits ["engineer"; "developer"; "software"; "tech"; "cto"]) signal in
    let is_sales :=
      Re.search (lits ["sales"; "account"; "revenue"; "sdr"; "bdr"]) signal in
    let is_marketing :=
      Re.search (lits ["marketing"; "growth"; "brand"; "content"]) signal in
    let is_recruiting :=
      Re.search (lits ["recruiter"; "talent"; "hr"; "hiring"]) signal in
    let is_finance :=
      Re.search (lits ["finance"; "cfo"; "accounting"; "controller"]) signal in
    let supply_serves_engineering :=
      Re.search (lits ["engineer"; "developer"; "tech"; "software"]) (title +:+ industry) in
    let supply_serves_sales :=
      Re.search (lits ["sales"; "revenue"; "business"]) (title +:+ industry) in
    let supply_serves_marketing :=
      Re.search (lits ["marketing"; "growth"; "brand"]) (title +:+ industry) in
    let supply_serves_recruiting :=
      Re.search (lits ["recruit"; "staffing"; "talent"; "hr"]) (title +:+ industry) in
    let supply_serves_finance :=
      Re.search (lits ["finance"; "accounting"; "cfo"]) (title +:+ industry) in
    if is_engineering && supply_serves_engineering then 40%Z
    else if is_sales && supply_serves_sales then 40%Z
    else if is_marketing && supply_serves_marketing then 40%Z
    else if is_recruiting && supply_serves_recruiting then 40%Z
    else if is_finance && supply_serves_finance then 40%Z
    else if supply_serves_recruiting then 25%Z
    else 10%Z.

Section Interpreter.

(** [sys.get_int_max_str_digits()]: the longest string of digits that
    [int] converts, [0] for no limit (4300 unless it is set). The limit
    only bears on strings of more than 640 digits. *)
Variable int_max_str_digits : nat.

(** [int(num_str)]; [None] is the [ValueError] beyond the limit. *)
Definition int_of_str (num_str : string) : option Z :=
  let digits := String.length num_str in
  if (640 <? digits)%nat && (0 <? int_max_str_digits)%nat
     && (int_max_str_digits <? digits)%nat
  then None
  else Some (Py.int_of_digits num_str).

Definition parse_size (size : string) : Z :=
  let num_str := Py.str_filter Py.is_digit size in
  if Py.truthy num_str
  then match int_of_str num_str with
       | Some n => n
       | None => 50%Z
       end
  else 50%Z.

(** [None] is the [OverflowError] of the division when the quotient is
    beyond the range of a float. *)
Definition score_size (demand_size supply_size : field) : option Z :=
  if negb (field_truthy demand_size) || negb (field_truthy supply_size)
  then Some 10%Z
  else
    d_size_raw ← first_or_self demand_size;
    s_size_raw ← first_or_self supply_size;
    let d_size := parse_size d_size_raw in
    let s_size := parse_size s_size_raw in
    ratio ← Py.int_true_div d_size (Z.max s_size 1);
    if Py.fle f0_5 ratio && Py.fle ratio (Py.literal 5 1) then Some 20%Z
    else if Py.fle f0_2 ratio && Py.fle ratio (Py.literal 10 1) then Some 15%Z
    else Some 5%Z.

(** [i * w] for an [int] and a [float] *)
Definition int_times (i : Z) (w : Py.float) : option Py.float :=
  f ← Py.float_of_int i; Some (Py.fmul f w).

Definition base_score : Z := 10.

(** Step 5 of [score_match]: the weighted blend with the additive bonus. *)
Definition weighted_blend (industry_score signal_score size_score
    alignment_score semantic_bonus : Z) : option Py.float :=
  a ← int_times industry_score f0_15;
  b ← int_times signal_score f0_15;
  c ← int_times size_score f0_10;
  d ← int_times alignment_score f0_50;
  e ← int_times base_score f0_10;
  g ← Py.float_of_int semantic_bonus;
  Some (Py.fadd (Py.fadd (Py.fadd (Py.fadd (Py.fadd a b) c) d) e) g).

(** [min(100, round(total_score))] *)
Definition total_score (industry_score signal_score size_score
    alignment_score semantic_bonus : Z) : option Z :=
  blend ← weighted_blend industry_score signal_score size_score
            alignment_score semantic_bonus;
  r ← Py.round blend;
  Some (Z.min 100 r).

Definition record_text (r : NormalizedRecord.t) : string :=
  NormalizedRecord.signal r +:+ " " +:+ NormalizedRecord.title r +:+ " "
  +:+ NormalizedRecord.company_description r +:+ " "
  +:+ field_str (NormalizedRecord.industry r).

Definition score_match (demand supply : NormalizedRecord.t) : option Match.t :=
  let need_profile := extract_need_from_demand demand in
  capability_profile ← extract_capability_from_supply supply;
  industry_score ←
    score_industry (NormalizedRecord.industry demand) (NormalizedRecord.industry supply);
  let reasons1 := when (20 <? industry_score)%Z "Industry match" in
  let signal_score :=
    score_signal (NormalizedRecord.signal demand) (NormalizedRecord.title supply)
      (NormalizedRecord.industry supply) in
  let reasons2 := reasons1 ++ when (25 <? signal_score)%Z "Signal alignment" in
  size_score ← score_size (NormalizedRecord.size demand) (NormalizedRecord.size supply);
  let reasons3 := reasons2 ++ when (10 <? size_score)%Z "Size fit" in
  let alignment_score := score_alignment need_profile capability_profile in
  let reasons4 :=
    reasons3 ++
    (if (40 <=? alignment_score)%Z
     then [NeedProfile.category need_profile +:+ " need → "
           +:+ CapabilityProfile.category capability_profile +:+ " capability"]
     else when (25 <=? alignment_score)%Z "Cross-functional fit") in
  let semantic_result := get_semantic_score (record_text demand) (record_text supply) in
  let semantic_bonus := bonus semantic_result in
  let matches_text :=
    "(" +:+ Py.str_of_nat (score_overlapCount semantic_result) +:+ " matches)" in
  let reasons5 :=
    reasons4 ++
    (if (20 <=? semantic_bonus)%Z then ["Strong keyword overlap " +:+ matches_text]
     else when (10 <=? semantic_bonus)%Z ("Keyword overlap " +:+ matches_text)) in
  total ← total_score industry_score signal_score size_score alignment_score
            semantic_bonus;
  let '(tier, tier_reason) :=
    determine_tier total need_profile capability_profile
      (meta ← NormalizedRecord.signal_meta demand; SignalMeta.label meta) in
  let final_score := if (total =? 0)%Z then 1%Z else total in
  let reasons6 := reasons5 ++ when (total =? 0)%Z "Exploratory match" in
  Some (Match.mk demand supply final_score reasons6 tier tier_reason
          need_profile capability_profile).

(** *** Aggregation *)

Definition get_demand_key (demand : NormalizedRecord.t) : string :=
  if Py.truthy (NormalizedRecord.record_key demand)
  then NormalizedRecord.record_key demand
  else Py.str_or (NormalizedRecord.full_name demand)
         (NormalizedRecord.company demand +:+ "-" +:+ NormalizedRecord.title demand).

Definition get_supply_key (supply : NormalizedRecord.t) : string :=
  if Py.truthy (NormalizedRecord.record_key supply)
  then NormalizedRecord.record_key supply
  else Py.str_or (NormalizedRecord.domain supply)
         (Py.str_or (NormalizedRecord.full_name supply)
            (NormalizedRecord.company supply +:+ "-" +:+ NormalizedRecord.title supply)).

(** [l.sort(key=key, reverse=True)]: a stable sort, the elements of equal
    key keep their order. *)
Fixpoint insert_desc {A : Type} (key : A -> Z) (x : A) (l : list A) : list A :=
  match l with
  | [] => [x]
  | y :: l' =>
      if (key x <? key y)%Z then y :: insert_desc key x l'
      else x :: y :: l'
  end.

Definition sort_desc {A : Type} (key : A -> Z) (l : list A) : list A :=
  fold_right (insert_desc key) [] l.

(** The loop of [get_best_match_per_demand], with its two accumulators. *)
Fixpoint best_match_loop (matches : list Match.t) (seen : gset string)
    (result : list Match.t) : list Match.t :=
  match matches with
  | [] => result
  | m :: rest =>
      let key := get_demand_key (Match.demand m) in
      if bool_decide (key ∈ seen) then best_match_loop rest seen result
      else best_match_loop rest ({[ key ]} ∪ seen) (result ++ [m])
  end.

Definition get_best_match_per_demand (matches : list Match.t) : list Match.t :=
  best_match_loop matches ∅ [].

(** [by_supply]: a dictionary in insertion order. [by_supply_add] is one
    turn of the first loop of [aggregate_by_supply]. *)
Fixpoint by_supply_add (key : string) (m : Match.t)
    (by_supply : list (string * list Match.t)) : list (string * list Match.t) :=
  match by_supply with
  | [] => [(key, [m])]
  | (k, ms) :: rest =>
      if String.eqb k key then (k, ms ++ [m]) :: rest
      else (k, ms) :: by_supply_add key m rest
  end.

Definition group_by_supply (matches : list Match.t) : list (string * list Match.t) :=
  fold_left (fun by_supply m => by_supply_add (get_supply_key (Match.supply m)) m by_supply)
    matches [].

Definition unique_demand_keys (ms : list Match.t) : gset string :=
  list_to_set (map (fun m => get_demand_key (Match.demand m)) ms).

(** One turn of the second loop; [None] would be the [IndexError] of
    [supplier_matches[0]]. *)
Definition aggregate_group (supplier_matches : list Match.t) : option Aggregate.t :=
  let sorted := sort_desc Match.score supplier_matches in
  best ← head sorted;
  Some (Aggregate.mk (Match.supply best) sorted best
          (size (unique_demand_keys sorted))).

Definition aggregate_by_supply (matches : list Match.t) : option (list Aggregate.t) :=
  aggregates ← mapM (fun g => aggregate_group g.2) (group_by_supply matches);
  Some (sort_desc (fun a => Z.of_nat (Aggregate.total_matches a)) aggregates).

(** *** The orchestrator *)

(** The inner loop of [match_records] for one demand record. *)
Fixpoint score_against (d : NormalizedRecord.t) (supply : list NormalizedRecord.t)
    (min_score : Z) (all_matches : list Match.t) : option (list Match.t) :=
  match supply with
  | [] => Some all_matches
  | s :: rest =>
      m ← score_match d s;
      score_against d rest min_score
        (if (min_score <=? Match.score m)%Z then all_matches ++ [m] else all_matches)
  end.

(** The outer loop. The progress callback, which the engine calls after
    each demand record and whose result it does not read, is left out. *)
Fixpoint score_pairs (demand supply : list NormalizedRecord.t)
    (min_score : Z) (all_matches : list Match.t) : option (list Match.t) :=
  match demand with
  | [] => Some all_matches
  | d :: rest =>
      all_matches' ← score_against d supply min_score all_matches;
      score_pairs rest supply min_score all_matches'
  end.

Definition sum_scores (scores : list Z) : Z := fold_left Z.add scores 0%Z.

(** [round(sum(scores) / len(scores)) if scores else 0] *)
Definition average_score (scores : list Z) : option Z :=
  match scores with
  | [] => Some 0%Z
  | _ =>
      q ← Py.int_true_div (sum_scores scores) (Z.of_nat (length scores));
      Py.round q
  end.

Definition match_records (demand supply : list NormalizedRecord.t)
    (min_score : Z) (best_match_only : bool) : option MatchingResult.t :=
  scored ← score_pairs demand supply min_score [];
  let all_matches := sort_desc Match.score scored in
  let demand_matches :=
    if best_match_only then get_best_match_per_demand all_matches
    else all_matches in
  supply_aggregates ← aggregate_by_supply demand_matches;
  let scores := map Match.score all_matches in
  avg_score ← average_score scores;
  let unique_demands := size (unique_demand_keys demand_matches) in
  Some (MatchingResult.mk demand_matches supply_aggregates
          (Stats.mk (length demand) (length supply) (length demand_matches)
             unique_demands avg_score)).

End Interpreter.

(** *** Filtering a result *)

Section Filter.

(** [record.company_name], an attribute that [filter_by_score] reads and
    that the record class of section 3 of the specification does not list;
    [None] is the [AttributeError] of a record without it. *)
Variable company_name : NormalizedRecord.t -> option string.

(** [m.score >= min_score] *)
Definition passes (min_score : Py.float) (m : Match.t) : bool :=
  Py.int_ge_float (Match.score m) min_score.

(** One turn of the loop over the aggregates: [None] when no match of the
    aggregate passes, and nothing is appended. *)
Definition filter_aggregate (min_score : Py.float) (agg : Aggregate.t)
  : option Aggregate.t :=
  let filtered_matches := filter (fun m => passes min_score m) (Aggregate.matches agg) in
  match filtered_matches with
  | [] => None
  | best :: _ =>
      Some (Aggregate.mk (Aggregate.supply agg) filtered_matches best
              (length filtered_matches))
  end.

(** [m.demand.domain or m.demand.company_name] *)
Definition domain_or_company_name (m : Match.t) : option string :=
  if Py.truthy (NormalizedRecord.domain (Match.demand m))
  then Some (NormalizedRecord.domain (Match.demand m))
  else company_name (Match.demand m).

Definition filter_by_score (result : MatchingResult.t) (min_score : Py.float)
  : option MatchingResult.t :=
  let filtered_demand :=
    filter (fun m => passes min_score m) (MatchingResult.demand_matches result) in
  let filtered_aggregates :=
    omap (filter_aggregate min_score) (MatchingResult.supply_aggregates result) in
  let filtered_scores := map Match.score filtered_demand in
  avg_score ← average_score filtered_scores;
  names ← mapM domain_or_company_name filtered_demand;
  let unique_demands := size (list_to_set names : gset string) in
  Some (MatchingResult.mk filtered_demand filtered_aggregates
          (Stats.mk (Stats.total_demand (MatchingResult.stats result))
             (Stats.total_supply (MatchingResult.stats result))
             (length filtered_demand) unique_demands avg_score)).

End Filter.

End Matcher.

(** ** Definitions used to state the properties *)

Import SemanticExpansion Matcher.

(** Non-increasing in [key]: each element is at least every later one. *)
Definition descending {A : Type} (key : A -> Z) (l : list A) : Prop :=
  StronglySorted (fun a b => (key b <= key a)%Z) l.

(** Every demand/supply pair with its match, demand-major, as the two loops
    of [match_records] visit them. *)
Definition scored_pairs (lim : nat) (demand supply : list NormalizedRecord.t)
  : list (option Match.t) :=
  flat_map (fun d => map (score_match lim d) supply) demand.

(** The matches of the pairs that pass the [min_score] filter. *)
Definition passing_matches (lim : nat) (demand supply : list NormalizedRecord.t)
    (min_score : Z) : list Match.t :=
  filter (fun m => (min_score <= Match.score m)%Z)
    (omap id (scored_pairs lim demand supply)).

Definition demand_key (m : Match.t) : string := get_demand_key (Match.demand m).

(** The matches that [best_match_loop] appends: the first one of each key
    that is not in [seen]. *)
Fixpoint firsts (seen : gset string) (ms : list Match.t) : list Match.t :=
  match ms with
  | [] => []
  | m :: rest =>
      if bool_decide (demand_key m ∈ seen) then firsts seen rest
      else m :: firsts ({[ demand_key m ]} ∪ seen) rest
  end.

(** Every group is not empty and holds matches of [matches] only. *)
Definition groups_of (matches : list Match.t) (by_supply : list (string * list Match.t))
  : Prop :=
  Forall (fun g => g.2 <> [] /\ g.2 ⊆ matches) by_supply.

(** The sum of a list of scores. *)
Definition score_sum (scores : list Z) : Z := foldr Z.add 0%Z scores.

(** [z] is a nearest integer to [a/b], the even one at a tie. *)
Definition nearest_even (a b z : Z) : Prop :=
  (2 * b * z - b < 2 * a < 2 * b * z + b)%Z \/
  ((2 * a = 2 * b * z - b \/ 2 * a = 2 * b * z + b)%Z /\ Z.even z = true).

(** The location of [r/n] with respect to one half. *)
Definition location_of (n r : Z) : location :=
  if (r =? 0)%Z then loc_Exact else loc_Inexact (2 * r ?= n)%Z.

(** The values that the five terms of the blend take. *)
Definition industry_values : list Z := [5; 10; 15; 20; 30]%Z.
Definition signal_values : list Z := [5; 10; 25; 40]%Z.
Definition size_values : list Z := [5; 10; 15; 20]%Z.
Definition alignment_values : list Z := [5; 10; 15; 20; 25; 30; 35; 40; 45; 50]%Z.
Definition bonus_values : list Z := [0; 10; 20; 30]%Z.

(** The blend is 5.5 or more and rounds to 6 or more. *)
Definition blend_ok (i sg sz al b : Z) : bool :=
  match weighted_blend i sg sz al b with
  | Some f =>
      Py.fle (Py.literal 55 10) f &&
      match Py.round f with
      | Some r => (6 <=? r)%Z
      | None => false
      end
  | None => false
  end.

(** The first byte of the arrow of the alignment reason. *)
Definition has_arrow (s : string) : bool :=
  Py.str_existsb (fun c => (Py.code c =? 226)%nat) s.

(** [SUPPLY_CAPABILITY_EXPANSIONS.get('recruiting', [])] *)
Definition recruiting_expansions : list string :=
  default [] (SUPPLY_CAPABILITY_EXPANSIONS !! "recruiting").

(** The alternation [recruit|recruiting|staffing|talent|headhunt|placement]
    read without word boundaries. *)
Definition recruiting_words : Re.regex :=
  lits ["recruit"; "recruiting"; "staffing"; "talent"; "headhunt"; "placement"].

(** Every token with recorded reasons is in the expanded set. *)
Definition reasons_in_expanded (st : acc) : Prop :=
  forall e, e ∉ st.1 -> st.2 !! e = None.

(** *** Sample records *)

(** [n] zeros *)
Fixpoint zeros (n : nat) : string :=
  match n with
  | O => EmptyString
  | S n' => String "0" (zeros n')
  end.

Definition blank : NormalizedRecord.t :=
  NormalizedRecord.mk EmptyString EmptyString EmptyString EmptyString EmptyString
    EmptyString EmptyString (FStr EmptyString) EmptyString None EmptyString
    EmptyString (FStr EmptyString) EmptyString.

(** Two hiring companies whose rows carry no record key and the same
    contact name, and a company that raised funding. *)
Definition acme : NormalizedRecord.t :=
  NormalizedRecord.mk "acme.example" "Acme" "Jane Doe" "Jane" "Doe" EmptyString
    "CTO" (FStr "Software") "Hiring: Senior Software Engineer"
    (Some (SignalMeta.mk (Some "HIRING_ROLE") None))
    "We build cloud tools" EmptyString (FStr "200") EmptyString.

Definition globex : NormalizedRecord.t :=
  NormalizedRecord.mk "globex.example" "Globex" "Jane Doe" "Jane" "Doe" EmptyString
    "VP Sales" (FStr "Finance") "Hiring: Account Executive"
    (Some (SignalMeta.mk (Some "HIRING_ROLE") (Some "Hiring sales reps")))
    "Payments for banks" EmptyString (FStr "1,000") EmptyString.

Definition initech : NormalizedRecord.t :=
  NormalizedRecord.mk "initech.example" "Initech" "Sam Roe" "Sam" "Roe" EmptyString
    "CEO" (FList ["Biotech"; "Pharma"]) "Raised a Series A" None
    "Clinical trials platform" "Series A" (FStr "40") "demand-3".

Definition talentry : NormalizedRecord.t :=
  NormalizedRecord.mk "talentry.example" "Talentry" "Bob Ray" "Bob" "Ray" EmptyString
    "Founder" (FList ["Staffing"; "HR"]) EmptyString None
    "recruiting agency for engineers" EmptyString (FStr "11-50") "supply-1".

Definition brightside : NormalizedRecord.t :=
  NormalizedRecord.mk "brightside.example" "Brightside" "Ann Lee" "Ann" "Lee"
    EmptyString "Partner" (FStr "Marketing") EmptyString None
    "creative agency for startups" EmptyString (FStr "25") "supply-2".

Definition sample_demand : list NormalizedRecord.t := [acme; globex; initech].
Definition sample_supply : list NormalizedRecord.t := [talentry; brightside; blank].

(** A supplier that the word [staffing] in its description makes a
    recruiting provider; its title and its company name have no keyword of
    a provider. *)
Definition staffing_agency : NormalizedRecord.t :=
  NormalizedRecord.mk "northwind.example" "Northwind Partners" "Dana Cole" "Dana"
    "Cole" EmptyString "Managing Director" (FStr EmptyString) EmptyString None
    "Staffing agency for hospitals" EmptyString (FStr "30") "supply-9".

(** *** Definitions for the further properties *)

(** The rounded blend is between 6 and 68. *)
Definition score_bounded (i sg sz al b : Z) : bool :=
  match total_score i sg sz al b with
  | Some t => (6 <=? t)%Z && (t <=? 68)%Z
  | None => false
  end.

(** The reasons that [score_match] collects, from the five terms of the
    blend and the number of overlapping tokens. *)
Definition reasons_of (need_cat cap_cat : string) (i sg sz al b : Z) (overlap : nat)
  : list string :=
  let matches_text := "(" +:+ Py.str_of_nat overlap +:+ " matches)" in
  when (20 <? i)%Z "Industry match"
  ++ when (25 <? sg)%Z "Signal alignment"
  ++ when (10 <? sz)%Z "Size fit"
  ++ (if (40 <=? al)%Z
      then [need_cat +:+ " need → " +:+ cap_cat +:+ " capability"]
      else when (25 <=? al)%Z "Cross-functional fit")
  ++ (if (20 <=? b)%Z then ["Strong keyword overlap " +:+ matches_text]
      else when (10 <=? b)%Z ("Keyword overlap " +:+ matches_text)).

(** [demand.signal_meta.label if demand.signal_meta else None] *)
Definition signal_label (d : NormalizedRecord.t) : option string :=
  meta ← NormalizedRecord.signal_meta d; SignalMeta.label meta.

(** The order of the tiers. *)
Definition tier_rank (t : Tier) : nat :=
  match t with open => 0 | good => 1 | strong => 2 end.

Definition supply_key (m : Match.t) : string := get_supply_key (Match.supply m).

(** The groups of [by_supply] have distinct keys, none is empty, and each
    holds matches of its key only. *)
Definition keyed_groups (by_supply : list (string * list Match.t)) : Prop :=
  NoDup by_supply.*1 /\
  Forall (fun g => g.2 <> [] /\ Forall (fun m => supply_key m = g.1) g.2) by_supply.

(** The two industries are given and their first entries are equal up to
    the case of the letters. *)
Definition same_industry (d s : field) : Prop :=
  field_truthy d = true /\ field_truthy s = true /\
  exists a b, first_or_self d = Some a /\ first_or_self s = Some b /\
              Py.lower a = Py.lower b.

(** The number of decimal digits of a size. *)
Definition digit_count (size : string) : nat :=
  String.length (Py.str_filter Py.is_digit size).

(** [signal_meta.kind == 'HIRING_ROLE'] *)
Definition is_hiring_data (d : NormalizedRecord.t) : bool :=
  match NormalizedRecord.signal_meta d with
  | Some meta =>
      match SignalMeta.kind meta with
      | Some k => String.eqb k "HIRING_ROLE"
      | None => false
      end
  | None => false
  end.

(** The category, confidence and source of the profiles that the two
    extractors build. *)
Definition hiring_needs : list (string * Py.float * string) :=
  [ ("engineering", f0_9, "job_signal"); ("sales", f0_9, "job_signal");
    ("marketing", f0_9, "job_signal"); ("finance", f0_9, "job_signal");
    ("operations", f0_9, "job_signal"); ("recruiting", f0_9, "job_signal");
    ("growth", f0_7, "funding_signal"); ("general", f0_3, "none") ].

Definition company_needs : list (string * Py.float * string) :=
  [ ("biotech", f0_85, "industry"); ("healthcare", f0_8, "industry");
    ("tech", f0_8, "industry"); ("fintech", f0_8, "industry");
    ("finance_co", f0_75, "industry"); ("growth", f0_7, "funding_signal");
    ("company", f0_4, "industry") ].

Definition capabilities : list (string * Py.float * string) :=
  [ ("recruiting", f0_95, "description"); ("recruiting", f0_85, "title");
    ("recruiting", f0_7, "company_name"); ("marketing", f0_9, "description");
    ("engineering", f0_8, "description"); ("consulting", f0_75, "description");
    ("fractional", f0_8, "title"); ("biotech_contact", f0_7, "industry");
    ("healthcare_contact", f0_65, "industry"); ("tech_contact", f0_6, "industry");
    ("finance_contact", f0_6, "industry"); ("bd_professional", f0_7, "title");
    ("executive", f0_5, "title"); ("professional", f0_3, "none") ].

(** A profile of one of the tables has a confidence between [lo] and [hi]
    and a category with a label in [labels]. *)
Definition profile_ok (labels : gmap string string) (lo hi : Py.float)
    (p : string * Py.float * string) : bool :=
  Py.fle lo p.1.2 && Py.fle p.1.2 hi && bool_decide (is_Some (labels !! p.1.1)).

(** A supplier whose industry is a list, in capitals. *)
Definition codeworks : NormalizedRecord.t :=
  NormalizedRecord.mk "codeworks.example" "Codeworks" "Kim Park" "Kim" "Park"
    EmptyString "Engineer" (FList ["SOFTWARE"; "IT"]) EmptyString None
    "App development for startups" EmptyString (FStr "11-50") EmptyString.

(** Every character of [s] passes [f]. *)
Fixpoint str_forallb (f : ascii -> bool) (s : string) : bool :=
  match s with
  | EmptyString => true
  | String c s' => f c && str_forallb f s'
  end.

(** A word character that is not a capital letter. *)
Definition is_lower_word (c : ascii) : bool := Py.is_word c && negb (Py.is_upper c).

(** The terms that [resolve_ambiguous_term] can resolve to a need. *)
Definition need_terms : list string :=
  ["engineering"; "engineer"; "engineers"; "sales"; "marketing"; "growth"].

(** [DEMAND_NEED_EXPANSIONS.get('hiring', [])] *)
Definition hiring_expansions : list string :=
  default [] (DEMAND_NEED_EXPANSIONS !! "hiring").

(** [e] is an expansion of some key of the taxonomy [m], in lower case. *)
Definition in_taxonomy (m : gmap string (list string)) (e : string) : Prop :=
  exists k exps, m !! k = Some exps /\ e ∈ Py.lower <$> exps.

(** The expanded set is the base with the tokens that have reasons, and no
    list of reasons is empty. *)
Definition explained (base : gset string) (st : acc) : Prop :=
  st.1 = base ∪ dom st.2 /\ forall e l, st.2 !! e = Some l -> l <> [].

(** The expanded set is within the base and the taxonomy [m]. *)
Definition within (base : gset string) (m : gmap string (list string)) (st : acc)
  : Prop :=
  forall e, e ∈ st.1 -> e ∈ base \/ in_taxonomy m e.

(** A supplier whose industry is the empty list. *)
Definition no_industry : NormalizedRecord.t :=
  NormalizedRecord.mk "nowhere.example" "Nowhere" "Lou Kay" "Lou" "Kay" EmptyString
    "Owner" (FList []) EmptyString None EmptyString EmptyString (FStr "10")
    EmptyString.

(** The alignment of a recruiting provider with a need. *)
Definition recruiting_alignment (need_cat : string) : Z :=
  if in_list need_cat ["engineering"; "sales"; "marketing"; "finance";
                       "operations"; "recruiting"] then 45
  else if String.eqb need_cat "growth" then 40
  else if in_list need_cat ["general"; "company"] then 15
  else 5.

(** ** Properties *)


Lemma all_blends_ok :
  forallb (fun i => forallb (fun sg => forallb (fun sz => forallb (fun al =>
    forallb (fun b => blend_ok i sg sz al b) bonus_values) alignment_values)
    size_values) signal_values) industry_values = true.
Proof. vm_compute. reflexivity. Qed.

Lemma blend_ok_In i sg sz al b :
  In i industry_values -> In sg signal_values -> In sz size_values ->
  In al alignment_values -> In b bonus_values -> blend_ok i sg sz al b = true.
Proof.
  intros Hi Hsg Hsz Hal Hb.
  pose proof all_blends_ok as H.
  rewrite forallb_forall in H. specialize (H _ Hi).
  rewrite forallb_forall in H. specialize (H _ Hsg).
  rewrite forallb_forall in H. specialize (H _ Hsz).
  rewrite forallb_forall in H. specialize (H _ Hal).
  rewrite forallb_forall in H. exact (H _ Hb).
Qed.

Lemma score_alignment_values n c : In (score_alignment n c) alignment_values.
Proof.
  unfold score_alignment, industry_alignment, alignment_values.
  repeat case_match; simplify_eq; simpl; tauto.
Qed.

Lemma score_signal_values sg t i : In (score_signal sg t i) signal_values.
Proof.
  unfold score_signal, signal_values.
  repeat case_match; simpl; tauto.
Qed.

Lemma score_industry_values d s v :
  score_industry d s = Some v -> In v industry_values.
Proof.
  unfold score_industry, industry_values. intros H.
  repeat (case_match; simplify_option_eq); simpl; tauto.
Qed.

Lemma score_size_values lim d s v :
  score_size lim d s = Some v -> In v size_values.
Proof.
  unfold score_size, size_values. intros H.
  destruct (_ || _); [injection H as <-; simpl; tauto|].
  destruct (first_or_self d) as [dr|]; [|discriminate].
  destruct (first_or_self s) as [sr|]; [|discriminate].
  cbn [mbind option_bind] in H.
  destruct (Py.int_true_div _ _) as [ratio|]; [|discriminate].
  cbn [mbind option_bind] in H.
  destruct (_ && _); [injection H as <-; simpl; tauto|].
  destruct (_ && _); injection H as <-; simpl; tauto.
Qed.

Lemma bonus_values_In n : In (calculate_semantic_bonus n) bonus_values.
Proof.
  unfold calculate_semantic_bonus, bonus_values.
  repeat case_match; simpl; tauto.
Qed.

Lemma has_arrow_app a b : has_arrow (a +:+ b) = has_arrow a || has_arrow b.
Proof.
  unfold has_arrow. induction a as [|c a IH]; simpl; [reflexivity|].
  rewrite IH. apply orb_assoc.
Qed.

Lemma alignment_reason_not_exploratory n c :
  n +:+ " need → " +:+ c +:+ " capability" <> "Exploratory match".
Proof.
  intros H. apply (f_equal has_arrow) in H.
  rewrite !has_arrow_app in H.
  replace (has_arrow " need → ") with true in H by reflexivity.
  rewrite orb_true_r in H. discriminate H.
Qed.

Lemma when_not_In c x y : x <> y -> ~ In y (when c x).
Proof. intros Hne. destruct c; simpl; intuition. Qed.

Lemma score_match_inv lim d s m :
  score_match lim d s = Some m ->
  exists cap i sz f r,
    extract_capability_from_supply s = Some cap /\
    score_industry (NormalizedRecord.industry d) (NormalizedRecord.industry s) = Some i /\
    score_size lim (NormalizedRecord.size d) (NormalizedRecord.size s) = Some sz /\
    weighted_blend i
      (score_signal (NormalizedRecord.signal d) (NormalizedRecord.title s)
         (NormalizedRecord.industry s))
      sz (score_alignment (extract_need_from_demand d) cap)
      (bonus (get_semantic_score (record_text d) (record_text s))) = Some f /\
    Py.fle (Py.literal 55 10) f = true /\
    Py.round f = Some r /\ (6 <= r)%Z /\
    Match.score m = Z.min 100 r /\
    ~ In "Exploratory match" (Match.reasons m) /\
    Match.demand m = d /\ Match.supply m = s /\
    Match.need_profile m = extract_need_from_demand d /\
    Match.capability_profile m = cap.
Proof.
  unfold score_match. intros H.
  destruct (extract_capability_from_supply s) as [cap|] eqn:Hcap; [|discriminate].
  cbn [mbind option_bind] in H.
  destruct (score_industry _ _) as [i|] eqn:Hi; [|discriminate].
  cbn [mbind option_bind] in H.
  destruct (score_size lim _ _) as [sz|] eqn:Hsz; [|discriminate].
  cbn [mbind option_bind] in H.
  set (sg := score_signal _ _ _) in *.
  set (al := score_alignment _ _) in *.
  set (sem := get_semantic_score _ _) in *.
  pose proof (blend_ok_In i sg sz al (bonus sem)
                (score_industry_values _ _ _ Hi) (score_signal_values _ _ _)
                (score_size_values _ _ _ _ Hsz) (score_alignment_values _ _)
                (bonus_values_In _)) as Hok.
  unfold blend_ok in Hok. unfold total_score in H.
  destruct (weighted_blend i sg sz al (bonus sem)) as [f|] eqn:Hf; [|discriminate].
  apply andb_true_iff in Hok as [Hge Hr].
  cbn [mbind option_bind] in H.
  destruct (Py.round f) as [r|] eqn:Hround; [|discriminate].
  cbn [mbind option_bind] in H.
  apply Z.leb_le in Hr.
  destruct (determine_tier _ _ _ _) as [tier tier_reason].
  assert (Hz : (Z.min 100 r =? 0)%Z = false) by (apply Z.eqb_neq; lia).
  rewrite Hz in H. injection H as <-.
  exists cap, i, sz, f, r.
  cbn [Match.score Match.reasons Match.demand
    Match.supply Match.need_profile Match.capability_profile].
  repeat (split; [first [eassumption | reflexivity]|]).
  split; [|repeat split].
  rewrite !in_app_iff. intros [[[[[H|H]|H]|H]|H]|H]; revert H.
  - apply when_not_In. discriminate.
  - apply when_not_In. discriminate.
  - apply when_not_In. discriminate.
  - match goal with |- In _ (if ?c then _ else _) -> _ => destruct c end.
    + cbn [In]. intros [H|[]]. exact (alignment_reason_not_exploratory _ _ H).
    + apply when_not_In. discriminate.
  - match goal with |- In _ (if ?c then _ else _) -> _ => destruct c end.
    + cbn [In]. intros [H|[]]. discriminate H.
    + apply when_not_In. discriminate.
  - simpl. tauto.
Qed.


(** ** The stable descending sort *)

Section Sort.
Context {A : Type} (key : A -> Z).

Lemma insert_desc_perm x l : insert_desc key x l ≡ₚ x :: l.
Proof.
  induction l as [|y l IH]; simpl; [reflexivity|].
  destruct (key x <? key y)%Z; [|reflexivity].
  rewrite IH. apply Permutation_swap.
Qed.

Lemma sort_desc_perm l : sort_desc key l ≡ₚ l.
Proof.
  induction l as [|x l IH]; simpl; [reflexivity|].
  rewrite insert_desc_perm. by rewrite IH.
Qed.

Lemma insert_desc_descending x l :
  descending key l -> descending key (insert_desc key x l).
Proof.
  unfold descending. induction 1 as [|y l Hl IH Hy]; simpl.
  - repeat constructor.
  - destruct (key x <? key y)%Z eqn:Hlt.
    + apply Z.ltb_lt in Hlt. constructor; [exact IH|].
      rewrite insert_desc_perm. constructor; [lia | exact Hy].
    + apply Z.ltb_ge in Hlt. constructor; [by constructor|].
      constructor; [exact Hlt|].
      eapply Forall_impl; [exact Hy|]. intros z Hz. simpl in Hz. lia.
Qed.

Lemma sort_desc_descending l : descending key (sort_desc key l).
Proof.
  induction l as [|x l IH]; simpl; [constructor|].
  by apply insert_desc_descending.
Qed.

Lemma descending_lookup l i j a b :
  descending key l -> (i < j)%nat -> l !! i = Some a -> l !! j = Some b ->
  (key b <= key a)%Z.
Proof.
  intros Hl. revert i j. induction Hl as [|x l Hl IH Hx]; intros i j Hij Hi Hj.
  - by rewrite lookup_nil in Hi.
  - destruct j as [|j]; [lia|]. destruct i as [|i]; simpl in *.
    + injection Hi as ->. rewrite Forall_forall in Hx.
      apply Hx. eapply list_elem_of_lookup_2. exact Hj.
    + apply (IH i j); [lia | done | done].
Qed.

Lemma descending_sublist l k : sublist k l -> descending key l -> descending key k.
Proof.
  intros Hsub Hl. revert k Hsub.
  induction Hl as [|x l Hl IH Hx]; intros k Hsub.
  - apply sublist_nil_r in Hsub as ->. constructor.
  - apply sublist_cons_r in Hsub as [Hsub|(k' & -> & Hsub)].
    + by apply IH.
    + constructor; [by apply IH|].
      eapply Forall_forall. intros y Hy. rewrite Forall_forall in Hx.
      apply Hx. eapply sublist_subseteq; eauto.
Qed.

End Sort.

(** ** The binary64 quotient of two integers and its rounding *)

Section Rounding.

Local Open Scope Z_scope.


Lemma round_half_even_nearest a b :
  0 < b -> nearest_even a b (Py.round_half_even a b).
Proof.
  intros Hb. unfold Py.round_half_even, nearest_even.
  pose proof (Z.div_mod a b ltac:(lia)) as Hdm.
  pose proof (Z.mod_pos_bound a b Hb) as Hr.
  set (q := a / b) in *. set (r := a mod b) in *.
  destruct (Z.compare_spec (2 * r) b) as [He|Hl|Hg].
  - destruct (Z.even q) eqn:Hq.
    + right. split; [right; lia | exact Hq].
    + right. split; [left; lia|].
      rewrite Z.even_add, Hq. reflexivity.
  - left. lia.
  - left. lia.
Qed.

Lemma nearest_even_unique a b z1 z2 :
  0 < b -> nearest_even a b z1 -> nearest_even a b z2 -> z1 = z2.
Proof.
  intros Hb H1 H2. unfold nearest_even in *.
  destruct (Z.lt_trichotomy z1 z2) as [Hlt|[Heq|Hgt]]; [|exact Heq|].
  - assert (z2 = z1 + 1 \/ z1 + 2 <= z2) as [->|Hfar] by lia.
    + destruct H1 as [H1|[H1 E1]], H2 as [H2|[H2 E2]]; try nia.
      rewrite Z.even_add, E1 in E2. discriminate.
    + exfalso. destruct H1 as [H1|[H1 E1]], H2 as [H2|[H2 E2]]; nia.
  - assert (z1 = z2 + 1 \/ z2 + 2 <= z1) as [->|Hfar] by lia.
    + destruct H1 as [H1|[H1 E1]], H2 as [H2|[H2 E2]]; try nia.
      rewrite Z.even_add, E2 in E1. discriminate.
    + exfalso. destruct H1 as [H1|[H1 E1]], H2 as [H2|[H2 E2]]; nia.
Qed.

Lemma round_half_even_unique a b z :
  0 < b -> nearest_even a b z -> Py.round_half_even a b = z.
Proof.
  intros Hb Hz. eapply nearest_even_unique; eauto using round_half_even_nearest.
Qed.

Lemma nearest_even_exact n m v :
  0 < n -> nearest_even (n * v) n m -> m = v.
Proof.
  intros Hn [H|[[H|H] _]].
  - assert (n * (2 * m - 1) < n * (2 * v) < n * (2 * m + 1)) as [H1 H2] by lia.
    apply Z.mul_lt_mono_pos_l in H1, H2; lia.
  - exfalso. assert (n * (2 * v - 2 * m + 1) = n * 0) as H0 by lia.
    apply Z.mul_reg_l in H0; lia.
  - exfalso. assert (n * (2 * v - 2 * m - 1) = n * 0) as H0 by lia.
    apply Z.mul_reg_l in H0; lia.
Qed.

(** Rounding to a multiple of [1/p] first does not change the integer that
    a fraction of denominator [n < p] rounds to, [p] being even. *)
Lemma round_half_even_twice s n p :
  0 <= s -> 0 < n -> n < p -> Z.even p = true ->
  Py.round_half_even (Py.round_half_even (s * p) n) p = Py.round_half_even s n.
Proof.
  intros Hs Hn Hp Heven.
  apply round_half_even_unique; [lia|].
  pose proof (round_half_even_nearest s n Hn) as HR.
  pose proof (round_half_even_nearest (s * p) n Hn) as HM.
  generalize dependent (Py.round_half_even s n). intros R HR.
  generalize dependent (Py.round_half_even (s * p) n). intros M HM.
  apply Z.even_spec in Heven as [h Hh].
  destruct HR as [HR|[HR ER]].
  - left.
    assert (n * (2 * R - 1) + 1 <= 2 * s) as Hlo by lia.
    assert (2 * s + 1 <= n * (2 * R + 1)) as Hhi by lia.
    assert (2 * (s * p) - n <= 2 * n * M <= 2 * (s * p) + n) as [HM1 HM2]
      by (destruct HM as [HM|[HM _]]; lia).
    assert (p * (n * (2 * R - 1) + 1) <= p * (2 * s)) as Hlo'
      by (apply Z.mul_le_mono_nonneg_l; lia).
    assert (p * (2 * s + 1) <= p * (n * (2 * R + 1))) as Hhi'
      by (apply Z.mul_le_mono_nonneg_l; lia).
    assert (n * (p * (2 * R - 1)) < n * (2 * M)) as H1 by lia.
    assert (n * (2 * M) < n * (p * (2 * R + 1))) as H2 by lia.
    apply Z.mul_lt_mono_pos_l in H1, H2; lia.
  - right. split; [|exact ER].
    destruct HR as [HR|HR].
    + left. assert (M = h * (2 * R - 1)) as ->; [|lia].
      apply (nearest_even_exact n); [lia|].
      replace (n * (h * (2 * R - 1))) with (s * p) by (subst p; lia). exact HM.
    + right. assert (M = h * (2 * R + 1)) as ->; [|lia].
      apply (nearest_even_exact n); [lia|].
      replace (n * (h * (2 * R + 1))) with (s * p) by (subst p; lia). exact HM.
Qed.

Lemma digits2_pos_bounds p :
  2 ^ (Zpos (digits2_pos p) - 1) <= Zpos p < 2 ^ Zpos (digits2_pos p).
Proof.
  induction p as [p IH|p IH|]; cbn [digits2_pos].
  - rewrite Pos2Z.inj_succ, Z.pow_succ_r by lia.
    replace (Z.succ (Zpos (digits2_pos p)) - 1) with (Z.succ (Zpos (digits2_pos p) - 1)) by lia.
    rewrite Z.pow_succ_r by lia. lia.
  - rewrite Pos2Z.inj_succ, Z.pow_succ_r by lia.
    replace (Z.succ (Zpos (digits2_pos p)) - 1) with (Z.succ (Zpos (digits2_pos p) - 1)) by lia.
    rewrite Z.pow_succ_r by lia. lia.
  - simpl. lia.
Qed.

Lemma digits2_pos_unique p d :
  2 ^ (d - 1) <= Zpos p < 2 ^ d -> Zpos (digits2_pos p) = d.
Proof.
  intros [Hlo Hhi]. pose proof (digits2_pos_bounds p) as [Blo Bhi].
  assert (0 < d).
  { destruct (Z.lt_ge_cases 0 d) as [|Hd]; [done|].
    exfalso. assert (2 ^ d <= 2 ^ 0) by (apply Z.pow_le_mono_r; lia). simpl in *. lia. }
  destruct (Z.lt_trichotomy (Zpos (digits2_pos p)) d) as [Hlt|[Heq|Hgt]]; [|done|].
  - exfalso. assert (2 ^ Zpos (digits2_pos p) <= 2 ^ (d - 1)) by (apply Z.pow_le_mono_r; lia). lia.
  - exfalso. assert (2 ^ d <= 2 ^ (Zpos (digits2_pos p) - 1)) by (apply Z.pow_le_mono_r; lia). lia.
Qed.

Lemma Zdigits2_unique m d :
  0 < m -> 2 ^ (d - 1) <= m < 2 ^ d -> Zdigits2 m = d.
Proof.
  intros Hm Hd. destruct m as [|p|p]; try lia. cbn [Zdigits2].
  by apply digits2_pos_unique.
Qed.

Lemma shr_fexp_53 m e l :
  2 ^ 52 <= m < 2 ^ 53 -> -1074 <= e ->
  shr_fexp Py.prec Py.emax m e l = (shr_record_of_loc m l, e).
Proof.
  intros Hm He. unfold shr_fexp.
  rewrite (Zdigits2_unique m 53) by (simpl; lia).
  unfold fexp, emin, Py.prec, Py.emax.
  replace (Z.max (53 + e - 53) (3 - 1024 - 53) - e) with 0 by lia.
  reflexivity.
Qed.

Lemma shr_fexp_54 m e l :
  2 ^ 53 <= m < 2 ^ 54 -> -1075 <= e ->
  shr_fexp Py.prec Py.emax m e l = (shr_1 (shr_record_of_loc m l), e + 1).
Proof.
  intros Hm He. unfold shr_fexp.
  rewrite (Zdigits2_unique m 54) by (simpl; lia).
  unfold fexp, emin, Py.prec, Py.emax.
  replace (Z.max (54 + e - 53) (3 - 1024 - 53) - e) with 1 by lia.
  reflexivity.
Qed.

Lemma shr_m_of_loc m l : shr_m (shr_record_of_loc m l) = m.
Proof. destruct l as [|[]]; reflexivity. Qed.

Lemma loc_of_shr_record_of_loc m l : loc_of_shr_record (shr_record_of_loc m l) = l.
Proof. destruct l as [|[]]; reflexivity. Qed.

Lemma new_location_spec n r :
  0 < n -> 0 <= r < n -> new_location n r = location_of n r.
Proof.
  intros Hn Hr. unfold new_location, new_location_even, new_location_odd, location_of.
  destruct (Z.even n) eqn:Hev; [reflexivity|].
  destruct (r =? 0); [reflexivity|]. f_equal.
  assert (Z.odd n = true) as Hodd by (rewrite <- Z.negb_even, Hev; reflexivity).
  apply Z.odd_spec in Hodd as [k Hk].
  destruct (Z.compare_spec (2 * r + 1) n), (Z.compare_spec (2 * r) n); try reflexivity; lia.
Qed.

Lemma round_nearest_even_location a n :
  0 < n -> round_nearest_even (a / n) (location_of n (a mod n)) = Py.round_half_even a n.
Proof.
  intros Hn. unfold location_of, Py.round_half_even, round_nearest_even.
  pose proof (Z.mod_pos_bound a n Hn) as Hr.
  destruct (Z.eqb_spec (a mod n) 0) as [H0|H0].
  - destruct (Z.compare_spec (2 * (a mod n)) n); try reflexivity; lia.
  - destruct (2 * (a mod n) ?= n); reflexivity.
Qed.

Lemma round_half_even_scale k a b :
  0 < k -> 0 < b -> Py.round_half_even (k * a) (k * b) = Py.round_half_even a b.
Proof.
  intros Hk Hb. apply round_half_even_unique; [lia|].
  pose proof (round_half_even_nearest a b Hb) as H.
  generalize dependent (Py.round_half_even a b). intros z H.
  destruct H as [[H1 H2]|[[H|H] E]].
  - left. split.
    + assert (k * (2 * b * z - b) < k * (2 * a)) by (apply Z.mul_lt_mono_pos_l; lia). lia.
    + assert (k * (2 * a) < k * (2 * b * z + b)) by (apply Z.mul_lt_mono_pos_l; lia). lia.
  - right. split; [left|exact E].
    assert (k * (2 * a) = k * (2 * b * z - b)) by (f_equal; exact H). lia.
  - right. split; [right|exact E].
    assert (k * (2 * a) = k * (2 * b * z + b)) by (f_equal; exact H). lia.
Qed.

Lemma round_half_even_bounds a n :
  0 < n -> a / n <= Py.round_half_even a n <= a / n + 1.
Proof.
  intros Hn. unfold Py.round_half_even.
  destruct (2 * (a mod n) ?= n); [destruct (Z.even (a / n))| |]; lia.
Qed.

Lemma round_finite_neg m e :
  e < 0 -> Py.round (S754_finite false m e) = Some (Py.round_half_even (Zpos m) (2 ^ (- e))).
Proof. intros He. destruct e as [|p|p]; try lia. reflexivity. Qed.

(** The second shift of [binary_round_aux], after the rounding. *)
Lemma binary_round_finish M e :
  2 ^ 52 <= M <= 2 ^ 53 -> -53 <= e <= -45 ->
  exists m e',
    (let '(mrs, e'') := shr_fexp Py.prec Py.emax M e loc_Exact in
     match shr_m mrs with
     | Z0 => S754_zero false
     | Zpos m => if e'' <=? Py.emax - Py.prec then S754_finite false m e''
                 else S754_infinity false
     | Zneg _ => S754_nan
     end) = S754_finite false m e'
    /\ e' < 0
    /\ Py.round_half_even (Zpos m) (2 ^ (- e')) = Py.round_half_even M (2 ^ (- e)).
Proof.
  intros HM He.
  destruct (Z.lt_ge_cases M (2 ^ 53)) as [Hlt|Hge].
  - rewrite shr_fexp_53 by lia. cbn [shr_record_of_loc shr_m].
    destruct M as [|m|m]; try lia.
    exists m, e. replace (e <=? Py.emax - Py.prec) with true
      by (symmetry; apply Z.leb_le; unfold Py.emax, Py.prec; lia).
    split; [reflexivity|]. split; [lia|reflexivity].
  - assert (M = 2 ^ 53) as -> by lia.
    rewrite shr_fexp_54 by lia.
    exists (Z.to_pos (2 ^ 52)), (e + 1).
    replace (e + 1 <=? Py.emax - Py.prec) with true
      by (symmetry; apply Z.leb_le; unfold Py.emax, Py.prec; lia).
    split; [reflexivity|]. split; [lia|].
    change (Zpos (Z.to_pos (2 ^ 52))) with (2 ^ 52).
    replace (2 ^ 53) with (2 * 2 ^ 52) by reflexivity.
    replace (2 ^ (- e)) with (2 * 2 ^ (- (e + 1))).
    + symmetry. apply round_half_even_scale; [lia|]. apply Z.pow_pos_nonneg; lia.
    + rewrite <- Z.pow_succ_r by lia. f_equal. lia.
Qed.

(** Halving the quotient of [2 * a] by [n] and its location gives the
    quotient of [a] by [n] and its location. *)
Lemma shr_1_location a n :
  0 < n -> 2 <= (2 * a) / n ->
  shr_1 (shr_record_of_loc ((2 * a) / n) (location_of n ((2 * a) mod n)))
  = shr_record_of_loc (a / n) (location_of n (a mod n)).
Proof.
  intros Hn Hq.
  pose proof (Z.div_mod a n ltac:(lia)) as Ha.
  pose proof (Z.mod_pos_bound a n Hn) as Hr.
  set (p := a / n) in *. set (r := a mod n) in *.
  destruct (Z.lt_ge_cases (2 * r) n) as [Hlt|Hge].
  - assert ((2 * a) / n = 2 * p) as Hquo
      by (symmetry; apply (Z.div_unique _ _ _ (2 * r)); lia).
    assert ((2 * a) mod n = 2 * r) as Hrem
      by (symmetry; apply (Z.mod_unique _ _ (2 * p)); lia).
    rewrite Hquo in *. rewrite Hrem.
    assert (0 < p) by lia. destruct p as [|pp|pp]; try lia.
    unfold location_of.
    destruct (Z.eqb_spec r 0) as [->|Hr0].
    + reflexivity.
    + replace (2 * r =? 0) with false by (symmetry; apply Z.eqb_neq; lia).
      replace (2 * r ?= n) with Lt by (symmetry; apply Z.compare_lt_iff; lia).
      destruct (2 * (2 * r) ?= n); reflexivity.
  - assert ((2 * a) / n = 2 * p + 1) as Hquo
      by (symmetry; apply (Z.div_unique _ _ _ (2 * r - n)); lia).
    assert ((2 * a) mod n = 2 * r - n) as Hrem
      by (symmetry; apply (Z.mod_unique _ _ (2 * p + 1)); lia).
    rewrite Hquo in *. rewrite Hrem.
    assert (0 < p) by lia. destruct p as [|pp|pp]; try lia.
    unfold location_of.
    destruct (Z.eqb_spec r 0) as [Hr0|_]; [lia|].
    destruct (Z.eqb_spec (2 * r - n) 0) as [H0|H0].
    + replace (2 * r ?= n) with Eq by (symmetry; apply Z.compare_eq_iff; lia).
      reflexivity.
    + replace (2 * r ?= n) with Gt by (symmetry; apply Z.compare_gt_iff; lia).
      destruct (2 * (2 * r - n) ?= n); reflexivity.
Qed.

Lemma SFdiv_core_int ps pn s :
  s = 53 - (Zpos (digits2_pos ps) - Zpos (digits2_pos pn)) -> 0 < s <= 1074 ->
  SFdiv_core_binary Py.prec Py.emax (Zpos ps) 0 (Zpos pn) 0
  = ((Zpos ps * 2 ^ s) / Zpos pn, - s,
     new_location (Zpos pn) ((Zpos ps * 2 ^ s) mod Zpos pn)).
Proof.
  intros Hs Hpos. unfold SFdiv_core_binary, fexp, emin, Py.prec, Py.emax.
  cbn [Zdigits2].
  replace (Z.min (Z.max (Zpos (digits2_pos ps) + 0 - (Zpos (digits2_pos pn) + 0) - 53)
                    (3 - 1024 - 53)) (0 - 0)) with (- s) by lia.
  replace (0 - 0 - - s) with s by lia.
  destruct s as [|p|p]; try lia.
  rewrite Z.shiftl_mul_pow2 by lia.
  change IntDef.Z.div_eucl with Z.div_eucl.
  unfold Z.div, Z.modulo.
  destruct (Z.div_eucl (Zpos ps * 2 ^ Zpos p) (Zpos pn)) as [q r]. reflexivity.
Qed.

Lemma binary_round_div S n s :
  0 < n -> 0 < S -> 46 <= s <= 53 -> 2 ^ 52 <= (S * 2 ^ s) / n < 2 ^ 54 ->
  exists m e F,
    binary_round_aux Py.prec Py.emax false ((S * 2 ^ s) / n) (- s)
      (new_location n ((S * 2 ^ s) mod n)) = S754_finite false m e
    /\ e < 0 /\ 45 <= F <= 53
    /\ Py.round_half_even (Zpos m) (2 ^ (- e))
       = Py.round_half_even (Py.round_half_even (S * 2 ^ F) n) (2 ^ F).
Proof.
  intros Hn HS Hs Hq. unfold binary_round_aux.
  rewrite new_location_spec by (try apply Z.mod_pos_bound; lia).
  destruct (Z.lt_ge_cases ((S * 2 ^ s) / n) (2 ^ 53)) as [Hlt|Hge].
  - rewrite shr_fexp_53 by lia. cbv beta iota zeta.
    rewrite shr_m_of_loc, loc_of_shr_record_of_loc, round_nearest_even_location by lia.
    pose proof (round_half_even_bounds (S * 2 ^ s) n Hn) as HM.
    destruct (binary_round_finish (Py.round_half_even (S * 2 ^ s) n) (- s))
      as (m & e & Hfin & He & Hval); [lia|lia|].
    exists m, e, s. rewrite Hfin, Hval, Z.opp_involutive.
    repeat split; lia.
  - rewrite shr_fexp_54 by lia. cbv beta iota zeta.
    assert (S * 2 ^ s = 2 * (S * 2 ^ (s - 1))) as Ha.
    { replace s with (Z.succ (s - 1)) at 1 by lia. rewrite Z.pow_succ_r by lia. lia. }
    rewrite Ha in *.
    rewrite shr_1_location by lia.
    rewrite shr_m_of_loc, loc_of_shr_record_of_loc, round_nearest_even_location by lia.
    pose proof (round_half_even_bounds (S * 2 ^ (s - 1)) n Hn) as HM.
    assert ((S * 2 ^ (s - 1)) / n = (2 * (S * 2 ^ (s - 1))) / n / 2) as Hhalf.
    { rewrite Z.div_div by lia. rewrite (Z.mul_comm n 2).
      rewrite Z.div_mul_cancel_l by lia. reflexivity. }
    assert (2 ^ 52 <= (S * 2 ^ (s - 1)) / n < 2 ^ 53) as Hq2.
    { rewrite Hhalf. split.
      - apply Z.div_le_lower_bound; lia.
      - apply Z.div_lt_upper_bound; lia. }
    destruct (binary_round_finish (Py.round_half_even (S * 2 ^ (s - 1)) n) (- s + 1))
      as (m & e & Hfin & He & Hval); [lia|lia|].
    exists m, e, (s - 1). rewrite Hfin, Hval.
    replace (- (- s + 1)) with (s - 1) by lia.
    repeat split; lia.
Qed.

Lemma int_true_div_round S n :
  0 < n -> n <= S -> S < 128 * n -> n < 2 ^ 45 ->
  exists q, Py.int_true_div S n = Some q
            /\ Py.round q = Some (Py.round_half_even S n).
Proof.
  intros Hpos Hle Hlt Hn.
  destruct n as [|pn|pn]; try lia. destruct S as [|ps|ps]; try lia.
  pose proof (digits2_pos_bounds ps) as [Hs1 Hs2].
  pose proof (digits2_pos_bounds pn) as [Hn1 Hn2].
  set (d1 := Zpos (digits2_pos ps)) in *. set (d2 := Zpos (digits2_pos pn)) in *.
  assert (0 < d1 /\ 0 < d2) as [Hd1 Hd2] by (unfold d1, d2; lia).
  assert (d2 <= d1) as HD1.
  { destruct (Z.le_gt_cases d2 d1) as [|Hgt]; [done|]. exfalso.
    assert (2 ^ d1 <= 2 ^ (d2 - 1)) by (apply Z.pow_le_mono_r; lia). lia. }
  assert (d1 <= d2 + 7) as HD2.
  { destruct (Z.le_gt_cases d1 (d2 + 7)) as [|Hgt]; [done|]. exfalso.
    assert (2 ^ (d2 + 7) <= 2 ^ (d1 - 1)) by (apply Z.pow_le_mono_r; lia).
    rewrite Z.pow_add_r in * by lia. change (2 ^ 7) with 128 in *. lia. }
  set (s := 53 - (d1 - d2)).
  change (Py.int_true_div (Zpos ps) (Zpos pn))
    with (let q := SFdiv Py.prec Py.emax (S754_finite false ps 0) (S754_finite false pn 0) in
          if Py.is_finite q then Some q else None).
  unfold SFdiv. rewrite (SFdiv_core_int ps pn s) by (unfold s, d1, d2; lia).
  cbn [xorb].
  assert (2 ^ 52 <= (Zpos ps * 2 ^ s) / Zpos pn < 2 ^ 54) as Hq.
  { assert (2 ^ (d1 - 1) * 2 ^ s = 2 ^ 52 * 2 ^ d2) as E1
      by (rewrite <- !Z.pow_add_r by lia; f_equal; lia).
    assert (2 ^ d1 * 2 ^ s = 2 ^ 54 * 2 ^ (d2 - 1)) as E2
      by (rewrite <- !Z.pow_add_r by lia; f_equal; lia).
    assert (0 < 2 ^ s) as Hps by (apply Z.pow_pos_nonneg; lia).
    split.
    - apply Z.div_le_lower_bound; [lia|]. nia.
    - apply Z.div_lt_upper_bound; [lia|]. nia. }
  destruct (binary_round_div (Zpos ps) (Zpos pn) s) as (m & e & F & Hfin & He & HF & Hval);
    [lia | lia | lia | exact Hq |].
  rewrite Hfin. cbv zeta. cbn [Py.is_finite].
  eexists. split; [reflexivity|].
  rewrite round_finite_neg by exact He. f_equal. rewrite Hval.
  apply round_half_even_twice; [lia | lia | | ].
  - assert (2 ^ 45 <= 2 ^ F) by (apply Z.pow_le_mono_r; lia). lia.
  - replace F with (Z.succ (F - 1)) by lia. rewrite Z.pow_succ_r by lia.
    rewrite Z.even_mul. reflexivity.
Qed.

End Rounding.

(** ** The pairs that pass the threshold *)

Lemma score_against_spec lim d supply min_score acc l :
  score_against lim d supply min_score acc = Some l ->
  l = acc ++ filter (fun m => (min_score <= Match.score m)%Z)
               (omap id (map (score_match lim d) supply)).
Proof.
  revert acc. induction supply as [|s supply IH]; intros acc H; simpl in H.
  - injection H as <-. by rewrite app_nil_r.
  - destruct (score_match lim d s) as [m|] eqn:Hm; [|discriminate].
    cbn [mbind option_bind] in H. apply IH in H as ->.
    cbn [map omap list_omap]. rewrite Hm. cbn [id].
    rewrite filter_cons. destruct (Z.leb_spec min_score (Match.score m)).
    + rewrite decide_True by done. by rewrite <- app_assoc.
    + rewrite decide_False by lia. done.
Qed.

Lemma score_pairs_spec lim demand supply min_score acc l :
  score_pairs lim demand supply min_score acc = Some l ->
  l = acc ++ passing_matches lim demand supply min_score.
Proof.
  unfold passing_matches, scored_pairs.
  revert acc. induction demand as [|d demand IH]; intros acc H; simpl in H.
  - injection H as <-. by rewrite app_nil_r.
  - destruct (score_against lim d supply min_score acc) as [acc'|] eqn:Hd; [|discriminate].
    cbn [mbind option_bind] in H. apply IH in H as ->.
    apply score_against_spec in Hd as ->.
    cbn [flat_map]. rewrite omap_app, filter_app. by rewrite <- app_assoc.
Qed.

Lemma elem_of_passing_matches lim demand supply min_score m :
  m ∈ passing_matches lim demand supply min_score <->
  exists d s, d ∈ demand /\ s ∈ supply /\ score_match lim d s = Some m
              /\ (min_score <= Match.score m)%Z.
Proof.
  unfold passing_matches, scored_pairs.
  rewrite list_elem_of_filter, list_elem_of_omap. split.
  - intros (Hmin & o & Ho & Hid). unfold id in Hid. subst o.
    apply list_elem_of_In, in_flat_map in Ho as (d & Hd & Hin).
    apply in_map_iff in Hin as (s & Hs & Hin).
    exists d, s. by rewrite <- !list_elem_of_In in *.
  - intros (d & s & Hd & Hs & Hm & Hmin). split; [done|].
    exists (Some m). split; [|done].
    apply list_elem_of_In, in_flat_map. exists d. split; [by apply list_elem_of_In|].
    apply in_map_iff. exists s. split; [done | by apply list_elem_of_In].
Qed.


(** ** The best match of each demand *)

Lemma best_match_loop_firsts ms seen res :
  best_match_loop ms seen res = res ++ firsts seen ms.
Proof.
  revert seen res. induction ms as [|m ms IH]; intros seen res; simpl.
  - by rewrite app_nil_r.
  - fold (demand_key m). destruct (bool_decide _); rewrite IH; [done|].
    by rewrite <- app_assoc.
Qed.

Lemma firsts_sublist seen ms : firsts seen ms `sublist_of` ms.
Proof.
  revert seen. induction ms as [|m ms IH]; intros seen; simpl; [done|].
  destruct (bool_decide _); [by apply sublist_cons | by apply sublist_skip].
Qed.

Lemma firsts_fresh seen ms m : m ∈ firsts seen ms -> demand_key m ∉ seen.
Proof.
  revert seen. induction ms as [|x ms IH]; intros seen; simpl.
  - by rewrite elem_of_nil.
  - case_bool_decide as Hx; [by apply IH|].
    rewrite elem_of_cons. intros [->|Hm]; [done|].
    apply IH in Hm. set_solver.
Qed.

Lemma firsts_NoDup seen ms : NoDup (demand_key <$> firsts seen ms).
Proof.
  revert seen. induction ms as [|x ms IH]; intros seen; simpl; [constructor|].
  case_bool_decide as Hx; [by apply IH|].
  rewrite fmap_cons. constructor; [|by apply IH].
  rewrite list_elem_of_fmap. intros (m & Hk & Hm).
  apply firsts_fresh in Hm. set_solver.
Qed.

Lemma firsts_cover seen ms m :
  m ∈ ms -> demand_key m ∉ seen -> demand_key m ∈ demand_key <$> firsts seen ms.
Proof.
  revert seen. induction ms as [|x ms IH]; intros seen; simpl.
  - by rewrite elem_of_nil.
  - rewrite elem_of_cons. intros Hm Hfresh. case_bool_decide as Hx.
    + destruct Hm as [->|Hm]; [done | by apply IH].
    + rewrite fmap_cons, elem_of_cons.
      destruct (decide (demand_key m = demand_key x)) as [|Hne]; [by left|right].
      destruct Hm as [->|Hm]; [done|]. apply IH; [done|].
      rewrite elem_of_union, elem_of_singleton. tauto.
Qed.

Lemma firsts_max seen ms m m' :
  descending Match.score ms -> m ∈ firsts seen ms -> m' ∈ ms ->
  demand_key m' = demand_key m -> (Match.score m' <= Match.score m)%Z.
Proof.
  intros Hms. revert seen.
  induction Hms as [|x ms Hms IH Hx]; intros seen; simpl.
  - by rewrite elem_of_nil.
  - rewrite Forall_forall in Hx. case_bool_decide as Hseen.
    + intros Hm. rewrite elem_of_cons. intros [->|Hm'] Hk.
      * apply firsts_fresh in Hm. congruence.
      * by apply (IH seen).
    + rewrite !elem_of_cons. intros [->|Hm] [->|Hm'] Hk.
      * lia.
      * by apply Hx.
      * apply firsts_fresh in Hm. set_solver.
      * by apply (IH ({[demand_key x]} ∪ seen)).
Qed.

(** ** Aggregation by supply *)

Lemma by_supply_add_groups matches key m by_supply :
  m ∈ matches -> groups_of matches by_supply ->
  groups_of matches (by_supply_add key m by_supply).
Proof.
  intros Hm. unfold groups_of.
  induction 1 as [|[k ms] rest [Hne Hsub] Hrest IH]; simpl.
  - constructor; [|constructor]. simpl. split; [done|].
    intros y Hy. by apply list_elem_of_singleton in Hy as ->.
  - destruct (String.eqb k key).
    + constructor; [|done]. simpl in *. split.
      2:{ intros y Hy. apply elem_of_app in Hy as [Hy|Hy]; [by apply Hsub|].
          by apply list_elem_of_singleton in Hy as ->. }
      intros Happ. by apply app_eq_nil in Happ as [_ ?].
    + by constructor.
Qed.

Lemma group_by_supply_groups matches : groups_of matches (group_by_supply matches).
Proof.
  unfold group_by_supply.
  set (step := fun by_supply m => by_supply_add (get_supply_key (Match.supply m)) m by_supply).
  assert (forall todo by_supply,
            todo ⊆ matches -> groups_of matches by_supply ->
            groups_of matches (fold_left step todo by_supply)) as Hloop.
  { intros todo. induction todo as [|m todo IH]; intros by_supply Hsub Hg; simpl; [done|].
    apply IH; [set_solver|]. apply by_supply_add_groups; [set_solver | done]. }
  apply (Hloop matches []); [done | constructor].
Qed.

Lemma aggregate_group_Some ms :
  ms <> [] -> is_Some (aggregate_group ms).
Proof.
  intros Hne. unfold aggregate_group.
  destruct (sort_desc Match.score ms) as [|b rest] eqn:Hs.
  - pose proof (sort_desc_perm Match.score ms) as Hp. rewrite Hs in Hp.
    apply Permutation_nil_l in Hp. congruence.
  - simpl. eauto.
Qed.

Lemma aggregate_group_inv ms a :
  aggregate_group ms = Some a ->
  Aggregate.matches a = sort_desc Match.score ms /\
  Aggregate.total_matches a = size (unique_demand_keys (Aggregate.matches a)) /\
  head (Aggregate.matches a) = Some (Aggregate.best_match a) /\
  Aggregate.supply a = Match.supply (Aggregate.best_match a).
Proof.
  unfold aggregate_group.
  destruct (sort_desc Match.score ms) as [|b rest] eqn:Hs; [discriminate|].
  simpl. intros [= <-]. simpl. done.
Qed.

(** [aggregate_by_supply] does not raise. *)
Lemma aggregate_by_supply_total matches : is_Some (aggregate_by_supply matches).
Proof.
  unfold aggregate_by_supply.
  destruct (mapM _ (group_by_supply matches)) as [aggs|] eqn:Hm; [simpl; eauto|].
  exfalso. apply mapM_None in Hm. apply Exists_exists in Hm as ([k ms] & Hin & Hnone).
  pose proof (group_by_supply_groups matches) as Hg.
  unfold groups_of in Hg. rewrite Forall_forall in Hg.
  apply Hg in Hin as [Hne _]. simpl in *.
  apply aggregate_group_Some in Hne as [a Ha]. congruence.
Qed.

Lemma aggregate_by_supply_inv matches aggs a :
  aggregate_by_supply matches = Some aggs -> a ∈ aggs ->
  Aggregate.matches a ⊆ matches /\
  descending Match.score (Aggregate.matches a) /\
  Aggregate.total_matches a = size (unique_demand_keys (Aggregate.matches a)) /\
  head (Aggregate.matches a) = Some (Aggregate.best_match a).
Proof.
  unfold aggregate_by_supply. intros H Ha.
  destruct (mapM _ (group_by_supply matches)) as [raw|] eqn:Hm; [|discriminate].
  simpl in H. injection H as <-.
  rewrite sort_desc_perm in Ha.
  apply mapM_Some in Hm.
  apply list_elem_of_lookup in Ha as [i Hi].
  destruct (Forall2_lookup_r _ _ _ _ _ Hm Hi) as ([k ms] & Hg & Hagg).
  simpl in Hagg. apply aggregate_group_inv in Hagg as (Hmatches & Htotal & Hbest & _).
  pose proof (group_by_supply_groups matches) as Hgroups.
  unfold groups_of in Hgroups. rewrite Forall_forall in Hgroups.
  apply list_elem_of_lookup_2, Hgroups in Hg as [_ Hsub]. simpl in Hsub.
  repeat split; try done.
  - rewrite Hmatches. intros x Hx. rewrite sort_desc_perm in Hx. by apply Hsub.
  - rewrite Hmatches. apply sort_desc_descending.
Qed.

Lemma aggregate_by_supply_descending matches aggs :
  aggregate_by_supply matches = Some aggs ->
  descending (fun a => Z.of_nat (Aggregate.total_matches a)) aggs.
Proof.
  unfold aggregate_by_supply. intros H.
  destruct (mapM _ (group_by_supply matches)) as [raw|]; [|discriminate].
  simpl in H. injection H as <-. apply sort_desc_descending.
Qed.


(** ** [match_records] *)

Lemma match_records_inv lim demand supply min_score best_match_only r :
  match_records lim demand supply min_score best_match_only = Some r ->
  let all_matches :=
    sort_desc Match.score (passing_matches lim demand supply min_score) in
  MatchingResult.demand_matches r
  = (if best_match_only then get_best_match_per_demand all_matches else all_matches) /\
  aggregate_by_supply (MatchingResult.demand_matches r)
  = Some (MatchingResult.supply_aggregates r) /\
  average_score (Match.score <$> all_matches)
  = Some (Stats.avg_score (MatchingResult.stats r)).
Proof.
  unfold match_records. intros H.
  destruct (score_pairs lim demand supply min_score []) as [scored|] eqn:Hs; [|discriminate].
  apply score_pairs_spec in Hs. rewrite app_nil_l in Hs. subst scored.
  cbn [mbind option_bind] in H.
  destruct (aggregate_by_supply _) as [aggs|] eqn:Ha; [|discriminate].
  cbn [mbind option_bind] in H.
  destruct (average_score _) as [avg|] eqn:Hv; [|discriminate].
  cbn [mbind option_bind] in H. injection H as <-.
  cbn [MatchingResult.demand_matches MatchingResult.supply_aggregates
       MatchingResult.stats Stats.avg_score].
  done.
Qed.

Lemma get_best_match_per_demand_firsts ms :
  get_best_match_per_demand ms = firsts ∅ ms.
Proof. unfold get_best_match_per_demand. by rewrite best_match_loop_firsts. Qed.

Lemma demand_matches_subseteq lim demand supply min_score best_match_only r :
  match_records lim demand supply min_score best_match_only = Some r ->
  MatchingResult.demand_matches r ⊆ passing_matches lim demand supply min_score.
Proof.
  intros H. apply match_records_inv in H as (-> & _ & _).
  destruct best_match_only.
  - rewrite get_best_match_per_demand_firsts. intros m Hm.
    apply (sublist_subseteq _ _ (firsts_sublist _ _)) in Hm.
    by rewrite sort_desc_perm in Hm.
  - intros m Hm. by rewrite sort_desc_perm in Hm.
Qed.

Lemma demand_matches_descending lim demand supply min_score best_match_only r :
  match_records lim demand supply min_score best_match_only = Some r ->
  descending Match.score (MatchingResult.demand_matches r).
Proof.
  intros H. apply match_records_inv in H as (-> & _ & _).
  destruct best_match_only; [|apply sort_desc_descending].
  rewrite get_best_match_per_demand_firsts.
  eapply descending_sublist; [apply firsts_sublist | apply sort_desc_descending].
Qed.

Lemma passing_score_range lim demand supply min_score m :
  m ∈ passing_matches lim demand supply min_score ->
  (6 <= Match.score m <= 100)%Z.
Proof.
  rewrite elem_of_passing_matches. intros (d & s & _ & _ & Hm & _).
  apply score_match_inv in Hm
    as (cap & i & sz & f & r & _ & _ & _ & _ & _ & _ & Hr & -> & _).
  lia.
Qed.

(** C1. For every demand list, supply list and [min_score], in both output
    modes, every match that [match_records] returns, in [demand_matches]
    and in the [matches] and the [best_match] of every entry of
    [supply_aggregates], has a score between 1 and 100. *)
Theorem match_scores_in_range lim demand supply min_score best_match_only r :
  match_records lim demand supply min_score best_match_only = Some r ->
  (forall m, m ∈ MatchingResult.demand_matches r -> (1 <= Match.score m <= 100)%Z) /\
  (forall a m, a ∈ MatchingResult.supply_aggregates r ->
               m ∈ Aggregate.matches a \/ m = Aggregate.best_match a ->
               (1 <= Match.score m <= 100)%Z).
Proof.
  intros H.
  assert (forall m, m ∈ MatchingResult.demand_matches r ->
                    (1 <= Match.score m <= 100)%Z) as Hdm.
  { intros m Hm. apply (demand_matches_subseteq _ _ _ _ _ _ H) in Hm.
    apply passing_score_range in Hm. lia. }
  split; [exact Hdm|].
  intros a m Ha Hm. apply Hdm.
  apply match_records_inv in H as (_ & Hagg & _).
  destruct (aggregate_by_supply_inv _ _ _ Hagg Ha) as (Hsub & _ & _ & Hbest).
  apply Hsub. destruct Hm as [Hm| ->]; [done|].
  by apply head_Some_elem_of.
Qed.

(** C3. In both output modes the [demand_matches] that [match_records]
    returns are in non-increasing order of score, and the
    [supply_aggregates] in non-increasing order of [total_matches]. *)
Theorem results_sorted lim demand supply min_score best_match_only r :
  match_records lim demand supply min_score best_match_only = Some r ->
  (forall i j m1 m2,
      (i < j)%nat ->
      MatchingResult.demand_matches r !! i = Some m1 ->
      MatchingResult.demand_matches r !! j = Some m2 ->
      (Match.score m2 <= Match.score m1)%Z) /\
  (forall i j a1 a2,
      (i < j)%nat ->
      MatchingResult.supply_aggregates r !! i = Some a1 ->
      MatchingResult.supply_aggregates r !! j = Some a2 ->
      (Aggregate.total_matches a2 <= Aggregate.total_matches a1)%nat).
Proof.
  intros H. split.
  - intros i j m1 m2 Hij H1 H2.
    exact (descending_lookup _ _ _ _ _ _
             (demand_matches_descending _ _ _ _ _ _ H) Hij H1 H2).
  - intros i j a1 a2 Hij H1 H2.
    apply match_records_inv in H as (_ & Hagg & _).
    apply aggregate_by_supply_descending in Hagg.
    pose proof (descending_lookup _ _ _ _ _ _ Hagg Hij H1 H2) as Hle.
    cbv beta in Hle. lia.
Qed.

(** C2. With [best_match_only] set, [demand_matches] holds no two matches
    of the same demand key, it holds a match for a key exactly when a pair
    with that key passes the [min_score] filter, and each match it holds
    passes the filter and has the greatest score among the passing matches
    of its key. *)
Theorem best_match_only_one_per_demand lim demand supply min_score r :
  match_records lim demand supply min_score true = Some r ->
  let passing := passing_matches lim demand supply min_score in
  NoDup (demand_key <$> MatchingResult.demand_matches r) /\
  (forall k, k ∈ demand_key <$> passing <->
             k ∈ demand_key <$> MatchingResult.demand_matches r) /\
  (forall m, m ∈ MatchingResult.demand_matches r ->
     m ∈ passing /\
     forall m', m' ∈ passing -> demand_key m' = demand_key m ->
                (Match.score m' <= Match.score m)%Z).
Proof.
  intros H passing.
  pose proof (demand_matches_subseteq _ _ _ _ _ _ H) as Hsub.
  apply match_records_inv in H as (Hdm & _ & _).
  rewrite get_best_match_per_demand_firsts in Hdm. rewrite Hdm in *.
  split; [apply firsts_NoDup|]. split.
  - intros k. split.
    + rewrite list_elem_of_fmap. intros (m & -> & Hm).
      apply firsts_cover; [by rewrite sort_desc_perm | set_solver].
    + rewrite !list_elem_of_fmap. intros (m & -> & Hm). exists m. split; [done|].
      by apply Hsub.
  - intros m Hm. split; [by apply Hsub|].
    intros m' Hm' Hk.
    eapply firsts_max; [apply sort_desc_descending | exact Hm | | exact Hk].
    by rewrite sort_desc_perm.
Qed.

Lemma size_list_to_set_le (l : list string) :
  (size (list_to_set l : gset string) <= length l)%nat.
Proof.
  induction l as [|x l IH].
  - change (size (∅ : gset string) <= 0)%nat. by rewrite size_empty.
  - rewrite list_to_set_cons. cbn [length].
    rewrite size_union_alt, size_singleton.
    pose proof (subseteq_size (list_to_set l ∖ {[x]}) (list_to_set l : gset string)) as Hd.
    assert (list_to_set l ∖ {[x]} ⊆ (list_to_set l : gset string)) as Hs
      by (intros y Hy; by apply elem_of_difference in Hy as [? _]).
    specialize (Hd Hs). lia.
Qed.

Lemma size_list_to_set_eq (l : list string) :
  size (list_to_set l : gset string) = length l <-> NoDup l.
Proof.
  split; [|apply size_list_to_set].
  induction l as [|x l IH]; [constructor|].
  rewrite list_to_set_cons. cbn [length].
  intros Hsz. pose proof (size_list_to_set_le l) as Hle.
  destruct (decide (x ∈ l)) as [Hin|Hnin].
  - exfalso.
    replace ({[x]} ∪ list_to_set l : gset string)
      with (list_to_set l : gset string) in Hsz; [lia|].
    apply set_eq. intros y. rewrite elem_of_union, elem_of_singleton, !elem_of_list_to_set.
    split; [tauto|]. intros [->|]; done.
  - constructor; [done|]. apply IH.
    rewrite size_union in Hsz; [rewrite size_singleton in Hsz; lia|].
    apply disjoint_singleton_l. by rewrite elem_of_list_to_set.
Qed.

(** C7. In every entry of the [supply_aggregates] that [match_records]
    returns, [total_matches] is the number of distinct demand keys among
    the matches of the entry; it is at most the number of matches, and
    equal to it exactly when every demand key occurs once. *)
Theorem total_matches_counts_unique_demand_keys
    lim demand supply min_score best_match_only r a :
  match_records lim demand supply min_score best_match_only = Some r ->
  a ∈ MatchingResult.supply_aggregates r ->
  let keys := demand_key <$> Aggregate.matches a in
  Aggregate.total_matches a = size (list_to_set keys : gset string) /\
  (Aggregate.total_matches a <= length (Aggregate.matches a))%nat /\
  (Aggregate.total_matches a = length (Aggregate.matches a) <-> NoDup keys).
Proof.
  intros H Ha keys.
  apply match_records_inv in H as (_ & Hagg & _).
  destruct (aggregate_by_supply_inv _ _ _ Hagg Ha) as (_ & _ & Htotal & _).
  assert (Aggregate.total_matches a = size (list_to_set keys : gset string)) as Hk
    by exact Htotal.
  assert (length (Aggregate.matches a) = length keys) as Hlen
    by (unfold keys; by rewrite length_fmap).
  split; [exact Hk|]. rewrite Hk, Hlen. split.
  - apply size_list_to_set_le.
  - apply size_list_to_set_eq.
Qed.

Lemma sum_scores_eq scores : sum_scores scores = score_sum scores.
Proof.
  unfold sum_scores, score_sum.
  assert (forall a, fold_left Z.add scores a = (a + foldr Z.add 0 scores)%Z) as Hgen.
  { induction scores as [|x l IH]; intros a; simpl; [lia|]. rewrite IH. lia. }
  apply Hgen.
Qed.

Lemma score_sum_perm l k : l ≡ₚ k -> score_sum l = score_sum k.
Proof. unfold score_sum. induction 1; simpl; lia. Qed.

Lemma score_sum_bounds lo hi scores :
  Forall (fun x => lo <= x <= hi)%Z scores ->
  (lo * Z.of_nat (length scores) <= score_sum scores <= hi * Z.of_nat (length scores))%Z.
Proof.
  unfold score_sum. induction 1 as [|x l Hx Hl IH]; [simpl; lia|].
  cbn [foldr length]. rewrite Nat2Z.inj_succ. lia.
Qed.

(** C8. [avg_score] is computed from the scores of all the pairs that pass
    the [min_score] filter, whatever the output mode: it is 0 when no pair
    passes, and otherwise [round] of the binary64 quotient of their sum by
    their number; for fewer than 2^45 pairs that is a nearest integer to
    their average, the even one at a tie. *)
Theorem avg_score_is_rounded_average lim demand supply min_score best_match_only r :
  match_records lim demand supply min_score best_match_only = Some r ->
  let scores := Match.score <$> passing_matches lim demand supply min_score in
  let n := Z.of_nat (length scores) in
  let avg_score := Stats.avg_score (MatchingResult.stats r) in
  (scores = [] -> avg_score = 0%Z) /\
  (scores <> [] ->
   exists q, Py.int_true_div (score_sum scores) n = Some q
             /\ Py.round q = Some avg_score) /\
  (scores <> [] -> (n < 2 ^ 45)%Z -> nearest_even (score_sum scores) n avg_score).
Proof.
  intros H scores n avg_score.
  apply match_records_inv in H as (_ & _ & Havg). fold avg_score in Havg.
  assert (Match.score <$> sort_desc Match.score (passing_matches lim demand supply min_score)
          ≡ₚ scores) as Hperm by (unfold scores; by rewrite sort_desc_perm).
  revert Havg Hperm. generalize (Match.score <$> sort_desc Match.score
                                   (passing_matches lim demand supply min_score)).
  intros sorted Havg Hperm.
  assert (scores <> [] ->
          exists q, Py.int_true_div (score_sum scores) n = Some q
                    /\ Py.round q = Some avg_score) as Hq.
  { intros Hne. destruct sorted as [|x sorted].
    { apply Permutation_nil_l in Hperm. done. }
    unfold average_score in Havg.
    rewrite sum_scores_eq, (score_sum_perm _ _ Hperm) in Havg.
    rewrite (Permutation_length Hperm) in Havg. fold n in Havg.
    destruct (Py.int_true_div _ _) as [q|]; [|discriminate]. eauto. }
  split; [|split; [exact Hq|]].
  - intros Hnil. rewrite Hnil in Hperm. apply Permutation_nil_r in Hperm. subst sorted.
    simpl in Havg. by injection Havg as <-.
  - intros Hne Hn. destruct (Hq Hne) as (q & Hdiv & Hround).
    assert (Forall (fun x => 6 <= x <= 100)%Z scores) as Hrange.
    { apply Forall_forall. intros x Hx. apply list_elem_of_fmap in Hx as (m & -> & Hm).
      by apply passing_score_range in Hm. }
    apply (score_sum_bounds 6 100) in Hrange. fold n in Hrange.
    assert (0 < n)%Z as Hpos.
    { unfold n. destruct scores; [done|]. cbn [length]. lia. }
    destruct (int_true_div_round (score_sum scores) n) as (q' & Hdiv' & Hround');
      [lia | lia | lia | lia |].
    assert (avg_score = Py.round_half_even (score_sum scores) n) as -> by congruence.
    by apply round_half_even_nearest.
Qed.

(** ** Ambiguity resolution *)

Lemma side_eqb_eq a b : side_eqb a b = true <-> a = b.
Proof. destruct a, b; simpl; split; congruence. Qed.

Lemma in_list_elem_of x l : in_list x l = true <-> x ∈ l.
Proof.
  unfold in_list. rewrite existsb_exists. split.
  - intros (y & Hy & Heq). apply String.eqb_eq in Heq as ->. by apply list_elem_of_In.
  - intros Hx. exists x. split; [by apply list_elem_of_In | apply String.eqb_refl].
Qed.

(** C4, amended. [resolve_ambiguous_term] returns [capability] only on the
    supply side, and then either the term is one of engineering, engineer,
    engineers, sales, marketing and the text has a word of the recruiting
    context (recruit, recruiting, staffing, talent, headhunt, placement,
    sourcing), or the term is growth and the text has a word of the hiring
    context (hire, hiring, team, headcount, recruit, talent, staffing,
    placement). *)
Theorem capability_resolution_needs_context term ctx :
  resolve_ambiguous_term term ctx = Some capability ->
  side ctx = supply /\
  ((Py.lower term ∈ ["engineering"; "engineer"; "engineers"; "sales"; "marketing"]
    /\ has_recruiting_context (Py.lower (text ctx)) = true)
   \/ (Py.lower term = "growth"
       /\ has_hiring_context (Py.lower (text ctx)) = true)).
Proof.
  unfold resolve_ambiguous_term.
  destruct (in_list (Py.lower term) _) eqn:He.
  { apply in_list_elem_of in He.
    destruct (side_eqb (side ctx) demand && _); [discriminate|].
    destruct (side_eqb (side ctx) supply && _) eqn:Hs; [|discriminate].
    apply andb_true_iff in Hs as [Hs Hr]. apply side_eqb_eq in Hs.
    intros _. split; [done|left]. split; [|done].
    revert He. rewrite !elem_of_cons, elem_of_nil. tauto. }
  destruct (String.eqb_spec (Py.lower term) "sales") as [Hsales|_].
  { destruct (side_eqb (side ctx) demand && _); [discriminate|].
    destruct (side_eqb (side ctx) supply && _) eqn:Hs; [|discriminate].
    apply andb_true_iff in Hs as [Hs Hr]. apply side_eqb_eq in Hs.
    intros _. split; [done|left]. split; [|done].
    rewrite Hsales. do 3 apply list_elem_of_further. apply list_elem_of_here. }
  destruct (String.eqb_spec (Py.lower term) "marketing") as [Hm|_].
  { destruct (side_eqb (side ctx) demand && _); [discriminate|].
    destruct (side_eqb (side ctx) supply && _) eqn:Hs; [|discriminate].
    apply andb_true_iff in Hs as [Hs Hr]. apply side_eqb_eq in Hs.
    intros _. split; [done|left]. split; [|done].
    rewrite Hm. do 4 apply list_elem_of_further. apply list_elem_of_here. }
  destruct (String.eqb_spec (Py.lower term) "growth") as [Hg|_]; [|discriminate].
  destruct (has_hiring_context _) eqn:Hh; [|discriminate].
  destruct (side ctx); simpl; [discriminate|].
  intros _. split; [done|right]. done.
Qed.

(** C4 as stated fails for growth: on the supply side the text [team],
    which has no word of the recruiting context, resolves it to
    [capability]. *)
Lemma growth_capability_without_recruiting_context :
  ~ (forall term ctx,
        term ∈ ["engineering"; "engineer"; "engineers"; "sales"; "marketing"; "growth"] ->
        resolve_ambiguous_term term ctx = Some capability ->
        side ctx = supply /\ has_recruiting_context (Py.lower (text ctx)) = true).
Proof.
  intros H.
  destruct (H "growth" {| side := supply; text := "team" |}) as [_ Hr].
  - do 5 apply list_elem_of_further. apply list_elem_of_here.
  - reflexivity.
  - discriminate Hr.
Qed.

(** ** Expansion *)

Lemma add_tagged_fst tag st e : (add_tagged tag st e).1 = {[Py.lower e]} ∪ st.1.
Proof. reflexivity. Qed.

Lemma add_all_mono tag exps st : st.1 ⊆ (add_all tag exps st).1.
Proof.
  unfold add_all. revert st. induction exps as [|e exps IH]; intros st; simpl; [done|].
  etransitivity; [|apply IH]. rewrite add_tagged_fst. apply union_subseteq_r.
Qed.

Lemma add_all_new_mono tag exps st : st.1 ⊆ (add_all_new tag exps st).1.
Proof.
  unfold add_all_new. revert st. induction exps as [|e exps IH]; intros st; simpl; [done|].
  etransitivity; [|apply IH]. unfold add_new. case_bool_decide; [done|].
  rewrite add_tagged_fst. apply union_subseteq_r.
Qed.

Lemma expand_token_mono ctx st token : st.1 ⊆ (expand_token ctx st token).1.
Proof.
  unfold expand_token.
  destruct (expansion_map (side ctx) !! Py.lower token) as [exps|];
    destruct (resolve_ambiguous_term _ _) as [[]|];
    try destruct (side_eqb _ _);
    repeat (etransitivity; [|apply add_all_mono]); done.
Qed.

Lemma fold_expand_token_mono ctx tokens st :
  st.1 ⊆ (fold_left (expand_token ctx) tokens st).1.
Proof.
  revert st. induction tokens as [|t tokens IH]; intros st; simpl; [done|].
  etransitivity; [apply expand_token_mono | apply IH].
Qed.

Lemma expand_text_mono ctx st : st.1 ⊆ (expand_text ctx st).1.
Proof.
  unfold expand_text.
  destruct (side_eqb (side ctx) supply && _);
    destruct (side_eqb (side ctx) demand && _);
    repeat (etransitivity; [|apply add_all_new_mono]); done.
Qed.

(** C10. For every token list and every context, the [base] set of
    [expand_semantic_signals] is the set of the lowercased tokens and is
    included in the [expanded] set. *)
Theorem expansion_only_adds tokens ctx :
  let r := expand_semantic_signals tokens ctx in
  base r = list_to_set (Py.lower <$> tokens) /\ base r ⊆ expanded r.
Proof.
  unfold expand_semantic_signals. simpl. split; [reflexivity|].
  etransitivity; [|apply expand_text_mono].
  unfold expand_tokens. apply (fold_expand_token_mono ctx tokens (_, ∅)).
Qed.


(** ** Text-level detection on the supply side *)

Lemma recruiting_expansions_eq :
  recruiting_expansions =
  ["hiring"; "talent acquisition"; "staffing"; "headhunting";
   "recruiter"; "placement"; "sourcing"; "talent"; "hire";
   "engineer"; "engineers"; "engineering"; "developer"; "software";
   "sales"; "marketing"].
Proof. vm_compute. reflexivity. Qed.

Lemma recruiting_expansions_lower e :
  e ∈ recruiting_expansions -> Py.lower e = e.
Proof.
  rewrite recruiting_expansions_eq. intros He.
  repeat (apply elem_of_cons in He as [->|He]; [reflexivity|]).
  by apply elem_of_nil in He.
Qed.

Lemma add_new_fst tag st x : (add_new tag st x).1 = {[Py.lower x]} ∪ st.1.
Proof.
  unfold add_new. case_bool_decide as Hx; [|reflexivity].
  apply set_eq. intros y. rewrite elem_of_union, elem_of_singleton.
  split; [tauto|]. by intros [->|].
Qed.

Lemma add_new_snd tag st x e :
  (add_new tag st x).2 !! e =
  if bool_decide (e = Py.lower x /\ e ∉ st.1)
  then Some (default [] (st.2 !! e) ++ [tag])
  else st.2 !! e.
Proof.
  unfold add_new. case_bool_decide as Hx.
  - rewrite bool_decide_eq_false_2; [done|]. intros [-> Hn]. done.
  - unfold add_tagged. cbn [snd]. case_bool_decide as He.
    + destruct He as [-> _]. by rewrite lookup_insert_eq.
    + rewrite lookup_insert_ne; [done|]. intros <-. tauto.
Qed.

(** What the loop of [add_new] does to the two accumulators. *)
Lemma add_all_new_spec tag exps st :
  (add_all_new tag exps st).1 = st.1 ∪ list_to_set (Py.lower <$> exps) /\
  forall e,
    (add_all_new tag exps st).2 !! e =
    if bool_decide (e ∈ Py.lower <$> exps /\ e ∉ st.1)
    then Some (default [] (st.2 !! e) ++ [tag])
    else st.2 !! e.
Proof.
  unfold add_all_new. revert st.
  induction exps as [|x exps IH]; intros st.
  - cbn [fold_left fmap list_fmap]. split.
    + apply set_eq. intros y.
      rewrite elem_of_union, elem_of_list_to_set, elem_of_nil. tauto.
    + intros e. rewrite bool_decide_eq_false_2; [done|].
      rewrite elem_of_nil. tauto.
  - cbn [fold_left]. destruct (IH (add_new tag st x)) as [IH1 IH2].
    rewrite fmap_cons, list_to_set_cons. split.
    + rewrite IH1, add_new_fst.
      apply set_eq. intros y. rewrite !elem_of_union. tauto.
    + intros e. rewrite IH2, !add_new_snd.
      repeat case_bool_decide; try done; exfalso;
        rewrite ?add_new_fst, ?elem_of_cons, ?elem_of_union, ?elem_of_singleton in *;
        tauto.
Qed.

Lemma add_all_reasons_in_expanded tag exps st :
  reasons_in_expanded st -> reasons_in_expanded (add_all tag exps st).
Proof.
  unfold add_all. revert st. induction exps as [|x exps IH]; intros st Hst; [done|].
  simpl. apply IH. intros e. unfold add_tagged. cbn [fst snd].
  intros He. rewrite lookup_insert_ne by set_solver. apply Hst. set_solver.
Qed.

Lemma expand_tokens_reasons_in_expanded tokens ctx :
  reasons_in_expanded (expand_tokens tokens ctx).
Proof.
  unfold expand_tokens.
  assert (reasons_in_expanded (list_to_set (map Py.lower tokens), ∅)) as Hinit.
  { intros e _. apply lookup_empty. }
  revert Hinit.
  generalize (list_to_set (map Py.lower tokens) : gset string,
              ∅ : gmap string (list string)).
  induction tokens as [|t tokens IH]; intros st Hst; [done|].
  simpl. apply IH. unfold expand_token.
  destruct (expansion_map (side ctx) !! Py.lower t) as [exps|];
    destruct (resolve_ambiguous_term _ _) as [[]|];
    try destruct (side_eqb _ _);
    repeat apply add_all_reasons_in_expanded; done.
Qed.

(** C6, amended. On the supply side, when the lowercased text has one of
    recruit, recruiting, staffing, talent, headhunt, placement as a whole
    word, every member of the recruiting expansion set is in the expanded
    set; a member that the loop over the tokens had not added gets the one
    reason [text:recruiting_detected], and the reasons of a member that the
    loop had added are left as they were. *)
Theorem text_recruiting_expansion tokens ctx e :
  side ctx = supply ->
  Re.search text_recruiting_re (Py.lower (text ctx)) = true ->
  e ∈ recruiting_expansions ->
  let before := expand_tokens tokens ctx in
  let r := expand_semantic_signals tokens ctx in
  e ∈ expanded r /\
  (e ∉ before.1 -> reasons r !! e = Some ["text:recruiting_detected"]) /\
  (e ∈ before.1 -> reasons r !! e = before.2 !! e).
Proof.
  intros Hside Hre He before r.
  assert (expanded r = (add_all_new "text:recruiting_detected" recruiting_expansions before).1
          /\ reasons r = (add_all_new "text:recruiting_detected" recruiting_expansions before).2)
    as [-> ->].
  { unfold r, expand_semantic_signals, expand_text. cbn [negb SEMANTIC_MATCHING_ENABLED].
    rewrite Hside, Hre. cbn [side_eqb andb fst snd expanded reasons]. done. }
  destruct (add_all_new_spec "text:recruiting_detected" recruiting_expansions before)
    as [-> Hreasons].
  assert (e ∈ Py.lower <$> recruiting_expansions) as Hin.
  { apply list_elem_of_fmap. exists e. split; [|done].
    symmetry. by apply recruiting_expansions_lower. }
  split; [|split].
  - apply elem_of_union_r. by apply elem_of_list_to_set.
  - intros Hnew. rewrite Hreasons. rewrite bool_decide_eq_true_2 by done.
    pose proof (expand_tokens_reasons_in_expanded tokens ctx e Hnew) as Hnone.
    fold before in Hnone. by rewrite Hnone.
  - intros Hold. rewrite Hreasons. rewrite bool_decide_eq_false_2 by tauto. done.
Qed.

(** C6 as stated fails: the text [recruiter] has the substring [recruit],
    and the expanded set of its tokens lacks [hiring]. *)
Lemma recruiter_text_not_expanded :
  ~ (forall tokens text e,
        Re.search recruiting_words (Py.lower text) = true ->
        e ∈ recruiting_expansions ->
        e ∈ expanded (expand_semantic_signals tokens {| side := supply; text := text |})).
Proof.
  intros H.
  specialize (H (extract_tokens "recruiter") "recruiter" "hiring").
  assert (bool_decide
            ("hiring" ∈ expanded (expand_semantic_signals (extract_tokens "recruiter")
                                    {| side := supply; text := "recruiter" |})) = false)
    as Hno by (vm_compute; reflexivity).
  apply bool_decide_eq_false in Hno. apply Hno, H.
  - vm_compute. reflexivity.
  - rewrite recruiting_expansions_eq. apply list_elem_of_here.
Qed.

(** ** The source of a recruiting capability *)

(** C5. The description of [staffing_agency] has the keyword [staffing],
    its title and its company name have no keyword of a recruiting
    provider; the profile is a recruiting one with confidence 0.7 and
    source [company_name]. *)
Lemma staffing_agency_source :
  Re.search_i recruiting_provider_re
    (Py.lower (NormalizedRecord.company_description staffing_agency)) = true /\
  Re.search_i recruiting_provider_re
    (Py.lower (NormalizedRecord.title staffing_agency)) = false /\
  Re.search_i recruiting_provider_re
    (Py.lower (NormalizedRecord.company staffing_agency)) = false /\
  extract_capability_from_supply staffing_agency
  = Some (CapabilityProfile.mk "recruiting" [] f0_7 "company_name").
Proof. vm_compute. repeat split. Qed.

(** C9. For every pair that [score_match] scores, the industry, signal,
    size and alignment scores are at least 5, the weighted blend is at
    least 5.5, and the score is the rounded blend capped at 100 and is at
    least 6; the reasons of the match do not hold [Exploratory match]. *)
Theorem score_match_at_least_6 lim d s m :
  score_match lim d s = Some m ->
  exists cap i sz blend,
    extract_capability_from_supply s = Some cap /\
    score_industry (NormalizedRecord.industry d) (NormalizedRecord.industry s) = Some i /\
    score_size lim (NormalizedRecord.size d) (NormalizedRecord.size s) = Some sz /\
    let sg := score_signal (NormalizedRecord.signal d) (NormalizedRecord.title s)
                (NormalizedRecord.industry s) in
    let al := score_alignment (extract_need_from_demand d) cap in
    let bonus := bonus (get_semantic_score (record_text d) (record_text s)) in
    (5 <= i)%Z /\ (5 <= sg)%Z /\ (5 <= sz)%Z /\ (5 <= al)%Z /\ (0 <= bonus)%Z /\
    weighted_blend i sg sz al bonus = Some blend /\
    Py.fle (Py.literal 55 10) blend = true /\
    total_score i sg sz al bonus = Some (Match.score m) /\
    (6 <= Match.score m)%Z /\
    "Exploratory match" ∉ Match.reasons m.
Proof.
  intros H.
  apply score_match_inv in H
    as (cap & i & sz & f & r & Hcap & Hi & Hsz & Hf & Hge & Hround & Hr & Hscore
        & Hreasons & _).
  exists cap, i, sz, f. repeat (split; [assumption|]). cbv zeta.
  pose proof (score_industry_values _ _ _ Hi) as Vi.
  pose proof (score_signal_values (NormalizedRecord.signal d) (NormalizedRecord.title s)
                (NormalizedRecord.industry s)) as Vsg.
  pose proof (score_size_values _ _ _ _ Hsz) as Vsz.
  pose proof (score_alignment_values (extract_need_from_demand d) cap) as Val.
  pose proof (bonus_values_In
                (score_overlapCount (get_semantic_score (record_text d) (record_text s))))
    as Vb.
  change (calculate_semantic_bonus _)
    with (bonus (get_semantic_score (record_text d) (record_text s))) in Vb.
  split; [unfold industry_values in Vi; cbn [In] in Vi; lia|].
  split; [unfold signal_values in Vsg; cbn [In] in Vsg; lia|].
  split; [unfold size_values in Vsz; cbn [In] in Vsz; lia|].
  split; [unfold alignment_values in Val; cbn [In] in Val; lia|].
  split; [unfold bonus_values in Vb; cbn [In] in Vb; lia|].
  split; [exact Hf|]. split; [exact Hge|].
  split; [unfold total_score; rewrite Hf; cbn [mbind option_bind]; rewrite Hround;
          cbn [mbind option_bind]; by rewrite Hscore|].
  split; [lia|]. by rewrite list_elem_of_In.
Qed.


(** ** When the engine raises *)

(** [score_industry] does not raise. *)
Lemma score_industry_total d s : is_Some (score_industry d s).
Proof.
  unfold score_industry.
  destruct d as [d|[|d ds]], s as [s|[|s ss]]; cbn [field_truthy first_or_self];
    try destruct (Py.truthy d); try destruct (Py.truthy s);
    cbn [negb orb mbind option_bind]; repeat case_match; eauto.
Qed.

(** [score_match] raises only where [extract_capability_from_supply] or
    [score_size] does. *)
Lemma score_match_total lim d s :
  is_Some (extract_capability_from_supply s) ->
  is_Some (score_size lim (NormalizedRecord.size d) (NormalizedRecord.size s)) ->
  is_Some (score_match lim d s).
Proof.
  intros [cap Hcap] [sz Hsz]. unfold score_match.
  rewrite Hcap. cbn [mbind option_bind].
  destruct (score_industry_total (NormalizedRecord.industry d) (NormalizedRecord.industry s))
    as [i Hi].
  rewrite Hi. cbn [mbind option_bind]. rewrite Hsz. cbn [mbind option_bind].
  match goal with
  | |- context [total_score ?a ?b ?c ?e ?f] =>
      pose proof (blend_ok_In a b c e f
                    (score_industry_values _ _ _ Hi) (score_signal_values _ _ _)
                    (score_size_values _ _ _ _ Hsz) (score_alignment_values _ _)
                    (bonus_values_In _)) as Hok;
      unfold blend_ok in Hok; unfold total_score;
      destruct (weighted_blend a b c e f) as [blend|]; [|discriminate]
  end.
  cbn [mbind option_bind]. destruct (Py.round blend) as [r|].
  - cbn [mbind option_bind]. destruct (determine_tier _ _ _ _). eauto.
  - rewrite andb_false_r in Hok. discriminate.
Qed.

Lemma score_against_Some lim d supply min_score acc :
  (forall s, s ∈ supply -> is_Some (score_match lim d s)) ->
  is_Some (score_against lim d supply min_score acc).
Proof.
  revert acc. induction supply as [|s supply IH]; intros acc Hall; simpl; [eauto|].
  destruct (Hall s) as [m Hm]; [left|]. rewrite Hm. cbn [mbind option_bind].
  apply IH. intros s' Hs'. apply Hall. by right.
Qed.

Lemma score_pairs_Some lim demand supply min_score acc :
  (forall d s, d ∈ demand -> s ∈ supply -> is_Some (score_match lim d s)) ->
  is_Some (score_pairs lim demand supply min_score acc).
Proof.
  revert acc. induction demand as [|d demand IH]; intros acc Hall; simpl; [eauto|].
  destruct (score_against_Some lim d supply min_score acc) as [acc' Hacc].
  { intros s Hs. apply Hall; [left | done]. }
  rewrite Hacc. cbn [mbind option_bind].
  apply IH. intros d' s Hd' Hs. apply Hall; [by right | done].
Qed.

Lemma passing_matches_length lim demand supply min_score :
  (length (passing_matches lim demand supply min_score)
   <= length demand * length supply)%nat.
Proof.
  unfold passing_matches, scored_pairs.
  etransitivity; [apply length_filter|].
  assert (forall (l : list (option Match.t)), (length (omap id l) <= length l)%nat) as Hom.
  { induction l as [|[x|] l IH]; cbn in *; lia. }
  etransitivity; [apply Hom|].
  induction demand as [|d demand IH]; simpl; [lia|].
  rewrite length_app, length_map. lia.
Qed.

(** [match_records] raises only where [score_match] does, short of 2^45
    pairs. *)
Lemma match_records_total lim demand supply min_score best_match_only :
  (forall d s, d ∈ demand -> s ∈ supply -> is_Some (score_match lim d s)) ->
  (Z.of_nat (length demand * length supply) < 2 ^ 45)%Z ->
  is_Some (match_records lim demand supply min_score best_match_only).
Proof.
  intros Hall Hsmall. unfold match_records.
  destruct (score_pairs_Some lim demand supply min_score [] Hall) as [scored Hs].
  rewrite Hs. cbn [mbind option_bind].
  apply score_pairs_spec in Hs. rewrite app_nil_l in Hs. subst scored.
  match goal with
  | |- context [aggregate_by_supply ?ms] =>
      destruct (aggregate_by_supply_total ms) as [aggs ->]
  end.
  cbn [mbind option_bind].
  assert (is_Some (average_score
                     (map Match.score
                        (sort_desc Match.score
                           (passing_matches lim demand supply min_score))))) as [avg ->];
    [|cbn [mbind option_bind]; eauto].
  pose proof (passing_matches_length lim demand supply min_score) as Hlen.
  assert (Forall (fun x => 6 <= x <= 100)%Z
            (map Match.score
               (sort_desc Match.score (passing_matches lim demand supply min_score))))
    as Hrange.
  { apply Forall_forall. intros x Hx. apply list_elem_of_fmap in Hx as (m & -> & Hm).
    rewrite sort_desc_perm in Hm. by apply passing_score_range in Hm. }
  assert (length (map Match.score
                    (sort_desc Match.score (passing_matches lim demand supply min_score)))
          = length (passing_matches lim demand supply min_score)) as Hl
    by (by rewrite length_map, sort_desc_perm).
  revert Hrange Hl.
  generalize (map Match.score
                (sort_desc Match.score (passing_matches lim demand supply min_score))).
  intros scores Hrange Hl. unfold average_score.
  destruct scores as [|x scores]; [eauto|].
  apply (score_sum_bounds 6 100) in Hrange. rewrite sum_scores_eq.
  set (n := Z.of_nat (length (x :: scores))) in *.
  assert (0 < n)%Z by (unfold n; cbn [length]; lia).
  destruct (int_true_div_round (score_sum (x :: scores)) n) as (q & Hq & Hr);
    [lia | lia | lia | unfold n; lia |].
  rewrite Hq. cbn [mbind option_bind]. rewrite Hr. eauto.
Qed.


(** What the code does for a recruiting provider: confidence and source
    follow the substring [recruit] in the description, then in the title,
    whichever keyword made the record a provider. *)
Lemma recruiting_source_follows_recruit supply cap :
  extract_capability_from_supply supply = Some cap ->
  CapabilityProfile.category cap = "recruiting" ->
  (CapabilityProfile.confidence cap, CapabilityProfile.source cap)
  = if Py.contains "recruit" (Py.lower (NormalizedRecord.company_description supply))
    then (f0_95, "description")
    else if Py.contains "recruit" (Py.lower (NormalizedRecord.title supply))
         then (f0_85, "title")
         else (f0_7, "company_name").
Proof.
  unfold extract_capability_from_supply.
  destruct (first_or_self (NormalizedRecord.industry supply)) as [industry_raw|];
    [|discriminate].
  cbn [mbind option_bind].
  destruct (Re.search_i recruiting_provider_re _).
  - intros [= <-] _. cbn [CapabilityProfile.confidence CapabilityProfile.source].
    destruct (Py.contains _ _); [reflexivity|].
    destruct (Py.contains _ _); reflexivity.
  - intros Hcap Hcat. exfalso. revert Hcap Hcat.
    repeat (match goal with
            | |- context [if ?c then _ else _] => destruct c
            end);
      intros [= <-]; cbn [CapabilityProfile.category]; discriminate.
Qed.

(** A size of 401 digits against a size of 1: the quotient is beyond the
    range of a float and [score_size] raises. *)
Example score_size_overflow :
  score_size 4300 (FStr ("1" +:+ zeros 400)) (FStr "1") = None.
Proof. vm_compute. reflexivity. Qed.

(** An empty industry list on the supply side: [industry_raw[0]] raises. *)
Example extract_capability_empty_industry :
  extract_capability_from_supply
    (NormalizedRecord.mk EmptyString EmptyString EmptyString EmptyString EmptyString
       EmptyString EmptyString (FList []) EmptyString None EmptyString
       EmptyString (FStr EmptyString) EmptyString) = None.
Proof. reflexivity. Qed.

(** The blend of the least scores is 5.5 and rounds to 6. *)
Example least_blend :
  weighted_blend 5 5 5 5 0 = Some (Py.literal 55 10) /\ total_score 5 5 5 5 0 = Some 6%Z.
Proof. vm_compute. split; reflexivity. Qed.

(** * Further properties of the engine *)

(** ** The shape of a match *)

Lemma all_scores_bounded :
  forallb (fun i => forallb (fun sg => forallb (fun sz => forallb (fun al =>
    forallb (fun b => score_bounded i sg sz al b) bonus_values) alignment_values)
    size_values) signal_values) industry_values = true.
Proof. vm_compute. reflexivity. Qed.

Lemma score_bounded_In i sg sz al b :
  In i industry_values -> In sg signal_values -> In sz size_values ->
  In al alignment_values -> In b bonus_values -> score_bounded i sg sz al b = true.
Proof.
  intros Hi Hsg Hsz Hal Hb.
  pose proof all_scores_bounded as H.
  rewrite forallb_forall in H. specialize (H _ Hi).
  rewrite forallb_forall in H. specialize (H _ Hsg).
  rewrite forallb_forall in H. specialize (H _ Hsz).
  rewrite forallb_forall in H. specialize (H _ Hal).
  rewrite forallb_forall in H. exact (H _ Hb).
Qed.

(** A match is the record of its inputs, of the rounded blend of its five
    terms and of the tier of that score. *)
Lemma score_match_shape lim d s m :
  score_match lim d s = Some m ->
  exists cap i sz t,
    extract_capability_from_supply s = Some cap /\
    score_industry (NormalizedRecord.industry d) (NormalizedRecord.industry s) = Some i /\
    score_size lim (NormalizedRecord.size d) (NormalizedRecord.size s) = Some sz /\
    let need := extract_need_from_demand d in
    let sg := score_signal (NormalizedRecord.signal d) (NormalizedRecord.title s)
                (NormalizedRecord.industry s) in
    let al := score_alignment need cap in
    let sem := get_semantic_score (record_text d) (record_text s) in
    total_score i sg sz al (bonus sem) = Some t /\
    (6 <= t <= 68)%Z /\
    m = Match.mk d s t
          (reasons_of (NeedProfile.category need) (CapabilityProfile.category cap)
             i sg sz al (bonus sem) (score_overlapCount sem))
          (determine_tier t need cap (signal_label d)).1
          (determine_tier t need cap (signal_label d)).2
          need cap.
Proof.
  unfold score_match. intros H.
  destruct (extract_capability_from_supply s) as [cap|] eqn:Hcap; [|discriminate].
  cbn [mbind option_bind] in H.
  destruct (score_industry _ _) as [i|] eqn:Hi; [|discriminate].
  cbn [mbind option_bind] in H.
  destruct (score_size lim _ _) as [sz|] eqn:Hsz; [|discriminate].
  cbn [mbind option_bind] in H.
  exists cap, i, sz.
  set (need := extract_need_from_demand d) in *.
  set (sg := score_signal _ _ _) in *.
  set (al := score_alignment _ _) in *.
  set (sem := get_semantic_score _ _) in *.
  pose proof (score_bounded_In i sg sz al (bonus sem)
                (score_industry_values _ _ _ Hi) (score_signal_values _ _ _)
                (score_size_values _ _ _ _ Hsz) (score_alignment_values _ _)
                (bonus_values_In _)) as Hok.
  unfold score_bounded in Hok.
  destruct (total_score i sg sz al (bonus sem)) as [t|] eqn:Ht; [|discriminate].
  cbn [mbind option_bind] in H.
  apply andb_true_iff in Hok as [Hlo Hhi].
  apply Z.leb_le in Hlo. apply Z.leb_le in Hhi.
  exists t.
  fold (signal_label d) in H.
  destruct (determine_tier t need cap (signal_label d)) as [tier tier_reason] eqn:Htier.
  assert (Hz : (t =? 0)%Z = false) by (apply Z.eqb_neq; lia).
  rewrite Hz in H. injection H as <-.
  repeat (split; [first [eassumption | reflexivity | lia]|]).
  cbn [fst snd]. f_equal.
  unfold reasons_of, when at 6. rewrite app_nil_r, <- !app_assoc. reflexivity.
Qed.

(** ** Scores and tiers *)

(** X1. The score of a match is at most 68: the largest terms of the blend,
    30, 40, 20 and 50 with the bonus 30, give 68.5, which rounds to the even
    68. So the cap at 100 is never reached, and no match has the tier
    [strong], which asks for a score of 70. *)
Theorem score_at_most_68 lim d s m :
  score_match lim d s = Some m ->
  (Match.score m <= 68)%Z /\ Match.tier m <> strong.
Proof.
  intros H. apply score_match_shape in H as (cap & i & sz & t & _ & _ & _ & _ & Ht & ->).
  cbn [Match.score Match.tier]. split; [lia|].
  unfold determine_tier.
  assert (Hlt : (70 <=? t)%Z = false) by (apply Z.leb_gt; lia).
  rewrite Hlt. cbn [andb]. case_match; cbn [fst]; discriminate.
Qed.

(** X2. The tier and the tier reason of a match are those of its final
    score, of the two profiles it stores and of the label of its demand
    signal. A score of 45 or more is [good], a score below 30 is [open],
    and between the two the mean of the two confidences decides. *)
Theorem tier_of_final_score lim d s m :
  score_match lim d s = Some m ->
  (Match.tier m, Match.tier_reason m)
  = determine_tier (Match.score m) (Match.need_profile m)
      (Match.capability_profile m) (signal_label (Match.demand m)) /\
  ((45 <= Match.score m)%Z -> Match.tier m = good) /\
  ((Match.score m < 30)%Z -> Match.tier m = open) /\
  ((30 <= Match.score m < 45)%Z ->
   Match.tier m =
   if Py.fle f0_5
        (Py.fdiv (Py.fadd (NeedProfile.confidence (Match.need_profile m))
                    (CapabilityProfile.confidence (Match.capability_profile m)))
           (Py.literal 2 1))
   then good else open).
Proof.
  intros H. apply score_match_shape in H as (cap & i & sz & t & _ & _ & _ & _ & Ht & ->).
  cbn [Match.score Match.tier Match.tier_reason Match.need_profile
         Match.capability_profile Match.demand].
  split; [destruct (determine_tier _ _ _ _); reflexivity|].
  unfold determine_tier.
  assert (Hlt : (70 <=? t)%Z = false) by (apply Z.leb_gt; lia).
  rewrite Hlt. cbn [andb].
  repeat split; intros Hs.
  - assert (H45 : (45 <=? t)%Z = true) by (apply Z.leb_le; lia).
    rewrite H45. reflexivity.
  - assert (H45 : (45 <=? t)%Z = false) by (apply Z.leb_gt; lia).
    assert (H30 : (30 <=? t)%Z = false) by (apply Z.leb_gt; lia).
    rewrite H45, H30. reflexivity.
  - assert (H45 : (45 <=? t)%Z = false) by (apply Z.leb_gt; lia).
    assert (H30 : (30 <=? t)%Z = true) by (apply Z.leb_le; lia).
    rewrite H45, H30. cbn [orb andb]. case_match; reflexivity.
Qed.

(** X3. For given profiles, a higher score never gives a lower tier, and
    the tier reason does not depend on the score. *)
Theorem determine_tier_monotone s1 s2 need cap label :
  (s1 <= s2)%Z ->
  (tier_rank (determine_tier s1 need cap label).1
   <= tier_rank (determine_tier s2 need cap label).1)%nat /\
  (determine_tier s1 need cap label).2 = (determine_tier s2 need cap label).2.
Proof.
  intros Hle. unfold determine_tier.
  set (conf := Py.fdiv _ _).
  destruct (Py.fle f0_7 conf), (Py.fle f0_5 conf);
    destruct (Z.leb_spec 70 s1), (Z.leb_spec 70 s2),
             (Z.leb_spec 45 s1), (Z.leb_spec 45 s2),
             (Z.leb_spec 30 s1), (Z.leb_spec 30 s2);
    cbn [andb orb fst snd tier_rank]; (split; [lia|reflexivity]).
Qed.

(** ** The result of [match_records] *)

Lemma score_against_Some_inv lim d supply min_score acc l :
  score_against lim d supply min_score acc = Some l ->
  forall s, s ∈ supply -> is_Some (score_match lim d s).
Proof.
  revert acc. induction supply as [|x supply IH]; intros acc H s Hs; simpl in H.
  - by apply elem_of_nil in Hs.
  - destruct (score_match lim d x) as [m|] eqn:Hm; [|discriminate].
    cbn [mbind option_bind] in H.
    apply elem_of_cons in Hs as [->|Hs]; [by rewrite Hm | by eapply IH].
Qed.

Lemma score_pairs_Some_inv lim demand supply min_score acc l :
  score_pairs lim demand supply min_score acc = Some l ->
  forall d s, d ∈ demand -> s ∈ supply -> is_Some (score_match lim d s).
Proof.
  revert acc. induction demand as [|x demand IH]; intros acc H d s Hd Hs; simpl in H.
  - by apply elem_of_nil in Hd.
  - destruct (score_against lim x supply min_score acc) as [acc'|] eqn:Hx; [|discriminate].
    cbn [mbind option_bind] in H.
    apply elem_of_cons in Hd as [->|Hd].
    + by eapply score_against_Some_inv.
    + by eapply IH.
Qed.

(** The result of [match_records], field by field. *)
Lemma match_records_shape lim demand supply min_score best_match_only r :
  match_records lim demand supply min_score best_match_only = Some r ->
  let all_matches :=
    sort_desc Match.score (passing_matches lim demand supply min_score) in
  let demand_matches :=
    if best_match_only then get_best_match_per_demand all_matches else all_matches in
  exists aggs avg,
    aggregate_by_supply demand_matches = Some aggs /\
    average_score (Match.score <$> all_matches) = Some avg /\
    (forall d s, d ∈ demand -> s ∈ supply -> is_Some (score_match lim d s)) /\
    r = MatchingResult.mk demand_matches aggs
          (Stats.mk (length demand) (length supply) (length demand_matches)
             (size (unique_demand_keys demand_matches)) avg).
Proof.
  unfold match_records. intros H.
  destruct (score_pairs lim demand supply min_score []) as [scored|] eqn:Hs; [|discriminate].
  pose proof (score_pairs_Some_inv _ _ _ _ _ _ Hs) as Hall.
  apply score_pairs_spec in Hs. rewrite app_nil_l in Hs. subst scored.
  cbn [mbind option_bind] in H.
  destruct (aggregate_by_supply _) as [aggs|] eqn:Ha; [|discriminate].
  cbn [mbind option_bind] in H.
  destruct (average_score _) as [avg|] eqn:Hv; [|discriminate].
  cbn [mbind option_bind] in H. injection H as <-.
  exists aggs, avg. done.
Qed.

(** [match_records] returns as soon as every pair is scored and the
    average of the scores is computed. *)
Lemma match_records_intro lim demand supply min_score best_match_only avg :
  (forall d s, d ∈ demand -> s ∈ supply -> is_Some (score_match lim d s)) ->
  average_score
    (Match.score <$> sort_desc Match.score (passing_matches lim demand supply min_score))
  = Some avg ->
  is_Some (match_records lim demand supply min_score best_match_only).
Proof.
  intros Hall Havg. unfold match_records.
  destruct (score_pairs_Some lim demand supply min_score [] Hall) as [scored Hs].
  rewrite Hs. cbn [mbind option_bind].
  apply score_pairs_spec in Hs. rewrite app_nil_l in Hs. subst scored.
  destruct (aggregate_by_supply_total
              (if best_match_only
               then get_best_match_per_demand
                      (sort_desc Match.score (passing_matches lim demand supply min_score))
               else sort_desc Match.score (passing_matches lim demand supply min_score)))
    as [aggs Ha].
  rewrite Ha. cbn [mbind option_bind].
  change (map Match.score ?l) with (Match.score <$> l).
  rewrite Havg. cbn [mbind option_bind]. eauto.
Qed.

Lemma scored_pairs_length lim demand supply :
  length (scored_pairs lim demand supply) = (length demand * length supply)%nat.
Proof.
  unfold scored_pairs. induction demand as [|d demand IH]; simpl; [done|].
  rewrite length_app, length_map, IH. done.
Qed.

Lemma omap_id_all_Some {A} (l : list (option A)) :
  Forall is_Some l -> length (omap id l) = length l.
Proof.
  induction 1 as [|o l [x ->] _ IH]; [done|].
  cbn [omap list_omap id length]. by f_equal.
Qed.

Lemma scored_pairs_all_Some lim demand supply :
  (forall d s, d ∈ demand -> s ∈ supply -> is_Some (score_match lim d s)) ->
  Forall is_Some (scored_pairs lim demand supply).
Proof.
  intros Hall. apply Forall_forall. intros o Ho. unfold scored_pairs in Ho.
  apply list_elem_of_In, in_flat_map in Ho as (d & Hd & Hin).
  apply in_map_iff in Hin as (s & <- & Hs).
  apply Hall; by apply list_elem_of_In.
Qed.

Lemma filter_all {A} (P : A -> Prop) `{!forall x, Decision (P x)} (l : list A) :
  Forall P l -> filter P l = l.
Proof.
  induction 1 as [|x l Hx _ IH]; [done|]. by rewrite filter_cons_True, IH.
Qed.

Lemma filter_none {A} (P : A -> Prop) `{!forall x, Decision (P x)} (l : list A) :
  Forall (fun x => ~ P x) l -> filter P l = [].
Proof.
  induction 1 as [|x l Hx _ IH]; [done|]. by rewrite filter_cons_False.
Qed.

Lemma elem_of_scored lim demand supply m :
  m ∈ omap id (scored_pairs lim demand supply) ->
  exists d s, d ∈ demand /\ s ∈ supply /\ score_match lim d s = Some m.
Proof.
  rewrite list_elem_of_omap. intros (o & Ho & Hid). unfold id in Hid. subst o.
  unfold scored_pairs in Ho.
  apply list_elem_of_In, in_flat_map in Ho as (d & Hd & Hin).
  apply in_map_iff in Hin as (s & Hs & Hin).
  exists d, s. by rewrite <- !list_elem_of_In in *.
Qed.

Lemma passing_matches_every lim demand supply min_score :
  (forall d s, d ∈ demand -> s ∈ supply -> is_Some (score_match lim d s)) ->
  (min_score <= 6)%Z ->
  length (passing_matches lim demand supply min_score)
  = (length demand * length supply)%nat.
Proof.
  intros Hall Hmin. unfold passing_matches.
  rewrite filter_all.
  - rewrite omap_id_all_Some by by apply scored_pairs_all_Some.
    apply scored_pairs_length.
  - apply Forall_forall. intros m Hm.
    apply elem_of_scored in Hm as (d & s & _ & _ & Hm).
    apply score_match_shape in Hm as (? & ? & ? & t & _ & _ & _ & _ & Ht & ->).
    cbn [Match.score]. lia.
Qed.

Lemma passing_matches_none lim demand supply min_score :
  (68 < min_score)%Z -> passing_matches lim demand supply min_score = [].
Proof.
  intros Hmin. unfold passing_matches. apply filter_none.
  apply Forall_forall. intros m Hm.
  apply elem_of_scored in Hm as (d & s & _ & _ & Hm).
  apply score_match_shape in Hm as (? & ? & ? & t & _ & _ & _ & _ & Ht & ->).
  cbn [Match.score]. lia.
Qed.

Lemma score_pairs_no_supply lim demand min_score acc :
  score_pairs lim demand [] min_score acc = Some acc.
Proof. induction demand as [|d demand IH]; simpl; [done|]. exact IH. Qed.

Lemma aggregate_by_supply_nil : aggregate_by_supply [] = Some [].
Proof. reflexivity. Qed.

Lemma unique_demand_keys_nil : size (unique_demand_keys []) = 0%nat.
Proof. reflexivity. Qed.

(** X4. With no demand record or no supply record, [match_records] returns
    the empty result: no match, no aggregate, an average of 0, and the two
    input lengths. *)
Theorem match_records_empty lim demand supply min_score best_match_only :
  demand = [] \/ supply = [] ->
  match_records lim demand supply min_score best_match_only
  = Some (MatchingResult.mk [] []
            (Stats.mk (length demand) (length supply) 0 0 0)).
Proof.
  intros H. unfold match_records.
  assert (score_pairs lim demand supply min_score [] = Some []) as ->.
  { destruct H as [-> | ->]; [done | apply score_pairs_no_supply]. }
  cbn [mbind option_bind sort_desc fold_right].
  assert ((if best_match_only then get_best_match_per_demand [] else [])
          = @nil Match.t) as -> by by destruct best_match_only.
  rewrite aggregate_by_supply_nil. cbn [mbind option_bind map average_score length].
  by rewrite unique_demand_keys_nil.
Qed.

(** X5. A threshold of 6 or less filters nothing, the least score being 6:
    by default ([min_score] 0, all matches) the result has one match for
    every pair of a demand and a supply record. *)
Theorem low_threshold_keeps_every_pair lim demand supply min_score r :
  match_records lim demand supply min_score false = Some r ->
  (min_score <= 6)%Z ->
  length (MatchingResult.demand_matches r) = (length demand * length supply)%nat /\
  Stats.total_matches (MatchingResult.stats r) = (length demand * length supply)%nat.
Proof.
  intros H Hmin.
  apply match_records_shape in H as (aggs & avg & _ & _ & Hall & ->).
  cbn [MatchingResult.demand_matches MatchingResult.stats Stats.total_matches].
  rewrite sort_desc_perm. split; by apply passing_matches_every.
Qed.

(** X6. A threshold above 68 leaves nothing, the greatest score being 68:
    the result has no match and no aggregate, and its average is 0. *)
Theorem high_threshold_keeps_nothing lim demand supply min_score best_match_only r :
  match_records lim demand supply min_score best_match_only = Some r ->
  (68 < min_score)%Z ->
  r = MatchingResult.mk [] [] (Stats.mk (length demand) (length supply) 0 0 0).
Proof.
  intros H Hmin.
  apply match_records_shape in H as (aggs & avg & Ha & Hv & _ & ->).
  rewrite passing_matches_none in * by done.
  cbn [sort_desc fold_right] in *.
  assert ((if best_match_only then get_best_match_per_demand [] else [])
          = @nil Match.t) as Hnil by by destruct best_match_only.
  rewrite Hnil in *. rewrite aggregate_by_supply_nil in Ha.
  cbn in Hv. simplify_eq. by rewrite unique_demand_keys_nil.
Qed.

Lemma unique_demand_keys_firsts ms :
  unique_demand_keys (firsts ∅ ms) = unique_demand_keys ms.
Proof.
  unfold unique_demand_keys. apply set_eq. intros k.
  rewrite !elem_of_list_to_set.
  change (map (fun m => get_demand_key (Match.demand m)) ?l) with (demand_key <$> l).
  split.
  - rewrite !list_elem_of_fmap. intros (m & -> & Hm). exists m. split; [done|].
    by apply (sublist_subseteq _ _ (firsts_sublist ∅ ms)).
  - rewrite list_elem_of_fmap. intros (m & -> & Hm).
    apply firsts_cover; [done | set_solver].
Qed.

Lemma length_firsts ms :
  length (firsts ∅ ms) = size (unique_demand_keys ms).
Proof.
  rewrite <- unique_demand_keys_firsts. unfold unique_demand_keys.
  change (map (fun m => get_demand_key (Match.demand m)) ?l) with (demand_key <$> l).
  symmetry. rewrite <- (length_fmap demand_key (firsts ∅ ms)).
  apply size_list_to_set_eq, firsts_NoDup.
Qed.

(** X7. What [best_match_only] changes and what it does not. The matches
    of the mode are the best matches per demand of the matches without it
    (as the command line computes them for the introductions); the number
    of demands matched and the average score, which is taken over every
    passing pair in both modes, are the same; and the number of matches
    becomes the number of demands matched. *)
Theorem best_match_only_stats lim demand supply min_score r1 r2 :
  match_records lim demand supply min_score false = Some r1 ->
  match_records lim demand supply min_score true = Some r2 ->
  MatchingResult.demand_matches r2
  = get_best_match_per_demand (MatchingResult.demand_matches r1) /\
  Stats.avg_score (MatchingResult.stats r2) = Stats.avg_score (MatchingResult.stats r1) /\
  Stats.unique_demands_matched (MatchingResult.stats r2)
  = Stats.unique_demands_matched (MatchingResult.stats r1) /\
  Stats.total_matches (MatchingResult.stats r2)
  = Stats.unique_demands_matched (MatchingResult.stats r1) /\
  (Stats.unique_demands_matched (MatchingResult.stats r1)
   <= Stats.total_matches (MatchingResult.stats r1))%nat.
Proof.
  intros H1 H2.
  apply match_records_shape in H1 as (aggs1 & avg1 & _ & Hv1 & _ & ->).
  apply match_records_shape in H2 as (aggs2 & avg2 & _ & Hv2 & _ & ->).
  cbn [MatchingResult.demand_matches MatchingResult.stats Stats.avg_score
       Stats.unique_demands_matched Stats.total_matches].
  rewrite get_best_match_per_demand_firsts.
  rewrite unique_demand_keys_firsts, length_firsts.
  repeat split; [congruence|].
  unfold unique_demand_keys.
  etrans; [apply size_list_to_set_le|]. by rewrite length_map.
Qed.

(** ** The best match of each demand, again *)

Lemma firsts_idempotent seen ms : firsts seen (firsts seen ms) = firsts seen ms.
Proof.
  revert seen. induction ms as [|m ms IH]; intros seen; simpl; [done|].
  case_bool_decide as Hm; [apply IH|].
  simpl. rewrite bool_decide_eq_false_2 by done. by rewrite IH.
Qed.

Lemma firsts_NoDup_id seen ms :
  NoDup (demand_key <$> ms) -> (forall m, m ∈ ms -> demand_key m ∉ seen) ->
  firsts seen ms = ms.
Proof.
  revert seen. induction ms as [|m ms IH]; intros seen Hnd Hfresh; simpl; [done|].
  rewrite fmap_cons in Hnd. apply NoDup_cons in Hnd as [Hm Hnd].
  rewrite bool_decide_eq_false_2 by (apply Hfresh; left).
  f_equal. apply IH; [done|]. intros x Hx.
  rewrite elem_of_union, elem_of_singleton. intros [Heq|Hin].
  - apply Hm. rewrite <- Heq. by apply list_elem_of_fmap_2.
  - by apply (Hfresh x); [right|].
Qed.

(** X8. [get_best_match_per_demand] keeps a sublist of its argument, it is
    idempotent, and it returns its argument unchanged exactly when no two
    matches of it have the same demand key. *)
Theorem get_best_match_per_demand_idempotent ms :
  get_best_match_per_demand ms `sublist_of` ms /\
  get_best_match_per_demand (get_best_match_per_demand ms)
  = get_best_match_per_demand ms /\
  (get_best_match_per_demand ms = ms <-> NoDup (demand_key <$> ms)).
Proof.
  rewrite !get_best_match_per_demand_firsts. split; [apply firsts_sublist|].
  split; [apply firsts_idempotent|]. split.
  - intros <-. apply firsts_NoDup.
  - intros Hnd. apply firsts_NoDup_id; [done | set_solver].
Qed.

(** ** The aggregates partition the matches *)

Lemma by_supply_add_keys key m by_supply :
  (by_supply_add key m by_supply).*1
  = if bool_decide (key ∈ by_supply.*1) then by_supply.*1 else by_supply.*1 ++ [key].
Proof.
  induction by_supply as [|[k ms] rest IH]; [done|].
  cbn [by_supply_add].
  destruct (String.eqb_spec k key) as [->|Hne]; rewrite !fmap_cons; cbn [fst].
  - rewrite bool_decide_eq_true_2 by left. done.
  - rewrite IH. case_bool_decide as Hin.
    + rewrite bool_decide_eq_true_2 by by right. done.
    + rewrite bool_decide_eq_false_2; [done|].
      rewrite elem_of_cons. intros [?|?]; congruence.
Qed.

Lemma by_supply_add_join key m by_supply :
  mjoin (by_supply_add key m by_supply).*2 ≡ₚ m :: mjoin by_supply.*2.
Proof.
  induction by_supply as [|[k ms] rest IH]; [done|].
  cbn [by_supply_add].
  destruct (String.eqb k key); rewrite !fmap_cons; cbn [snd mjoin list_join].
  - rewrite <- app_assoc. cbn [app]. by rewrite <- Permutation_middle.
  - rewrite IH. by rewrite <- Permutation_middle.
Qed.

Lemma by_supply_add_keyed m by_supply :
  keyed_groups by_supply -> keyed_groups (by_supply_add (supply_key m) m by_supply).
Proof.
  intros [Hnd Hall]. split.
  - rewrite by_supply_add_keys. case_bool_decide as Hin; [done|].
    apply NoDup_app. split; [done|]. split; [|apply NoDup_singleton].
    intros k Hk Hk'. apply list_elem_of_singleton in Hk' as ->. done.
  - clear Hnd. induction Hall as [|[k ms] rest [Hne Hms] Hrest IH]; simpl.
    + constructor; [|constructor]. simpl. split; [done|]. by constructor.
    + destruct (String.eqb_spec k (supply_key m)) as [->|Hk].
      * constructor; [|done]. simpl in *. split.
        -- intros Happ. by apply app_eq_nil in Happ as [_ ?].
        -- apply Forall_app. split; [done|]. by constructor.
      * by constructor.
Qed.

Lemma group_by_supply_keyed matches :
  keyed_groups (group_by_supply matches) /\
  mjoin (group_by_supply matches).*2 ≡ₚ matches.
Proof.
  unfold group_by_supply.
  set (step := fun by_supply m => by_supply_add (get_supply_key (Match.supply m)) m by_supply).
  assert (forall todo by_supply,
            keyed_groups by_supply ->
            keyed_groups (fold_left step todo by_supply) /\
            mjoin (fold_left step todo by_supply).*2 ≡ₚ mjoin by_supply.*2 ++ todo) as Hloop.
  { intros todo. induction todo as [|m todo IH]; intros by_supply Hk; simpl.
    - by rewrite app_nil_r.
    - destruct (IH (step by_supply m)) as [Hk' Hp]; [by apply by_supply_add_keyed|].
      split; [done|]. rewrite Hp. unfold step. rewrite by_supply_add_join.
      by rewrite <- Permutation_middle. }
  destruct (Hloop matches []) as [Hk Hp]; [|done].
  split; [apply NoDup_nil_2 | constructor].
Qed.

Lemma aggregate_group_keyed k ms a :
  ms <> [] -> Forall (fun m => supply_key m = k) ms ->
  aggregate_group ms = Some a ->
  get_supply_key (Aggregate.supply a) = k /\
  Aggregate.matches a ≡ₚ ms /\
  Aggregate.supply a = Match.supply (Aggregate.best_match a) /\
  Aggregate.best_match a ∈ Aggregate.matches a /\
  forall m, m ∈ Aggregate.matches a ->
            (Match.score m <= Match.score (Aggregate.best_match a))%Z.
Proof.
  intros Hne Hms Ha.
  pose proof (sort_desc_descending Match.score ms) as Hd.
  pose proof (sort_desc_perm Match.score ms) as Hp.
  unfold aggregate_group in Ha.
  destruct (sort_desc Match.score ms) as [|b rest] eqn:Hs; [discriminate|].
  simpl in Ha. injection Ha as <-. simpl.
  assert (b ∈ ms) as Hb by (rewrite <- Hp; left).
  rewrite Forall_forall in Hms.
  split; [by apply Hms|]. split; [done|]. split; [done|]. split; [left|].
  intros m Hm. apply elem_of_cons in Hm as [->|Hm]; [lia|].
  unfold descending in Hd. apply StronglySorted_inv in Hd as [_ Hall].
  rewrite Forall_forall in Hall. by apply Hall.
Qed.

Lemma aggregate_groups_keyed by_supply raw :
  Forall (fun g => g.2 <> [] /\ Forall (fun m => supply_key m = g.1) g.2) by_supply ->
  Forall2 (fun g a => aggregate_group g.2 = Some a) by_supply raw ->
  (fun a => get_supply_key (Aggregate.supply a)) <$> raw = by_supply.*1 /\
  mjoin (Aggregate.matches <$> raw) ≡ₚ mjoin by_supply.*2.
Proof.
  intros Hall H2. induction H2 as [|[k ms] a bs raw Ha _ IH]; [done|].
  apply Forall_cons in Hall as [[Hne Hms] Hall]. cbn [fst snd] in *.
  destruct (aggregate_group_keyed k ms a Hne Hms Ha) as (Hk & Hp & _).
  destruct (IH Hall) as [IHk IHp].
  rewrite !fmap_cons. cbn [fst snd mjoin list_join].
  split; [by rewrite Hk, IHk|]. by rewrite Hp, IHp.
Qed.

Lemma aggregate_by_supply_partition matches aggs :
  aggregate_by_supply matches = Some aggs ->
  mjoin (Aggregate.matches <$> aggs) ≡ₚ matches /\
  NoDup ((fun a => get_supply_key (Aggregate.supply a)) <$> aggs) /\
  forall a, a ∈ aggs ->
    Aggregate.supply a = Match.supply (Aggregate.best_match a) /\
    Aggregate.best_match a ∈ Aggregate.matches a /\
    forall m, m ∈ Aggregate.matches a ->
      supply_key m = get_supply_key (Aggregate.supply a) /\
      (Match.score m <= Match.score (Aggregate.best_match a))%Z.
Proof.
  unfold aggregate_by_supply. intros H.
  destruct (mapM _ (group_by_supply matches)) as [raw|] eqn:Hm; [|discriminate].
  simpl in H. injection H as <-.
  apply mapM_Some in Hm.
  destruct (group_by_supply_keyed matches) as [[Hnd Hall] Hp].
  destruct (aggregate_groups_keyed _ _ Hall Hm) as [Hkeys Hjoin].
  split; [by rewrite sort_desc_perm, Hjoin|].
  split; [by rewrite sort_desc_perm, Hkeys|].
  intros a Ha. rewrite sort_desc_perm in Ha.
  apply list_elem_of_lookup in Ha as [i Hi].
  destruct (Forall2_lookup_r _ _ _ _ _ Hm Hi) as ([k ms] & Hg & Hagg).
  rewrite Forall_forall in Hall.
  apply list_elem_of_lookup_2, Hall in Hg as [Hne Hms]. simpl in *.
  destruct (aggregate_group_keyed k ms a Hne Hms Hagg)
    as (Hk & Hperm & Hsup & Hbest & Hmax).
  split; [done|]. split; [done|]. intros m Hin. split; [|by apply Hmax].
  rewrite Hk. rewrite Forall_forall in Hms. apply Hms. by rewrite <- Hperm.
Qed.

Lemma aggregate_by_supply_join matches aggs :
  aggregate_by_supply matches = Some aggs ->
  mjoin (Aggregate.matches <$> aggs) ≡ₚ matches.
Proof. intros H. by apply aggregate_by_supply_partition in H as [? _]. Qed.

Lemma passing_match_supply lim demand supply min_score m :
  m ∈ passing_matches lim demand supply min_score -> Match.supply m ∈ supply.
Proof.
  rewrite elem_of_passing_matches. intros (d & s & _ & Hs & Hm & _).
  apply score_match_shape in Hm as (? & ? & ? & ? & _ & _ & _ & _ & _ & ->). done.
Qed.

(** X9. The aggregates of a result partition its matches by supply key:
    taken together the match lists of the aggregates are the matches, each
    once; no two aggregates have the same supply key, so that there are at
    most as many aggregates as supply records; the supply of an aggregate is
    a supply record of the input; the matches of an aggregate all have its
    supply key; and the best match of an aggregate is one of its matches, of
    the greatest score among them. *)
Theorem aggregates_partition_matches lim demand supply min_score best_match_only r :
  match_records lim demand supply min_score best_match_only = Some r ->
  let aggs := MatchingResult.supply_aggregates r in
  mjoin (Aggregate.matches <$> aggs) ≡ₚ MatchingResult.demand_matches r /\
  NoDup ((fun a => get_supply_key (Aggregate.supply a)) <$> aggs) /\
  (length aggs <= length supply)%nat /\
  forall a, a ∈ aggs ->
    Aggregate.supply a ∈ supply /\
    Aggregate.best_match a ∈ Aggregate.matches a /\
    forall m, m ∈ Aggregate.matches a ->
      supply_key m = get_supply_key (Aggregate.supply a) /\
      (Match.score m <= Match.score (Aggregate.best_match a))%Z.
Proof.
  intros H aggs.
  pose proof (demand_matches_subseteq _ _ _ _ _ _ H) as Hsub.
  apply match_records_inv in H as (_ & Ha & _). fold aggs in Ha.
  destruct (aggregate_by_supply_partition _ _ Ha) as (Hjoin & Hnd & Hall).
  assert (forall a, a ∈ aggs -> Aggregate.supply a ∈ supply) as Hsupply.
  { intros a Hin. destruct (Hall a Hin) as (-> & Hbest & _).
    apply (passing_match_supply lim demand supply min_score), Hsub.
    rewrite <- Hjoin. apply list_elem_of_join.
    exists (Aggregate.matches a). split; [done|]. by apply list_elem_of_fmap_2. }
  split; [done|]. split; [done|]. split.
  - rewrite <- (length_fmap (fun a => get_supply_key (Aggregate.supply a)) aggs).
    rewrite <- (length_fmap get_supply_key supply).
    apply submseteq_length, NoDup_submseteq; [done|].
    intros k Hk. apply list_elem_of_fmap in Hk as (a & -> & Hin).
    by apply list_elem_of_fmap_2, Hsupply.
  - intros a Hin. destruct (Hall a Hin) as (_ & Hbest & Hms). by split; [apply Hsupply|].
Qed.

(** ** An integer threshold as a float *)

Section IntFloat.

Local Open Scope Z_scope.

Lemma binary_round_aux_exact sx pm e :
  2 ^ 52 <= Zpos pm < 2 ^ 53 -> -1074 <= e <= 971 ->
  binary_round_aux Py.prec Py.emax sx (Zpos pm) e loc_Exact = S754_finite sx pm e.
Proof.
  intros Hm He. unfold binary_round_aux.
  rewrite shr_fexp_53 by lia. cbv beta iota zeta.
  rewrite shr_m_of_loc, loc_of_shr_record_of_loc.
  change (round_nearest_even (Zpos pm) loc_Exact) with (Zpos pm).
  rewrite shr_fexp_53 by lia. cbv beta iota zeta.
  rewrite shr_m_of_loc.
  replace (e <=? Py.emax - Py.prec) with true; [done|].
  symmetry. apply Z.leb_le. unfold Py.emax, Py.prec. lia.
Qed.

Lemma iter_xO p n : Zpos (Pos.iter xO p n) = Zpos p * 2 ^ Zpos n.
Proof.
  induction n as [|n IH] using Pos.peano_ind.
  - simpl. lia.
  - rewrite Pos.iter_succ, Pos2Z.inj_succ, Z.pow_succ_r by lia.
    rewrite Pos2Z.inj_xO, IH. lia.
Qed.

(** The float of a natural number below [2^53] is that number, and the
    comparison of an integer with it is the comparison of integers. *)
Lemma float_of_int_ge t f z :
  0 <= t < 2 ^ 53 -> Py.float_of_int t = Some f ->
  Py.int_ge_float z f = (t <=? z).
Proof.
  intros Ht Hf. unfold Py.float_of_int in Hf.
  destruct t as [|p|p]; [| |lia].
  - cbn in Hf. injection Hf as <-. reflexivity.
  - unfold binary_normalize, binary_round, shl_align, fexp, emin in Hf.
    pose proof (digits2_pos_bounds p) as [Hlo Hhi].
    set (d := Zpos (digits2_pos p)) in *.
    assert (0 < d) by (unfold d; lia).
    assert (d <= 53) as Hd.
    { destruct (Z.le_gt_cases d 53) as [|Hgt]; [done|]. exfalso.
      assert (2 ^ 53 <= 2 ^ (d - 1)) by (apply Z.pow_le_mono_r; lia). lia. }
    replace (Z.max (d + 0 - Py.prec) (3 - Py.emax - Py.prec) - 0) with (d - 53) in Hf
      by (unfold Py.prec, Py.emax; lia).
    replace (Z.max (d + 0 - Py.prec) (3 - Py.emax - Py.prec)) with (d - 53) in Hf
      by (unfold Py.prec, Py.emax; lia).
    destruct (d - 53) as [|q|q] eqn:Hq; [|lia|].
    + assert (d = 53) as Hd53 by lia. rewrite Hd53 in *.
      rewrite binary_round_aux_exact in Hf by lia.
      cbn [Py.is_finite] in Hf. injection Hf as <-.
      unfold Py.int_ge_float. f_equal. lia.
    + assert (Zpos q = 53 - d) as Hq' by lia.
      assert (2 ^ 52 = 2 ^ (d - 1) * 2 ^ Zpos q) as Hpow.
      { replace 52 with ((d - 1) + Zpos q) at 1 by lia.
        rewrite !Z.pow_add_r by lia. reflexivity. }
      assert (2 ^ 53 = 2 ^ d * 2 ^ Zpos q) as Hpow'.
      { rewrite <- Z.pow_add_r by lia. f_equal. lia. }
      assert (0 < 2 ^ Zpos q) by (apply Z.pow_pos_nonneg; lia).
      rewrite binary_round_aux_exact in Hf.
      * cbn [Py.is_finite] in Hf. injection Hf as <-.
        unfold Py.int_ge_float. rewrite iter_xO.
        destruct (Z.leb_spec (Zpos p) z); [apply Z.leb_le | apply Z.leb_gt]; nia.
      * rewrite iter_xO, Hpow, Hpow'. nia.
      * lia.
Qed.

End IntFloat.

(** ** Filtering and the sort *)

Section SortFilter.

Context {A : Type} (key : A -> Z) (P : A -> Prop) `{!forall x, Decision (P x)}.

Lemma insert_desc_head x l :
  Forall (fun y => (key y <= key x)%Z) l -> insert_desc key x l = x :: l.
Proof.
  destruct 1 as [|y l Hy _]; simpl; [done|].
  destruct (Z.ltb_spec (key x) (key y)); [lia | done].
Qed.

Lemma filter_insert_desc x l :
  descending key l ->
  filter P (insert_desc key x l)
  = if decide (P x) then insert_desc key x (filter P l) else filter P l.
Proof.
  induction 1 as [|y l Hl IH Hy]; simpl.
  - rewrite filter_cons, filter_nil. by destruct (decide (P x)).
  - destruct (Z.ltb_spec (key x) (key y)) as [Hlt|Hge].
    + rewrite !(filter_cons _ y), IH.
      destruct (decide (P x)), (decide (P y)); try done.
      simpl. destruct (Z.ltb_spec (key x) (key y)); [done | lia].
    + rewrite (filter_cons _ x). destruct (decide (P x)); [|done].
      symmetry. apply insert_desc_head.
      apply Forall_forall. intros z Hz.
      apply list_elem_of_filter in Hz as [_ Hz].
      apply elem_of_cons in Hz as [->|Hz]; [lia|].
      rewrite Forall_forall in Hy. specialize (Hy z Hz). simpl in Hy. lia.
Qed.

(** Filtering commutes with the stable sort. *)
Lemma filter_sort_desc l :
  filter P (sort_desc key l) = sort_desc key (filter P l).
Proof.
  induction l as [|x l IH]; [done|].
  cbn [sort_desc fold_right]. fold (sort_desc key l).
  rewrite filter_insert_desc by apply sort_desc_descending.
  rewrite filter_cons, IH. by destruct (decide (P x)).
Qed.

End SortFilter.

Lemma firsts_filter c seen ms :
  descending Match.score ms ->
  filter (fun m => (c <= Match.score m)%Z) (firsts seen ms)
  = firsts seen (filter (fun m => (c <= Match.score m)%Z) ms).
Proof.
  intros Hms. revert seen.
  induction Hms as [|m ms Hms IH Hm]; intros seen; [done|].
  cbn [firsts]. rewrite (filter_cons _ m ms).
  case_bool_decide as Hseen.
  - destruct (decide (c <= Match.score m)%Z); [|apply IH].
    cbn [firsts]. rewrite bool_decide_eq_true_2 by done. apply IH.
  - rewrite filter_cons.
    destruct (decide (c <= Match.score m)%Z) as [Hc|Hc].
    + cbn [firsts]. rewrite bool_decide_eq_false_2 by done. f_equal. apply IH.
    + rewrite IH. rewrite (filter_none _ ms); [done|].
      apply Forall_forall. intros x Hx.
      rewrite Forall_forall in Hm. specialize (Hm x Hx). simpl in Hm. lia.
Qed.

Lemma passing_matches_filter lim demand supply min1 min2 :
  (min1 <= min2)%Z ->
  passing_matches lim demand supply min2
  = filter (fun m => (min2 <= Match.score m)%Z) (passing_matches lim demand supply min1).
Proof.
  intros Hle. unfold passing_matches. rewrite list_filter_filter_l; [done|].
  intros m. simpl. lia.
Qed.

(** X10. Raising the threshold removes matches and does nothing else: in
    either mode, the matches at a higher [min_score] are the matches at the
    lower one whose score reaches the higher threshold, in the same
    order. *)
Theorem raising_min_score_filters lim demand supply min1 min2 best_match_only r1 r2 :
  match_records lim demand supply min1 best_match_only = Some r1 ->
  match_records lim demand supply min2 best_match_only = Some r2 ->
  (min1 <= min2)%Z ->
  MatchingResult.demand_matches r2
  = filter (fun m => (min2 <= Match.score m)%Z) (MatchingResult.demand_matches r1).
Proof.
  intros H1 H2 Hle.
  apply match_records_shape in H1 as (aggs1 & avg1 & _ & _ & _ & ->).
  apply match_records_shape in H2 as (aggs2 & avg2 & _ & _ & _ & ->).
  cbn [MatchingResult.demand_matches].
  rewrite (passing_matches_filter lim demand supply min1 min2 Hle).
  rewrite <- filter_sort_desc.
  destruct best_match_only; [|done].
  rewrite !get_best_match_per_demand_firsts.
  symmetry. apply firsts_filter, sort_desc_descending.
Qed.

(** ** [filter_by_score] *)

Lemma filter_by_score_shape company_name r f r' :
  filter_by_score company_name r f = Some r' ->
  let filtered := filter (fun m => passes f m) (MatchingResult.demand_matches r) in
  exists avg names,
    average_score (Match.score <$> filtered) = Some avg /\
    mapM (domain_or_company_name company_name) filtered = Some names /\
    r' = MatchingResult.mk filtered
           (omap (filter_aggregate f) (MatchingResult.supply_aggregates r))
           (Stats.mk (Stats.total_demand (MatchingResult.stats r))
              (Stats.total_supply (MatchingResult.stats r))
              (length filtered) (size (list_to_set names : gset string)) avg).
Proof.
  unfold filter_by_score. intros H.
  destruct (average_score _) as [avg|] eqn:Hv; [|discriminate].
  cbn [mbind option_bind] in H.
  destruct (mapM _ _) as [names|] eqn:Hn; [|discriminate].
  cbn [mbind option_bind] in H. injection H as <-.
  exists avg, names. done.
Qed.

Lemma filter_passes t f (l : list Match.t) :
  (0 <= t < 2 ^ 53)%Z -> Py.float_of_int t = Some f ->
  filter (fun m => passes f m) l = filter (fun m => (t <= Match.score m)%Z) l.
Proof.
  intros Ht Hf. apply list_filter_iff. intros m. unfold passes.
  rewrite (float_of_int_ge t f _ Ht Hf). rewrite Is_true_true. apply Z.leb_le.
Qed.

(** X11. Filtering the result of [match_records] (without
    [best_match_only]) at a whole threshold [t] gives the matches, the
    number of matches and the average score that [match_records] gives at
    the threshold [max min_score t]. *)
Theorem filter_by_score_as_higher_threshold
    lim company_name demand supply min_score t f r r' :
  match_records lim demand supply min_score false = Some r ->
  (0 <= t < 2 ^ 53)%Z -> Py.float_of_int t = Some f ->
  filter_by_score company_name r f = Some r' ->
  exists r2,
    match_records lim demand supply (Z.max min_score t) false = Some r2 /\
    MatchingResult.demand_matches r' = MatchingResult.demand_matches r2 /\
    Stats.total_demand (MatchingResult.stats r')
    = Stats.total_demand (MatchingResult.stats r2) /\
    Stats.total_supply (MatchingResult.stats r')
    = Stats.total_supply (MatchingResult.stats r2) /\
    Stats.total_matches (MatchingResult.stats r')
    = Stats.total_matches (MatchingResult.stats r2) /\
    Stats.avg_score (MatchingResult.stats r') = Stats.avg_score (MatchingResult.stats r2).
Proof.
  intros Hr Ht Hf Hr'.
  apply match_records_shape in Hr as (aggs & avg & _ & _ & Hall & ->).
  apply filter_by_score_shape in Hr' as (avg' & names & Hv & _ & ->).
  cbn [MatchingResult.demand_matches MatchingResult.stats Stats.total_demand
       Stats.total_supply Stats.total_matches Stats.avg_score] in *.
  rewrite (filter_passes t f _ Ht Hf) in *.
  rewrite filter_sort_desc in *.
  assert (filter (fun m => (t <= Match.score m)%Z)
            (passing_matches lim demand supply min_score)
          = passing_matches lim demand supply (Z.max min_score t)) as Hpass.
  { unfold passing_matches. rewrite list_filter_filter.
    apply list_filter_iff. intros m. lia. }
  rewrite Hpass in *.
  destruct (match_records_intro lim demand supply (Z.max min_score t) false avg' Hall Hv)
    as [r2 Hr2].
  exists r2. split; [done|].
  apply match_records_shape in Hr2 as (aggs2 & avg2 & _ & Hv2 & _ & ->).
  cbn [MatchingResult.demand_matches MatchingResult.stats Stats.total_demand
       Stats.total_supply Stats.total_matches Stats.avg_score].
  repeat split. congruence.
Qed.

Lemma filter_join {A} (P : A -> Prop) `{!forall x, Decision (P x)} (ls : list (list A)) :
  filter P (mjoin ls) = mjoin (filter P <$> ls).
Proof.
  induction ls as [|l ls IH]; [done|].
  rewrite fmap_cons.
  change (filter P (l ++ mjoin ls) = filter P l ++ mjoin (filter P <$> ls)).
  by rewrite filter_app, IH.
Qed.

Lemma filter_aggregate_inv f agg a :
  filter_aggregate f agg = Some a ->
  Aggregate.matches a = filter (fun m => passes f m) (Aggregate.matches agg) /\
  Aggregate.matches a <> [] /\
  Aggregate.supply a = Aggregate.supply agg /\
  head (Aggregate.matches a) = Some (Aggregate.best_match a) /\
  Aggregate.total_matches a = length (Aggregate.matches a).
Proof.
  unfold filter_aggregate.
  destruct (filter _ _) as [|b rest] eqn:Hfl; [discriminate|].
  intros [= <-]. simpl. done.
Qed.

Lemma filter_aggregates_join f aggs :
  mjoin (Aggregate.matches <$> omap (filter_aggregate f) aggs)
  = filter (fun m => passes f m) (mjoin (Aggregate.matches <$> aggs)).
Proof.
  induction aggs as [|agg aggs IH]; [done|].
  rewrite fmap_cons.
  change (mjoin (Aggregate.matches agg :: (Aggregate.matches <$> aggs)))
    with (Aggregate.matches agg ++ mjoin (Aggregate.matches <$> aggs)).
  rewrite filter_app, <- IH. cbn [omap list_omap].
  destruct (filter_aggregate f agg) as [a|] eqn:Ha.
  - apply filter_aggregate_inv in Ha as (<- & _). by rewrite fmap_cons.
  - unfold filter_aggregate in Ha.
    destruct (filter _ (Aggregate.matches agg)); [done | discriminate].
Qed.

(** X12. After [filter_by_score] on a result of [match_records], the
    aggregates still partition the matches that are left; every aggregate
    left has a match, its matches all reach the threshold and are in
    descending order of score, its best match is the first of them, and its
    [total_matches] is now the number of its matches, which is at least the
    number of their demand keys that [match_records] counts. *)
Theorem filter_by_score_aggregates
    lim company_name demand supply min_score best_match_only f r r' :
  match_records lim demand supply min_score best_match_only = Some r ->
  filter_by_score company_name r f = Some r' ->
  mjoin (Aggregate.matches <$> MatchingResult.supply_aggregates r')
  ≡ₚ MatchingResult.demand_matches r' /\
  forall a, a ∈ MatchingResult.supply_aggregates r' ->
    head (Aggregate.matches a) = Some (Aggregate.best_match a) /\
    descending Match.score (Aggregate.matches a) /\
    (forall m, m ∈ Aggregate.matches a -> Py.int_ge_float (Match.score m) f = true) /\
    Aggregate.total_matches a = length (Aggregate.matches a) /\
    (size (unique_demand_keys (Aggregate.matches a)) <= Aggregate.total_matches a)%nat.
Proof.
  intros Hr Hr'.
  apply match_records_shape in Hr as (aggs & avg & Ha & _ & _ & ->).
  apply filter_by_score_shape in Hr' as (avg' & names & _ & _ & ->).
  cbn [MatchingResult.demand_matches MatchingResult.supply_aggregates] in *.
  split.
  - rewrite filter_aggregates_join. by rewrite (aggregate_by_supply_join _ _ Ha).
  - intros a Hin. apply list_elem_of_omap in Hin as (agg & Hagg & Hfa).
    apply filter_aggregate_inv in Hfa as (Hms & _ & _ & Hbest & Htotal).
    destruct (aggregate_by_supply_inv _ _ _ Ha Hagg) as (_ & Hdesc & _).
    split; [done|]. split.
    { rewrite Hms. eapply descending_sublist; [apply sublist_filter | done]. }
    split.
    { intros m Hm. rewrite Hms in Hm. apply list_elem_of_filter in Hm as [Hm _].
      by apply Is_true_true. }
    split; [done|]. rewrite Htotal. unfold unique_demand_keys.
    etrans; [apply size_list_to_set_le|]. by rewrite length_map.
Qed.

(** ** The scorers *)

Lemma existsb_ext_all {A} (f g : A -> bool) l :
  (forall x, f x = g x) -> existsb f l = existsb g l.
Proof. intros H. induction l as [|x l IH]; simpl; [done|]. by rewrite H, IH. Qed.

(** X13. The industry affinity does not depend on which record is the
    demand and which the supply. *)
Theorem score_industry_symmetric d s : score_industry d s = score_industry s d.
Proof.
  unfold score_industry.
  rewrite (orb_comm (negb (field_truthy d))).
  destruct (_ || _); [done|].
  destruct (first_or_self d) as [a|], (first_or_self s) as [b|];
    cbn [mbind option_bind]; try done.
  rewrite (String.eqb_sym (Py.lower a)).
  destruct (String.eqb _ _); [done|].
  rewrite (orb_comm (Py.contains (Py.lower a) (Py.lower b))).
  destruct (_ || _); [done|].
  erewrite existsb_ext_all; [done|]. intros g. apply andb_comm.
Qed.

Lemma score_industry_30 d s :
  score_industry d s = Some 30%Z <-> same_industry d s.
Proof.
  unfold score_industry, same_industry.
  destruct (field_truthy d) eqn:Hd, (field_truthy s) eqn:Hs; cbn [negb orb];
    try (split; [discriminate | intros (? & ? & _); discriminate]).
  destruct (first_or_self d) as [a|] eqn:Ha.
  2:{ destruct d as [|[|]]; discriminate. }
  destruct (first_or_self s) as [b|] eqn:Hb.
  2:{ destruct s as [|[|]]; discriminate. }
  cbn [mbind option_bind].
  destruct (String.eqb_spec (Py.lower a) (Py.lower b)) as [Heq|Hne].
  - split; [|done]. intros _. repeat split. by exists a, b.
  - split.
    + repeat case_match; discriminate.
    + intros (_ & _ & a' & b' & [= <-] & [= <-] & Heq). done.
Qed.

Lemma In_reasons_of x need_cat cap_cat i sg sz al b overlap :
  In x (reasons_of need_cat cap_cat i sg sz al b overlap) <->
  In x (when (20 <? i)%Z "Industry match")
  \/ In x (when (25 <? sg)%Z "Signal alignment")
  \/ In x (when (10 <? sz)%Z "Size fit")
  \/ In x (if (40 <=? al)%Z
           then [need_cat +:+ " need → " +:+ cap_cat +:+ " capability"]
           else when (25 <=? al)%Z "Cross-functional fit")
  \/ In x (if (20 <=? b)%Z
           then ["Strong keyword overlap (" +:+ Py.str_of_nat overlap +:+ " matches)"]
           else when (10 <=? b)%Z
                  ("Keyword overlap (" +:+ Py.str_of_nat overlap +:+ " matches)")).
Proof. unfold reasons_of. rewrite !in_app_iff. reflexivity. Qed.

Lemma alignment_reason_not_industry n c :
  n +:+ " need → " +:+ c +:+ " capability" <> "Industry match".
Proof.
  intros H. apply (f_equal has_arrow) in H.
  rewrite !has_arrow_app in H.
  replace (has_arrow " need → ") with true in H by reflexivity.
  rewrite orb_true_r in H. discriminate H.
Qed.

(** X14. The reason [Industry match] is given exactly when the two
    records both have an industry and the first entries of the two are
    equal up to the case of the letters. *)
Theorem industry_match_reason lim d s m :
  score_match lim d s = Some m ->
  (In "Industry match" (Match.reasons m) <->
   same_industry (NormalizedRecord.industry d) (NormalizedRecord.industry s)).
Proof.
  intros H.
  apply score_match_shape in H as (cap & i & sz & t & _ & Hi & _ & _ & _ & ->).
  cbn [Match.reasons]. rewrite In_reasons_of, <- score_industry_30.
  pose proof (score_industry_values _ _ _ Hi) as Hv. rewrite Hi.
  split.
  - intros [H|[H|[H|[H|H]]]]; revert H.
    + unfold industry_values in Hv. cbn [In] in Hv.
      destruct Hv as [<-|[<-|[<-|[<-|[<-|[]]]]]]; cbn; tauto.
    + intros H. exfalso. revert H. apply when_not_In. discriminate.
    + intros H. exfalso. revert H. apply when_not_In. discriminate.
    + match goal with |- In _ (if ?c then _ else _) -> _ => destruct c end.
      * cbn [In]. intros [H|[]]. by apply alignment_reason_not_industry in H.
      * intros H. exfalso. revert H. apply when_not_In. discriminate.
    + match goal with |- In _ (if ?c then _ else _) -> _ => destruct c end.
      * cbn [In]. intros [H|[]]. discriminate H.
      * intros H. exfalso. revert H. apply when_not_In. discriminate.
  - intros [= ->]. left. cbn. tauto.
Qed.

(** X15. The neutral scores mark missing data and nothing else: the
    industry affinity and the size fit are 10 exactly when one of the two
    values is missing, and the signal relevance is 5 exactly when the demand
    has no signal. *)
Theorem neutral_scores_mark_missing_data lim d s signal title :
  (score_industry d s = Some 10%Z <-> field_truthy d = false \/ field_truthy s = false) /\
  (score_size lim d s = Some 10%Z <-> field_truthy d = false \/ field_truthy s = false) /\
  (score_signal signal title s = 5%Z <-> Py.truthy signal = false).
Proof.
  split; [|split].
  - unfold score_industry.
    destruct (field_truthy d), (field_truthy s); cbn [negb orb];
      try (split; [intros _; auto | done]).
    split; [|intros [?|?]; discriminate].
    destruct (first_or_self d); [|discriminate].
    destruct (first_or_self s); [|discriminate].
    cbn [mbind option_bind]. repeat case_match; discriminate.
  - unfold score_size.
    destruct (field_truthy d), (field_truthy s); cbn [negb orb];
      try (split; [intros _; auto | done]).
    split; [|intros [?|?]; discriminate].
    destruct (first_or_self d); [|discriminate].
    destruct (first_or_self s); [|discriminate].
    cbn [mbind option_bind].
    destruct (Py.int_true_div _ _); [|discriminate].
    cbn [mbind option_bind].
    destruct (_ && _); [discriminate|]. destruct (_ && _); discriminate.
  - unfold score_signal. destruct (Py.truthy signal); cbn [negb]; [|done].
    split; [|discriminate]. repeat case_match; discriminate.
Qed.

(** ** Sizes *)

Lemma str_filter_app f a b :
  Py.str_filter f (a +:+ b) = Py.str_filter f a +:+ Py.str_filter f b.
Proof.
  induction a as [|c a IH]; simpl; [done|]. destruct (f c); simpl; by rewrite IH.
Qed.

Lemma string_length_app a b :
  String.length (a +:+ b) = (String.length a + String.length b)%nat.
Proof. induction a as [|c a IH]; simpl; [done|]. by rewrite IH. Qed.

Lemma truthy_length s : Py.truthy s = true <-> (0 < String.length s)%nat.
Proof. destruct s; simpl; split; (done || lia). Qed.

Lemma int_of_digits_go_app acc x y :
  Py.int_of_digits_go acc (x +:+ y) = Py.int_of_digits_go (Py.int_of_digits_go acc x) y.
Proof. revert acc. induction x as [|c x IH]; intros acc; simpl; [done|]. apply IH. Qed.

Lemma int_of_digits_go_acc acc y :
  Py.int_of_digits_go acc y
  = (acc * 10 ^ Z.of_nat (String.length y) + Py.int_of_digits_go 0 y)%Z.
Proof.
  revert acc. induction y as [|c y IH]; intros acc.
  - simpl. lia.
  - cbn [Py.int_of_digits_go String.length].
    rewrite (IH (10 * acc + Py.digit_val c)%Z), (IH (10 * 0 + Py.digit_val c)%Z).
    rewrite Nat2Z.inj_succ, Z.pow_succ_r by lia. lia.
Qed.

Lemma int_of_digits_go_nonneg acc y :
  (0 <= acc)%Z -> (0 <= Py.int_of_digits_go acc y)%Z.
Proof.
  revert acc. induction y as [|c y IH]; intros acc Hacc; simpl; [done|].
  apply IH. unfold Py.digit_val. lia.
Qed.

Lemma parse_size_short lim size :
  (0 < digit_count size <= 640)%nat ->
  parse_size lim size = Py.int_of_digits (Py.str_filter Py.is_digit size).
Proof.
  unfold digit_count, parse_size, int_of_str. intros [Hpos Hle].
  apply truthy_length in Hpos as ->.
  replace (640 <? _)%nat with false by (symmetry; apply Nat.ltb_ge; lia).
  reflexivity.
Qed.

(** X16. [parse_size] reads the digits of a size and nothing else. A size
    without a digit counts as 50; the result is never negative; and when a
    size is written in two parts that both have digits (a range as 11-50, a
    number with a separator as 1,000), its value is the number written
    by the digits of the two parts one after the other. *)
Theorem parse_size_reads_digits lim a b :
  (digit_count a = 0%nat -> parse_size lim a = 50%Z) /\
  (0 <= parse_size lim a)%Z /\
  ((0 < digit_count a)%nat -> (0 < digit_count b)%nat ->
   (digit_count a + digit_count b <= 640)%nat ->
   parse_size lim (a +:+ b)
   = (parse_size lim a * 10 ^ Z.of_nat (digit_count b) + parse_size lim b)%Z).
Proof.
  split; [|split].
  - unfold digit_count, parse_size. intros H.
    destruct (Py.str_filter Py.is_digit a); [done | discriminate].
  - unfold parse_size, int_of_str.
    repeat case_match; simplify_eq; try lia.
    by apply int_of_digits_go_nonneg.
  - intros Ha Hb Hle.
    assert (digit_count (a +:+ b) = (digit_count a + digit_count b)%nat) as Hab.
    { unfold digit_count. by rewrite str_filter_app, string_length_app. }
    rewrite !parse_size_short by lia.
    rewrite str_filter_app. unfold Py.int_of_digits.
    rewrite int_of_digits_go_app, int_of_digits_go_acc. reflexivity.
Qed.

(** ** The profiles *)

Lemma company_needs_ok :
  forallb (profile_ok need_labels f0_3 f0_9) company_needs = true.
Proof. vm_compute. reflexivity. Qed.

Lemma hiring_needs_ok :
  forallb (profile_ok need_labels f0_3 f0_9) hiring_needs = true.
Proof. vm_compute. reflexivity. Qed.

Lemma capabilities_ok :
  forallb (profile_ok cap_labels f0_3 f0_95) capabilities = true.
Proof. vm_compute. reflexivity. Qed.

Lemma profile_ok_In labels lo hi table p :
  forallb (profile_ok labels lo hi) table = true -> In p table ->
  Py.fle lo p.1.2 = true /\ Py.fle p.1.2 hi = true /\ is_Some (labels !! p.1.1).
Proof.
  intros Hall Hp. rewrite forallb_forall in Hall. specialize (Hall p Hp).
  unfold profile_ok in Hall.
  apply andb_true_iff in Hall as [Hall Hl]. apply andb_true_iff in Hall as [H1 H2].
  apply bool_decide_eq_true in Hl. done.
Qed.

Lemma need_profile_In d :
  let p := extract_need_from_demand d in
  In (NeedProfile.category p, NeedProfile.confidence p, NeedProfile.source p)
     (if is_hiring_data d then hiring_needs else company_needs).
Proof.
  unfold extract_need_from_demand. fold (is_hiring_data d).
  destruct (is_hiring_data d); cbn [negb];
    repeat case_match;
    cbn [NeedProfile.category NeedProfile.confidence NeedProfile.source
         hiring_needs company_needs In]; tauto.
Qed.

(** X17. The need that is read from a demand record. A record of the
    kind [HIRING_ROLE] gets one of the six hiring needs, [growth] or
    [general]; any other record gets one of the five industry needs,
    [growth] or [company]; the confidence and the source are those of the
    category, the confidence is between 0.3 and 0.9, and the category has a
    label for the tier reason. *)
Theorem need_profile_by_kind d :
  let p := extract_need_from_demand d in
  In (NeedProfile.category p, NeedProfile.confidence p, NeedProfile.source p)
     (if is_hiring_data d then hiring_needs else company_needs) /\
  Py.fle f0_3 (NeedProfile.confidence p) = true /\
  Py.fle (NeedProfile.confidence p) f0_9 = true /\
  is_Some (need_labels !! NeedProfile.category p).
Proof.
  intros p. pose proof (need_profile_In d) as Hin. fold p in Hin.
  split; [done|].
  destruct (is_hiring_data d).
  - exact (profile_ok_In _ _ _ _ _ hiring_needs_ok Hin).
  - exact (profile_ok_In _ _ _ _ _ company_needs_ok Hin).
Qed.

Lemma capability_profile_In s cap :
  extract_capability_from_supply s = Some cap ->
  In (CapabilityProfile.category cap, CapabilityProfile.confidence cap,
      CapabilityProfile.source cap) capabilities.
Proof.
  unfold extract_capability_from_supply.
  destruct (first_or_self _) as [raw|]; [|discriminate].
  cbn [mbind option_bind]. intros [= <-].
  repeat case_match;
    cbn [CapabilityProfile.category CapabilityProfile.confidence
         CapabilityProfile.source capabilities In]; tauto.
Qed.

Lemma extract_capability_None s :
  extract_capability_from_supply s = None <-> NormalizedRecord.industry s = FList [].
Proof.
  unfold extract_capability_from_supply.
  destruct (NormalizedRecord.industry s) as [x|[|x l]]; cbn; split; done.
Qed.

(** X18. The capability that is read from a supply record.
    [extract_capability_from_supply] raises exactly when the industry of
    the record is the empty list. Otherwise the profile is one of fourteen:
    its category is one of the five providers or of the seven contacts, with
    the confidence and the source of the category (three for a recruiting
    provider); the confidence is between 0.3 and 0.95, and the category has
    a label for the tier reason. *)
Theorem capability_profile_table s :
  (extract_capability_from_supply s = None <-> NormalizedRecord.industry s = FList []) /\
  forall cap, extract_capability_from_supply s = Some cap ->
    In (CapabilityProfile.category cap, CapabilityProfile.confidence cap,
        CapabilityProfile.source cap) capabilities /\
    Py.fle f0_3 (CapabilityProfile.confidence cap) = true /\
    Py.fle (CapabilityProfile.confidence cap) f0_95 = true /\
    is_Some (cap_labels !! CapabilityProfile.category cap).
Proof.
  split; [apply extract_capability_None|].
  intros cap Hcap. apply capability_profile_In in Hcap as Hin.
  split; [done|]. exact (profile_ok_In _ _ _ _ _ capabilities_ok Hin).
Qed.

(** ** Resolution to a need *)

Lemma lower_char_idempotent c : Py.lower_char (Py.lower_char c) = Py.lower_char c.
Proof. destruct c as [[] [] [] [] [] [] [] []]; reflexivity. Qed.

Lemma lower_idempotent s : Py.lower (Py.lower s) = Py.lower s.
Proof. induction s as [|c s IH]; simpl; [done|]. by rewrite lower_char_idempotent, IH. Qed.

(** X19. [resolve_ambiguous_term] returns [need] exactly on the demand
    side, for one of the six ambiguous terms, when the text has a word of
    the hiring context; it returns nothing for any other term; and it does
    not depend on the case of the term. *)
Theorem need_resolution_iff term ctx :
  (resolve_ambiguous_term term ctx = Some need <->
   side ctx = demand /\ Py.lower term ∈ need_terms /\
   has_hiring_context (Py.lower (text ctx)) = true) /\
  (Py.lower term ∉ need_terms -> resolve_ambiguous_term term ctx = None) /\
  resolve_ambiguous_term (Py.lower term) ctx = resolve_ambiguous_term term ctx.
Proof.
  split; [|split].
  - unfold resolve_ambiguous_term, need_terms.
    rewrite !elem_of_cons, elem_of_nil.
    destruct (in_list (Py.lower term) _) eqn:He.
    { apply in_list_elem_of in He.
      rewrite !elem_of_cons, elem_of_nil in He.
      destruct (side ctx), (has_hiring_context _), (has_recruiting_context _);
        cbn [side_eqb andb]; split; try discriminate; try tauto;
        intros (? & ? & ?); discriminate. }
    assert (~ (Py.lower term = "engineering" \/ Py.lower term = "engineer"
               \/ Py.lower term = "engineers")) as Hne.
    { intros H. apply not_true_iff_false in He. apply He, in_list_elem_of.
      rewrite !elem_of_cons. tauto. }
    destruct (String.eqb_spec (Py.lower term) "sales") as [Hs|Hs];
      [|destruct (String.eqb_spec (Py.lower term) "marketing") as [Hm|Hm];
        [|destruct (String.eqb_spec (Py.lower term) "growth") as [Hg|Hg]]];
      destruct (side ctx); try destruct (has_hiring_context _);
      try destruct (has_recruiting_context _);
      cbn [side_eqb andb]; split; try discriminate; try tauto;
      intros (? & ? & ?); try discriminate; tauto.
  - unfold resolve_ambiguous_term, need_terms.
    rewrite !elem_of_cons, elem_of_nil. intros Hnot.
    destruct (in_list (Py.lower term) _) eqn:He.
    { apply in_list_elem_of in He.
      rewrite !elem_of_cons, elem_of_nil in He. tauto. }
    destruct (String.eqb_spec (Py.lower term) "sales"); [tauto|].
    destruct (String.eqb_spec (Py.lower term) "marketing"); [tauto|].
    destruct (String.eqb_spec (Py.lower term) "growth"); [tauto|]. done.
  - unfold resolve_ambiguous_term. by rewrite lower_idempotent.
Qed.

(** ** Tokens *)

Lemma str_forallb_app f a b :
  str_forallb f (a +:+ b) = str_forallb f a && str_forallb f b.
Proof. induction a as [|c a IH]; simpl; [done|]. by rewrite IH, andb_assoc. Qed.

Lemma split_go_forall f cur s :
  str_forallb f cur = true ->
  str_forallb (fun c => Py.is_space c || f c) s = true ->
  Forall (fun t => str_forallb f t = true) (Py.split_go cur s).
Proof.
  revert cur. induction s as [|c s IH]; intros cur Hcur Hs; simpl.
  - destruct (Py.truthy cur); by repeat constructor.
  - simpl in Hs. apply andb_true_iff in Hs as [Hc Hs].
    destruct (Py.is_space c) eqn:Hsp.
    + destruct (Py.truthy cur); [constructor; [done|]|]; by apply IH.
    + apply IH; [|done]. rewrite str_forallb_app. simpl in *.
      by rewrite Hcur, Hc.
Qed.

Lemma lower_char_not_upper c : Py.is_upper (Py.lower_char c) = false.
Proof. destruct c as [[] [] [] [] [] [] [] []]; reflexivity. Qed.

Lemma cleaned_chars text :
  str_forallb (fun c => Py.is_space c || is_lower_word c)
    (Py.str_map (fun c => if Py.is_word c || Py.is_space c then c else " "%char)
       (Py.lower text)) = true.
Proof.
  induction text as [|c text IH]; [done|].
  cbn [Py.lower Py.str_map str_forallb]. rewrite IH, andb_true_r.
  unfold is_lower_word.
  destruct (Py.is_word (Py.lower_char c)) eqn:Hw; cbn [orb].
  - rewrite Hw, lower_char_not_upper. apply orb_true_r.
  - destruct (Py.is_space (Py.lower_char c)) eqn:Hsp; [by rewrite Hsp | reflexivity].
Qed.

Lemma not_upper_lower s :
  str_forallb (fun c => negb (Py.is_upper c)) s = true -> Py.lower s = s.
Proof.
  induction s as [|c s IH]; simpl; [done|].
  intros [Hc Hs]%andb_true_iff. rewrite IH by done.
  unfold Py.lower_char. by apply negb_true_iff in Hc as ->.
Qed.

Lemma str_forallb_impl (f g : ascii -> bool) s :
  (forall c, f c = true -> g c = true) ->
  str_forallb f s = true -> str_forallb g s = true.
Proof.
  intros Hfg. induction s as [|c s IH]; simpl; [done|].
  intros [Hc Hs]%andb_true_iff. by rewrite Hfg, IH.
Qed.

Lemma extract_tokens_spec text t :
  t ∈ extract_tokens text ->
  (2 < String.length t)%nat /\ str_forallb is_lower_word t = true /\ Py.lower t = t.
Proof.
  unfold extract_tokens. destruct (Py.truthy text); cbn [negb].
  2:{ by intros ?%elem_of_nil. }
  intros [Hlen Ht]%list_elem_of_filter.
  apply bool_decide_unpack in Hlen.
  pose proof (split_go_forall is_lower_word EmptyString _ eq_refl (cleaned_chars text))
    as Hall.
  rewrite Forall_forall in Hall. specialize (Hall t Ht).
  split; [done|]. split; [done|].
  apply not_upper_lower. revert Hall. apply str_forallb_impl.
  unfold is_lower_word. intros c [_ ?]%andb_true_iff. done.
Qed.


(** ** The overlap and the bonus *)

Lemma overlap_intersection (D S : gset string) :
  matchedTokens (compute_semantic_overlap D S) = D ∩ S.
Proof.
  unfold compute_semantic_overlap. cbn [matchedTokens].
  apply set_eq. intros t. rewrite elem_of_filter, elem_of_intersection. tauto.
Qed.

Lemma overlap_count (D S : gset string) :
  overlapCount (compute_semantic_overlap D S) = size (D ∩ S).
Proof. by rewrite <- overlap_intersection. Qed.

(** X21. The overlap of two token sets is their intersection: the count
    is the same when the two sets are exchanged, and it is at most the size
    of either. *)
Theorem semantic_overlap_symmetric (D S : gset string) :
  matchedTokens (compute_semantic_overlap D S) = D ∩ S /\
  overlapCount (compute_semantic_overlap D S)
  = overlapCount (compute_semantic_overlap S D) /\
  (overlapCount (compute_semantic_overlap D S) <= size D)%nat /\
  (overlapCount (compute_semantic_overlap D S) <= size S)%nat.
Proof.
  split; [apply overlap_intersection|].
  rewrite !overlap_count. split; [|split].
  - f_equal. apply set_eq. intros t. rewrite !elem_of_intersection. tauto.
  - apply subseteq_size. apply intersection_subseteq_l.
  - apply subseteq_size. apply intersection_subseteq_r.
Qed.

Lemma base_subseteq_expanded tokens ctx :
  list_to_set (Py.lower <$> tokens) ⊆ expanded (expand_semantic_signals tokens ctx).
Proof.
  unfold expand_semantic_signals. simpl.
  etransitivity; [|apply expand_text_mono].
  unfold expand_tokens. apply (fold_expand_token_mono ctx tokens (_, ∅)).
Qed.

Lemma extracted_token_expanded text side0 t :
  t ∈ extract_tokens text ->
  t ∈ expanded (expand_semantic_signals (extract_tokens text)
                  {| side := side0; text := text |}).
Proof.
  intros Ht. apply base_subseteq_expanded, elem_of_list_to_set, list_elem_of_fmap.
  exists t. split; [|done]. symmetry. by apply extract_tokens_spec in Ht as (_ & _ & ?).
Qed.

Lemma calculate_semantic_bonus_mono n k :
  (n <= k)%nat -> (calculate_semantic_bonus n <= calculate_semantic_bonus k)%Z.
Proof.
  intros Hle. unfold calculate_semantic_bonus.
  destruct (Nat.leb_spec 5 n), (Nat.leb_spec 5 k), (Nat.leb_spec 3 n),
    (Nat.leb_spec 3 k), (Nat.leb_spec 1 n), (Nat.leb_spec 1 k); lia.
Qed.

(** X22. The bonus does not decrease when the overlap grows, it is 0 only
    for an empty overlap, and a token that the two texts share is a matched
    token and gives a bonus of 10 or more. *)
Theorem shared_token_gives_bonus demand_text supply_text t :
  let r := get_semantic_score demand_text supply_text in
  (forall n k, (n <= k)%nat ->
     (calculate_semantic_bonus n <= calculate_semantic_bonus k)%Z) /\
  (bonus r = 0%Z <-> score_overlapCount r = 0%nat) /\
  (t ∈ extract_tokens demand_text -> t ∈ extract_tokens supply_text ->
   t ∈ score_matchedTokens r /\ (10 <= bonus r)%Z).
Proof.
  intros r. split; [apply calculate_semantic_bonus_mono|].
  subst r. unfold get_semantic_score. cbn [bonus score_overlapCount score_matchedTokens].
  set (D := expanded (expand_semantic_signals (extract_tokens demand_text) _)).
  set (S := expanded (expand_semantic_signals (extract_tokens supply_text) _)).
  split.
  - unfold calculate_semantic_bonus.
    destruct (overlapCount _) as [|[|[|[|[|n]]]]]; cbn; split; (done || lia).
  - intros Hd Hs.
    assert (t ∈ D ∩ S) as Hin.
    { apply elem_of_intersection. split; by apply extracted_token_expanded. }
    rewrite overlap_intersection, overlap_count. split; [done|].
    assert (1 <= size (D ∩ S))%nat as Hsize.
    { assert (size (D ∩ S) <> 0%nat); [|lia].
      rewrite size_empty_iff. intros HE. apply HE in Hin.
      by apply elem_of_empty in Hin. }
    etrans; [|apply calculate_semantic_bonus_mono, Hsize]. done.
Qed.

(** ** Where the expansions come from *)

Lemma add_tagged_explained base tag st x :
  explained base st -> explained base (add_tagged tag st x).
Proof.
  intros [Heq Hne]. unfold add_tagged. split; cbn [fst snd].
  - rewrite dom_insert_L, Heq. apply set_eq. intros e.
    rewrite !elem_of_union. tauto.
  - intros e l. destruct (decide (e = Py.lower x)) as [->|Hx].
    + rewrite lookup_insert_eq. intros [= <-]. by destruct (default [] _).
    + rewrite lookup_insert_ne by done. apply Hne.
Qed.

Lemma add_all_explained base tag exps st :
  explained base st -> explained base (add_all tag exps st).
Proof.
  unfold add_all. revert st. induction exps as [|x exps IH]; intros st Hst; [done|].
  simpl. by apply IH, add_tagged_explained.
Qed.

Lemma add_all_new_explained base tag exps st :
  explained base st -> explained base (add_all_new tag exps st).
Proof.
  unfold add_all_new. revert st. induction exps as [|x exps IH]; intros st Hst; [done|].
  simpl. apply IH. unfold add_new. case_bool_decide; [done|].
  by apply add_tagged_explained.
Qed.

Lemma expand_token_explained base ctx st token :
  explained base st -> explained base (expand_token ctx st token).
Proof.
  intros Hst. unfold expand_token.
  destruct (expansion_map (side ctx) !! Py.lower token) as [exps|];
    destruct (resolve_ambiguous_term _ _) as [[]|];
    try destruct (side_eqb _ _);
    repeat apply add_all_explained; done.
Qed.

Lemma expand_text_explained base ctx st :
  explained base st -> explained base (expand_text ctx st).
Proof.
  intros Hst. unfold expand_text.
  destruct (side_eqb (side ctx) supply && _);
    destruct (side_eqb (side ctx) demand && _);
    repeat apply add_all_new_explained; done.
Qed.

(** X23. Every expansion is accounted for: the expanded set is the base
    set together with the tokens that have reasons, and a token that has
    reasons has at least one. *)
Theorem expansions_have_reasons tokens ctx :
  let r := expand_semantic_signals tokens ctx in
  expanded r = base r ∪ dom (reasons r) /\
  forall e l, reasons r !! e = Some l -> l <> [].
Proof.
  unfold expand_semantic_signals. cbn [negb SEMANTIC_MATCHING_ENABLED base expanded reasons].
  apply (expand_text_explained _ ctx). unfold expand_tokens.
  assert (explained (list_to_set (map Py.lower tokens))
            (list_to_set (map Py.lower tokens), ∅)) as Hinit.
  { split; cbn [fst snd].
    - rewrite dom_empty_L. apply set_eq. intros e. rewrite elem_of_union, elem_of_empty. tauto.
    - intros e l. by rewrite lookup_empty. }
  revert Hinit.
  generalize (list_to_set (map Py.lower tokens) : gset string) at 1 3.
  intros B.
  generalize (list_to_set (map Py.lower tokens) : gset string,
              ∅ : gmap string (list string)).
  induction tokens as [|t tokens IH]; intros st Hst; [done|].
  simpl. by apply IH, expand_token_explained.
Qed.

Lemma add_all_within base m tag exps st k :
  m !! k = Some exps -> within base m st -> within base m (add_all tag exps st).
Proof.
  intros Hk. unfold add_all.
  assert (forall todo st, todo ⊆ exps -> within base m st ->
            within base m (fold_left (add_tagged tag) todo st)) as Hloop.
  { intros todo. induction todo as [|x todo IH]; intros st' Hsub Hst; [done|].
    simpl. apply IH; [set_solver|].
    intros e. rewrite add_tagged_fst, elem_of_union, elem_of_singleton.
    intros [->|He]; [|by apply Hst].
    right. exists k, exps. split; [done|]. apply list_elem_of_fmap_2, Hsub. left. }
  by apply Hloop.
Qed.

Lemma add_all_new_within base m tag exps st k :
  m !! k = Some exps -> within base m st -> within base m (add_all_new tag exps st).
Proof.
  intros Hk Hst e. destruct (add_all_new_spec tag exps st) as [-> _].
  rewrite elem_of_union, elem_of_list_to_set. intros [He|He]; [by apply Hst|].
  right. by exists k, exps.
Qed.

Lemma hiring_lookup : DEMAND_NEED_EXPANSIONS !! "hiring" = Some hiring_expansions.
Proof. vm_compute. reflexivity. Qed.

Lemma recruiting_lookup :
  SUPPLY_CAPABILITY_EXPANSIONS !! "recruiting" = Some recruiting_expansions.
Proof. vm_compute. reflexivity. Qed.

Lemma expand_token_within base ctx st token :
  within base (expansion_map (side ctx)) st ->
  within base (expansion_map (side ctx)) (expand_token ctx st token).
Proof.
  intros Hst. unfold expand_token.
  set (st1 := match expansion_map (side ctx) !! Py.lower token with
              | Some exps => add_all ("taxonomy:" +:+ Py.lower token) exps st
              | None => st
              end).
  assert (within base (expansion_map (side ctx)) st1) as Hst1.
  { unfold st1. destruct (expansion_map (side ctx) !! Py.lower token) as [exps|] eqn:Hk;
      [by eapply add_all_within | done]. }
  destruct (resolve_ambiguous_term _ _) as [[]|]; [| |done].
  - destruct (side ctx) eqn:Hside; cbn [side_eqb]; [|done].
    fold hiring_expansions. change (default [] (Some ?l)) with l.
    eapply add_all_within; [|done]. exact hiring_lookup.
  - destruct (side ctx) eqn:Hside; cbn [side_eqb]; [done|].
    eapply add_all_within; [|done]. exact recruiting_lookup.
Qed.

Lemma expand_text_within base ctx st :
  within base (expansion_map (side ctx)) st ->
  within base (expansion_map (side ctx)) (expand_text ctx st).
Proof.
  intros Hst. unfold expand_text.
  destruct (side ctx) eqn:Hside; cbn [side_eqb andb].
  - destruct (Re.search text_hiring_re _); [|done].
    eapply add_all_new_within; [|done]. exact hiring_lookup.
  - destruct (Re.search text_recruiting_re _); [|done].
    eapply add_all_new_within; [|done]. exact recruiting_lookup.
Qed.

(** X24. The expansion adds tokens of the taxonomy of its own side only:
    a token of the expanded set is a base token or, in lower case, an
    expansion of a key of [DEMAND_NEED_EXPANSIONS] on the demand side and
    of [SUPPLY_CAPABILITY_EXPANSIONS] on the supply side. *)
Theorem expansions_come_from_own_taxonomy tokens ctx e :
  let r := expand_semantic_signals tokens ctx in
  e ∈ expanded r ->
  e ∈ base r \/
  in_taxonomy (match side ctx with
               | demand => DEMAND_NEED_EXPANSIONS
               | supply => SUPPLY_CAPABILITY_EXPANSIONS
               end) e.
Proof.
  intros r.
  assert (within (base r) (expansion_map (side ctx)) (expanded r, reasons r)) as Hw.
  { unfold r, expand_semantic_signals.
    cbn [negb SEMANTIC_MATCHING_ENABLED base expanded reasons].
    rewrite <- surjective_pairing.
    apply expand_text_within. unfold expand_tokens.
    assert (within (list_to_set (map Py.lower tokens)) (expansion_map (side ctx))
              (list_to_set (map Py.lower tokens), ∅)) as Hinit.
    { intros x Hx. by left. }
    revert Hinit.
    generalize (list_to_set (map Py.lower tokens) : gset string) at 1 3.
    intros B.
    generalize (list_to_set (map Py.lower tokens) : gset string,
                ∅ : gmap string (list string)).
    induction tokens as [|t tokens IH]; intros st Hst; [done|].
    simpl. by apply IH, expand_token_within. }
  intros He. specialize (Hw e He).
  unfold expansion_map in Hw. by destruct (side ctx).
Qed.

(** ** Text-level detection on the demand side *)

Lemma hiring_expansions_lower e : e ∈ hiring_expansions -> Py.lower e = e.
Proof.
  change hiring_expansions
    with ["recruiting"; "talent acquisition"; "staffing"; "team building";
          "headcount"; "recruit"; "recruiter"].
  intros He.
  repeat (apply elem_of_cons in He as [->|He]; [reflexivity|]).
  by apply elem_of_nil in He.
Qed.

(** X25. On the demand side, when the lowercased text has one of hiring,
    hire, hires, team building, headcount as a whole word, every member of
    the hiring expansion set is in the expanded set; a member that the loop
    over the tokens had not added gets the one reason
    [text:hiring_detected], and the reasons of a member that the loop had
    added are left as they were. *)
Theorem text_hiring_expansion tokens ctx e :
  side ctx = demand ->
  Re.search text_hiring_re (Py.lower (text ctx)) = true ->
  e ∈ hiring_expansions ->
  let before := expand_tokens tokens ctx in
  let r := expand_semantic_signals tokens ctx in
  e ∈ expanded r /\
  (e ∉ before.1 -> reasons r !! e = Some ["text:hiring_detected"]) /\
  (e ∈ before.1 -> reasons r !! e = before.2 !! e).
Proof.
  intros Hside Hre He before r.
  assert (expanded r = (add_all_new "text:hiring_detected" hiring_expansions before).1
          /\ reasons r = (add_all_new "text:hiring_detected" hiring_expansions before).2)
    as [-> ->].
  { unfold r, expand_semantic_signals, expand_text. cbn [negb SEMANTIC_MATCHING_ENABLED].
    rewrite Hside, Hre. cbn [side_eqb andb fst snd expanded reasons]. done. }
  destruct (add_all_new_spec "text:hiring_detected" hiring_expansions before)
    as [-> Hreasons].
  assert (e ∈ Py.lower <$> hiring_expansions) as Hin.
  { apply list_elem_of_fmap. exists e. split; [|done].
    symmetry. by apply hiring_expansions_lower. }
  split; [|split].
  - apply elem_of_union_r. by apply elem_of_list_to_set.
  - intros Hnew. rewrite Hreasons. rewrite bool_decide_eq_true_2 by done.
    pose proof (expand_tokens_reasons_in_expanded tokens ctx e Hnew) as Hnone.
    fold before in Hnone. by rewrite Hnone.
  - intros Hold. rewrite Hreasons. rewrite bool_decide_eq_false_2 by tauto. done.
Qed.

(** ** When [match_records] raises *)

Lemma score_match_None lim d s :
  score_match lim d s = None <->
  NormalizedRecord.industry s = FList [] \/
  score_size lim (NormalizedRecord.size d) (NormalizedRecord.size s) = None.
Proof.
  rewrite <- extract_capability_None. split.
  - intros Hnone.
    destruct (extract_capability_from_supply s) as [cap|] eqn:Hcap; [|by left].
    destruct (score_size lim _ _) as [sz|] eqn:Hsz; [|by right].
    destruct (score_match_total lim d s) as [m Hm]; [by rewrite Hcap | by rewrite Hsz |].
    congruence.
  - intros H. destruct (score_match lim d s) as [m|] eqn:Hm; [|done]. exfalso.
    apply score_match_shape in Hm as (cap & i & sz & t & Hcap & _ & Hsz & _).
    destruct H; congruence.
Qed.

(** X26. [match_records] raises exactly when a pair of a demand and a
    supply record cannot be scored: the supply record has the empty list as
    its industry, or the quotient of the two sizes is beyond the range of a
    float (for fewer than [2^45] pairs, so that the average is within the
    range where the float division is exact enough). *)
Theorem match_records_raises_iff lim demand supply min_score best_match_only :
  (Z.of_nat (length demand * length supply) < 2 ^ 45)%Z ->
  (match_records lim demand supply min_score best_match_only = None <->
   exists d s, d ∈ demand /\ s ∈ supply /\
     (NormalizedRecord.industry s = FList [] \/
      score_size lim (NormalizedRecord.size d) (NormalizedRecord.size s) = None)).
Proof.
  intros Hlen. split.
  - intros Hnone.
    destruct (decide (Forall (fun d => Forall (fun s => is_Some (score_match lim d s)) supply)
                        demand)) as [Hall|Hnot].
    + destruct (match_records_total lim demand supply min_score best_match_only)
        as [r Hr]; [|done|congruence].
      intros d s Hd Hs. rewrite Forall_forall in Hall. specialize (Hall d Hd).
      rewrite Forall_forall in Hall. by apply Hall.
    + apply not_Forall_Exists in Hnot; [|solve_decision].
      apply Exists_exists in Hnot as (d & Hd & Hnot).
      apply not_Forall_Exists in Hnot; [|solve_decision].
      apply Exists_exists in Hnot as (s & Hs & Hnot).
      exists d, s. split; [done|]. split; [done|].
      apply (score_match_None lim d s).
      destruct (score_match lim d s) as [m|] eqn:Hm; [|done]. exfalso. apply Hnot.
      rewrite Hm. by exists m.
  - intros (d & s & Hd & Hs & Hfail).
    apply (score_match_None lim d s) in Hfail.
    destruct (match_records lim demand supply min_score best_match_only) as [r|] eqn:Hr;
      [|done].
    apply match_records_shape in Hr as (_ & _ & _ & _ & Hall & _).
    destruct (Hall d s Hd Hs) as [m Hm]. congruence.
Qed.

(** ** The alignment of a recruiting provider *)

(** X27. A recruiting provider is aligned at 45 with each of the six
    hiring needs, at 40 with [growth], at 15 with [general] and [company],
    and at 5, the least alignment, with every other need, the five industry
    needs among them. *)
Theorem recruiting_provider_alignment need cap :
  CapabilityProfile.category cap = "recruiting" ->
  score_alignment need cap = recruiting_alignment (NeedProfile.category need).
Proof.
  intros Hcap. unfold score_alignment, recruiting_alignment, industry_alignment.
  rewrite Hcap. set (n := NeedProfile.category need).
  destruct (industry_matches !! n) as [caps|] eqn:Hcaps.
  - assert (In (n, caps) [("biotech", ["biotech_contact"; "bd_professional"]);
                          ("healthcare", ["healthcare_contact"; "biotech_contact"]);
                          ("tech", ["tech_contact"; "engineering"]);
                          ("fintech", ["finance_contact"; "tech_contact"]);
                          ("finance_co", ["finance_contact"; "consulting"])]) as Hin.
    { apply list_elem_of_In. unfold industry_matches in Hcaps.
      by apply elem_of_list_to_map_2 in Hcaps. }
    cbn [In] in Hin.
    destruct Hin as [Hin|[Hin|[Hin|[Hin|[Hin|[]]]]]]; injection Hin as <- <-;
      reflexivity.
  - cbn [String.eqb Ascii.eqb Bool.eqb andb].
    destruct (in_list n ["engineering"; "sales"; "marketing"; "finance";
                         "operations"; "recruiting"]) eqn:Hsix; [reflexivity|].
    cbn [andb].
    destruct (String.eqb_spec n "growth") as [Hg|Hg]; [reflexivity|].
    assert (cross_matches !! n = None) as ->.
    { destruct (cross_matches !! n) as [cs|] eqn:Hcs; [|done]. exfalso.
      unfold cross_matches in Hcs. apply elem_of_list_to_map_2, list_elem_of_In in Hcs.
      apply not_true_iff_false in Hsix. apply Hsix, in_list_elem_of.
      cbn [In] in Hcs.
      destruct Hcs as [Hin|[Hin|[Hin|[Hin|[]]]]]; injection Hin as <- <-;
        rewrite !elem_of_cons; tauto. }
    destruct (in_list n ["general"; "company"]); reflexivity.
Qed.

Lemma filter_twice {A} (P : A -> Prop) `{!forall x, Decision (P x)} (l : list A) :
  filter P (filter P l) = filter P l.
Proof. apply list_filter_filter_l. done. Qed.

Lemma filter_aggregate_twice f agg a :
  filter_aggregate f agg = Some a -> filter_aggregate f a = Some a.
Proof.
  intros H. apply filter_aggregate_inv in H as (Hms & Hne & _ & Hbest & Htotal).
  unfold filter_aggregate.
  assert (filter (fun m => passes f m) (Aggregate.matches a) = Aggregate.matches a) as ->
    by (rewrite Hms; apply filter_twice).
  destruct a as [sup ms best total]. cbn in *.
  destruct ms as [|b rest]; [done|]. cbn in Hbest. by simplify_eq.
Qed.

Lemma filter_aggregates_twice f (aggs : list Aggregate.t) :
  omap (filter_aggregate f) (omap (filter_aggregate f) aggs)
  = omap (filter_aggregate f) aggs.
Proof.
  induction aggs as [|agg aggs IH]; [done|]. cbn [omap list_omap].
  destruct (filter_aggregate f agg) as [a|] eqn:Ha; [|done].
  cbn [omap list_omap]. by rewrite (filter_aggregate_twice f agg a Ha), IH.
Qed.

(** X28. Filtering twice at the same threshold is filtering once: a
    result of [filter_by_score] is left unchanged by [filter_by_score] at
    the same threshold. *)
Theorem filter_by_score_idempotent company_name r f r' :
  filter_by_score company_name r f = Some r' ->
  filter_by_score company_name r' f = Some r'.
Proof.
  intros H. apply filter_by_score_shape in H as (avg & names & Hv & Hn & ->).
  unfold filter_by_score.
  cbn [MatchingResult.demand_matches MatchingResult.supply_aggregates
       MatchingResult.stats Stats.total_demand Stats.total_supply].
  rewrite filter_twice, filter_aggregates_twice.
  change (map Match.score ?l) with (Match.score <$> l).
  rewrite Hv. cbn [mbind option_bind]. rewrite Hn. cbn [mbind option_bind]. done.
Qed.

(** ** The theorems at sample records *)


Lemma match_scores_in_range_witness :
  exists r,
    match_records 4300 sample_demand sample_supply 0 false = Some r /\
    (forall m, m ∈ MatchingResult.demand_matches r -> (1 <= Match.score m <= 100)%Z) /\
    (forall a m, a ∈ MatchingResult.supply_aggregates r ->
                 m ∈ Aggregate.matches a \/ m = Aggregate.best_match a ->
                 (1 <= Match.score m <= 100)%Z).
Proof.
  eexists. split; [vm_compute; reflexivity|].
  apply (match_scores_in_range 4300 sample_demand sample_supply 0 false).
  vm_compute. reflexivity.
Defined.

Lemma best_match_only_one_per_demand_witness :
  exists r,
    match_records 4300 sample_demand sample_supply 30 true = Some r /\
    NoDup (demand_key <$> MatchingResult.demand_matches r) /\
    (forall k, k ∈ demand_key <$> passing_matches 4300 sample_demand sample_supply 30 <->
               k ∈ demand_key <$> MatchingResult.demand_matches r) /\
    (forall m, m ∈ MatchingResult.demand_matches r ->
       m ∈ passing_matches 4300 sample_demand sample_supply 30 /\
       forall m', m' ∈ passing_matches 4300 sample_demand sample_supply 30 ->
                  demand_key m' = demand_key m ->
                  (Match.score m' <= Match.score m)%Z).
Proof.
  eexists. split; [vm_compute; reflexivity|].
  apply (best_match_only_one_per_demand 4300 sample_demand sample_supply 30).
  vm_compute. reflexivity.
Defined.

Lemma results_sorted_witness :
  exists r,
    match_records 4300 sample_demand sample_supply 0 true = Some r /\
    (forall i j m1 m2,
        (i < j)%nat ->
        MatchingResult.demand_matches r !! i = Some m1 ->
        MatchingResult.demand_matches r !! j = Some m2 ->
        (Match.score m2 <= Match.score m1)%Z) /\
    (forall i j a1 a2,
        (i < j)%nat ->
        MatchingResult.supply_aggregates r !! i = Some a1 ->
        MatchingResult.supply_aggregates r !! j = Some a2 ->
        (Aggregate.total_matches a2 <= Aggregate.total_matches a1)%nat).
Proof.
  eexists. split; [vm_compute; reflexivity|].
  apply (results_sorted 4300 sample_demand sample_supply 0 true).
  vm_compute. reflexivity.
Defined.

Lemma total_matches_counts_unique_demand_keys_witness :
  exists r a,
    match_records 4300 sample_demand sample_supply 0 false = Some r /\
    MatchingResult.supply_aggregates r !! 0%nat = Some a /\
    Aggregate.total_matches a = 2%nat /\
    length (Aggregate.matches a) = 3%nat /\
    Aggregate.total_matches a
    = size (list_to_set (demand_key <$> Aggregate.matches a) : gset string) /\
    (Aggregate.total_matches a <= length (Aggregate.matches a))%nat /\
    (Aggregate.total_matches a = length (Aggregate.matches a)
     <-> NoDup (demand_key <$> Aggregate.matches a)).
Proof.
  eexists. eexists.
  split; [vm_compute; reflexivity|].
  split; [vm_compute; reflexivity|].
  split; [vm_compute; reflexivity|].
  split; [vm_compute; reflexivity|].
  eapply (total_matches_counts_unique_demand_keys 4300 sample_demand sample_supply 0 false).
  - vm_compute. reflexivity.
  - apply list_elem_of_here.
Defined.

Lemma avg_score_is_rounded_average_witness :
  exists r,
    match_records 4300 sample_demand sample_supply 30 true = Some r /\
    Stats.avg_score (MatchingResult.stats r) = 62%Z /\
    let scores := Match.score <$> passing_matches 4300 sample_demand sample_supply 30 in
    let n := Z.of_nat (length scores) in
    let avg_score := Stats.avg_score (MatchingResult.stats r) in
    (scores = [] -> avg_score = 0%Z) /\
    (scores <> [] ->
     exists q, Py.int_true_div (score_sum scores) n = Some q
               /\ Py.round q = Some avg_score) /\
    (scores <> [] -> (n < 2 ^ 45)%Z -> nearest_even (score_sum scores) n avg_score).
Proof.
  eexists. split; [vm_compute; reflexivity|].
  split; [vm_compute; reflexivity|].
  apply (avg_score_is_rounded_average 4300 sample_demand sample_supply 30 true).
  vm_compute. reflexivity.
Defined.

Lemma score_match_at_least_6_witness :
  exists m,
    score_match 4300 initech talentry = Some m /\
    Match.score m = 8%Z /\
    exists cap i sz blend,
      extract_capability_from_supply talentry = Some cap /\
      score_industry (NormalizedRecord.industry initech) (NormalizedRecord.industry talentry)
      = Some i /\
      score_size 4300 (NormalizedRecord.size initech) (NormalizedRecord.size talentry)
      = Some sz /\
      let sg := score_signal (NormalizedRecord.signal initech)
                  (NormalizedRecord.title talentry) (NormalizedRecord.industry talentry) in
      let al := score_alignment (extract_need_from_demand initech) cap in
      let bonus := bonus (get_semantic_score (record_text initech) (record_text talentry)) in
      (5 <= i)%Z /\ (5 <= sg)%Z /\ (5 <= sz)%Z /\ (5 <= al)%Z /\ (0 <= bonus)%Z /\
      weighted_blend i sg sz al bonus = Some blend /\
      Py.fle (Py.literal 55 10) blend = true /\
      total_score i sg sz al bonus = Some (Match.score m) /\
      (6 <= Match.score m)%Z /\
      "Exploratory match" ∉ Match.reasons m.
Proof.
  eexists. split; [vm_compute; reflexivity|].
  split; [vm_compute; reflexivity|].
  apply (score_match_at_least_6 4300 initech talentry).
  vm_compute. reflexivity.
Defined.

Lemma capability_resolution_needs_context_witness :
  resolve_ambiguous_term "Engineering"
    {| side := supply; text := "Engineering recruiting agency" |} = Some capability /\
  supply = supply /\
  ((Py.lower "Engineering" ∈ ["engineering"; "engineer"; "engineers"; "sales"; "marketing"]
    /\ has_recruiting_context (Py.lower "Engineering recruiting agency") = true)
   \/ (Py.lower "Engineering" = "growth"
       /\ has_hiring_context (Py.lower "Engineering recruiting agency") = true)).
Proof.
  split; [vm_compute; reflexivity|].
  apply (capability_resolution_needs_context "Engineering"
           {| side := supply; text := "Engineering recruiting agency" |}).
  vm_compute. reflexivity.
Defined.

Lemma text_recruiting_expansion_witness :
  let ctx := {| side := supply; text := "Talent partner for fintech" |} in
  let tokens := extract_tokens "Talent partner for fintech" in
  side ctx = supply /\
  Re.search text_recruiting_re (Py.lower (text ctx)) = true /\
  "sourcing" ∈ recruiting_expansions /\
  "sourcing" ∈ expanded (expand_semantic_signals tokens ctx) /\
  ("sourcing" ∉ (expand_tokens tokens ctx).1 ->
   reasons (expand_semantic_signals tokens ctx) !! "sourcing"
   = Some ["text:recruiting_detected"]) /\
  ("sourcing" ∈ (expand_tokens tokens ctx).1 ->
   reasons (expand_semantic_signals tokens ctx) !! "sourcing"
   = (expand_tokens tokens ctx).2 !! "sourcing").
Proof.
  intros ctx tokens.
  split; [reflexivity|].
  split; [vm_compute; reflexivity|].
  split; [refine (bool_decide_unpack ("sourcing" ∈ recruiting_expansions) _);
          vm_compute; exact I|].
  apply (text_recruiting_expansion tokens ctx "sourcing").
  - reflexivity.
  - vm_compute. reflexivity.
  - refine (bool_decide_unpack ("sourcing" ∈ recruiting_expansions) _).
    vm_compute. exact I.
Defined.

(** ** The further properties at sample records *)

Lemma score_at_most_68_witness :
  exists m, score_match 4300 acme talentry = Some m /\
            (Match.score m <= 68)%Z /\ Match.tier m <> strong.
Proof.
  eexists. split; [vm_compute; reflexivity|].
  apply (score_at_most_68 4300 acme talentry). vm_compute. reflexivity.
Defined.

Lemma tier_of_final_score_witness :
  exists m, score_match 4300 initech brightside = Some m /\
    (Match.tier m, Match.tier_reason m)
    = determine_tier (Match.score m) (Match.need_profile m)
        (Match.capability_profile m) (signal_label (Match.demand m)) /\
    ((45 <= Match.score m)%Z -> Match.tier m = good) /\
    ((Match.score m < 30)%Z -> Match.tier m = open) /\
    ((30 <= Match.score m < 45)%Z ->
     Match.tier m =
     if Py.fle f0_5
          (Py.fdiv (Py.fadd (NeedProfile.confidence (Match.need_profile m))
                      (CapabilityProfile.confidence (Match.capability_profile m)))
             (Py.literal 2 1))
     then good else open).
Proof.
  eexists. split; [vm_compute; reflexivity|].
  apply (tier_of_final_score 4300 initech brightside). vm_compute. reflexivity.
Defined.

Lemma determine_tier_monotone_witness :
  (tier_rank (determine_tier 29 (extract_need_from_demand acme)
                (CapabilityProfile.mk "recruiting" [] f0_95 "description") None).1
   <= tier_rank (determine_tier 45 (extract_need_from_demand acme)
                   (CapabilityProfile.mk "recruiting" [] f0_95 "description") None).1)%nat /\
  (determine_tier 29 (extract_need_from_demand acme)
     (CapabilityProfile.mk "recruiting" [] f0_95 "description") None).2
  = (determine_tier 45 (extract_need_from_demand acme)
       (CapabilityProfile.mk "recruiting" [] f0_95 "description") None).2.
Proof. apply (determine_tier_monotone 29 45). lia. Defined.

Lemma match_records_empty_witness :
  match_records 4300 sample_demand [] 30 true
  = Some (MatchingResult.mk [] []
            (Stats.mk (length sample_demand) 0 0 0 0)).
Proof. apply (match_records_empty 4300 sample_demand [] 30 true). right. reflexivity. Defined.

Lemma low_threshold_keeps_every_pair_witness :
  exists r,
    match_records 4300 [acme; globex] [talentry] 0 false = Some r /\
    length (MatchingResult.demand_matches r) = 2%nat /\
    Stats.total_matches (MatchingResult.stats r) = 2%nat.
Proof.
  eexists. split; [vm_compute; reflexivity|].
  apply (low_threshold_keeps_every_pair 4300 [acme; globex] [talentry] 0);
    [vm_compute; reflexivity | lia].
Defined.

Lemma high_threshold_keeps_nothing_witness :
  exists r,
    match_records 4300 [acme; globex] [talentry] 69 false = Some r /\
    r = MatchingResult.mk [] [] (Stats.mk 2 1 0 0 0).
Proof.
  eexists. split; [vm_compute; reflexivity|].
  apply (high_threshold_keeps_nothing 4300 [acme; globex] [talentry] 69 false);
    [vm_compute; reflexivity | lia].
Defined.

Lemma best_match_only_stats_witness :
  exists r1 r2,
    match_records 4300 [acme; globex] [talentry] 0 false = Some r1 /\
    match_records 4300 [acme; globex] [talentry] 0 true = Some r2 /\
    MatchingResult.demand_matches r2
    = get_best_match_per_demand (MatchingResult.demand_matches r1) /\
    Stats.avg_score (MatchingResult.stats r2) = Stats.avg_score (MatchingResult.stats r1) /\
    Stats.unique_demands_matched (MatchingResult.stats r2)
    = Stats.unique_demands_matched (MatchingResult.stats r1) /\
    Stats.total_matches (MatchingResult.stats r2)
    = Stats.unique_demands_matched (MatchingResult.stats r1) /\
    (Stats.unique_demands_matched (MatchingResult.stats r1)
     <= Stats.total_matches (MatchingResult.stats r1))%nat.
Proof.
  eexists. eexists.
  split; [vm_compute; reflexivity|]. split; [vm_compute; reflexivity|].
  apply (best_match_only_stats 4300 [acme; globex] [talentry] 0);
    vm_compute; reflexivity.
Defined.

Lemma aggregates_partition_matches_witness :
  exists r,
    match_records 4300 [acme; globex] [talentry; brightside] 0 false = Some r /\
    let aggs := MatchingResult.supply_aggregates r in
    mjoin (Aggregate.matches <$> aggs) ≡ₚ MatchingResult.demand_matches r /\
    NoDup ((fun a => get_supply_key (Aggregate.supply a)) <$> aggs) /\
    (length aggs <= 2)%nat /\
    forall a, a ∈ aggs ->
      Aggregate.supply a ∈ [talentry; brightside] /\
      Aggregate.best_match a ∈ Aggregate.matches a /\
      forall m, m ∈ Aggregate.matches a ->
        supply_key m = get_supply_key (Aggregate.supply a) /\
        (Match.score m <= Match.score (Aggregate.best_match a))%Z.
Proof.
  eexists. split; [vm_compute; reflexivity|].
  apply (aggregates_partition_matches 4300 [acme; globex] [talentry; brightside] 0 false).
  vm_compute. reflexivity.
Defined.

Lemma raising_min_score_filters_witness :
  exists r1 r2,
    match_records 4300 [acme; globex] [talentry; brightside] 10 true = Some r1 /\
    match_records 4300 [acme; globex] [talentry; brightside] 62 true = Some r2 /\
    MatchingResult.demand_matches r2
    = filter (fun m => (62 <= Match.score m)%Z) (MatchingResult.demand_matches r1).
Proof.
  eexists. eexists.
  split; [vm_compute; reflexivity|]. split; [vm_compute; reflexivity|].
  apply (raising_min_score_filters 4300 [acme; globex] [talentry; brightside] 10 62 true);
    [vm_compute; reflexivity | vm_compute; reflexivity | lia].
Defined.

Lemma filter_by_score_as_higher_threshold_witness :
  exists r r',
    match_records 4300 [acme; globex] [talentry; brightside] 10 false = Some r /\
    filter_by_score (fun _ => None) r (Py.literal 62 1) = Some r' /\
    exists r2,
      match_records 4300 [acme; globex] [talentry; brightside] (Z.max 10 62) false
      = Some r2 /\
      MatchingResult.demand_matches r' = MatchingResult.demand_matches r2 /\
      Stats.total_demand (MatchingResult.stats r')
      = Stats.total_demand (MatchingResult.stats r2) /\
      Stats.total_supply (MatchingResult.stats r')
      = Stats.total_supply (MatchingResult.stats r2) /\
      Stats.total_matches (MatchingResult.stats r')
      = Stats.total_matches (MatchingResult.stats r2) /\
      Stats.avg_score (MatchingResult.stats r') = Stats.avg_score (MatchingResult.stats r2).
Proof.
  eexists. eexists.
  split; [vm_compute; reflexivity|]. split; [vm_compute; reflexivity|].
  eapply (filter_by_score_as_higher_threshold 4300 (fun _ => None)
            [acme; globex] [talentry; brightside] 10 62 (Py.literal 62 1));
    [vm_compute; reflexivity | lia | vm_compute; reflexivity | vm_compute; reflexivity].
Defined.

Lemma filter_by_score_aggregates_witness :
  exists r r',
    match_records 4300 [acme; globex] [talentry; brightside] 0 false = Some r /\
    filter_by_score (fun _ => None) r (Py.literal 265 10) = Some r' /\
    mjoin (Aggregate.matches <$> MatchingResult.supply_aggregates r')
    ≡ₚ MatchingResult.demand_matches r' /\
    forall a, a ∈ MatchingResult.supply_aggregates r' ->
      head (Aggregate.matches a) = Some (Aggregate.best_match a) /\
      descending Match.score (Aggregate.matches a) /\
      (forall m, m ∈ Aggregate.matches a ->
                 Py.int_ge_float (Match.score m) (Py.literal 265 10) = true) /\
      Aggregate.total_matches a = length (Aggregate.matches a) /\
      (size (unique_demand_keys (Aggregate.matches a)) <= Aggregate.total_matches a)%nat.
Proof.
  eexists. eexists.
  split; [vm_compute; reflexivity|]. split; [vm_compute; reflexivity|].
  eapply (filter_by_score_aggregates 4300 (fun _ => None)
            [acme; globex] [talentry; brightside] 0 false (Py.literal 265 10));
    vm_compute; reflexivity.
Defined.

Lemma industry_match_reason_witness :
  exists m,
    score_match 4300 acme codeworks = Some m /\
    (In "Industry match" (Match.reasons m) <->
     same_industry (NormalizedRecord.industry acme) (NormalizedRecord.industry codeworks)).
Proof.
  eexists. split; [vm_compute; reflexivity|].
  apply (industry_match_reason 4300 acme codeworks). vm_compute. reflexivity.
Defined.

Lemma parse_size_reads_digits_witness :
  parse_size 4300 ("11-" +:+ "50") = (parse_size 4300 "11-" * 10 ^ Z.of_nat 2 + parse_size 4300 "50")%Z.
Proof.
  apply (parse_size_reads_digits 4300 "11-" "50"); vm_compute; lia.
Defined.

Lemma capability_profile_table_witness :
  exists cap,
    extract_capability_from_supply talentry = Some cap /\
    In (CapabilityProfile.category cap, CapabilityProfile.confidence cap,
        CapabilityProfile.source cap) capabilities /\
    Py.fle f0_3 (CapabilityProfile.confidence cap) = true /\
    Py.fle (CapabilityProfile.confidence cap) f0_95 = true /\
    is_Some (cap_labels !! CapabilityProfile.category cap).
Proof.
  eexists. split; [vm_compute; reflexivity|].
  apply (capability_profile_table talentry). vm_compute. reflexivity.
Defined.


Lemma need_resolution_iff_witness :
  resolve_ambiguous_term "Engineering"
    {| side := demand; text := "Hiring 5 engineers" |} = Some need.
Proof.
  apply (proj2 (proj1 (need_resolution_iff "Engineering"
                         {| side := demand; text := "Hiring 5 engineers" |}))).
  split; [reflexivity|]. split; [|vm_compute; reflexivity].
  refine (bool_decide_unpack (Py.lower "Engineering" ∈ need_terms) _).
  vm_compute. exact I.
Defined.

Lemma shared_token_gives_bonus_witness :
  "software" ∈ score_matchedTokens
                 (get_semantic_score "Senior Software Engineer" "Custom software shop") /\
  (10 <= bonus (get_semantic_score "Senior Software Engineer" "Custom software shop"))%Z.
Proof.
  apply (shared_token_gives_bonus "Senior Software Engineer" "Custom software shop"
           "software").
  - refine (bool_decide_unpack ("software" ∈ extract_tokens "Senior Software Engineer") _).
    vm_compute. exact I.
  - refine (bool_decide_unpack ("software" ∈ extract_tokens "Custom software shop") _).
    vm_compute. exact I.
Defined.

Lemma expansions_have_reasons_witness :
  exists l,
    reasons (expand_semantic_signals ["Staffing"]
               {| side := supply; text := "Staffing" |}) !! "hiring" = Some l /\
    l <> [].
Proof.
  eexists. split; [vm_compute; reflexivity|].
  pose proof (expansions_have_reasons ["Staffing"]
                {| side := supply; text := "Staffing" |}) as [_ H].
  apply (H "hiring"). vm_compute. reflexivity.
Defined.

Lemma expansions_come_from_own_taxonomy_witness :
  "hiring" ∈ base (expand_semantic_signals ["Staffing"]
                     {| side := supply; text := "Staffing" |}) \/
  in_taxonomy SUPPLY_CAPABILITY_EXPANSIONS "hiring".
Proof.
  apply (expansions_come_from_own_taxonomy ["Staffing"]
           {| side := supply; text := "Staffing" |} "hiring").
  refine (bool_decide_unpack
            ("hiring" ∈ expanded (expand_semantic_signals ["Staffing"]
                                    {| side := supply; text := "Staffing" |})) _).
  vm_compute. exact I.
Defined.

Lemma text_hiring_expansion_witness :
  let ctx := {| side := demand; text := "We hire nurses. Headcount: 40" |} in
  let tokens := extract_tokens "We hire nurses. Headcount: 40" in
  side ctx = demand /\
  Re.search text_hiring_re (Py.lower (text ctx)) = true /\
  "staffing" ∈ hiring_expansions /\
  "staffing" ∈ expanded (expand_semantic_signals tokens ctx) /\
  ("staffing" ∉ (expand_tokens tokens ctx).1 ->
   reasons (expand_semantic_signals tokens ctx) !! "staffing"
   = Some ["text:hiring_detected"]) /\
  ("staffing" ∈ (expand_tokens tokens ctx).1 ->
   reasons (expand_semantic_signals tokens ctx) !! "staffing"
   = (expand_tokens tokens ctx).2 !! "staffing").
Proof.
  intros ctx tokens.
  split; [reflexivity|].
  split; [vm_compute; reflexivity|].
  split; [refine (bool_decide_unpack ("staffing" ∈ hiring_expansions) _);
          vm_compute; exact I|].
  apply (text_hiring_expansion tokens ctx "staffing").
  - reflexivity.
  - vm_compute. reflexivity.
  - refine (bool_decide_unpack ("staffing" ∈ hiring_expansions) _).
    vm_compute. exact I.
Defined.

Lemma match_records_raises_iff_witness :
  match_records 4300 [acme] [talentry; no_industry] 0 false = None.
Proof.
  apply (match_records_raises_iff 4300 [acme] [talentry; no_industry] 0 false).
  - vm_compute. reflexivity.
  - exists acme, no_industry.
    split; [left|]. split; [right; left|]. left. reflexivity.
Defined.

Lemma recruiting_provider_alignment_witness :
  score_alignment (extract_need_from_demand initech)
    (CapabilityProfile.mk "recruiting" [] f0_95 "description")
  = recruiting_alignment (NeedProfile.category (extract_need_from_demand initech)).
Proof.
  apply (recruiting_provider_alignment (extract_need_from_demand initech)
           (CapabilityProfile.mk "recruiting" [] f0_95 "description")).
  reflexivity.
Defined.

Lemma filter_by_score_idempotent_witness :
  exists r r',
    match_records 4300 [acme; globex] [talentry; brightside] 0 false = Some r /\
    filter_by_score (fun _ => None) r (Py.literal 265 10) = Some r' /\
    filter_by_score (fun _ => None) r' (Py.literal 265 10) = Some r'.
Proof.
  eexists. eexists. split; [vm_compute; reflexivity|].
  match goal with
  | |- filter_by_score ?cn ?r ?f = _ /\ _ =>
      let v := eval vm_compute in (filter_by_score cn r f) in
      match v with
      | Some ?x =>
          assert (filter_by_score cn r f = Some x) as Hr' by (vm_compute; reflexivity);
          split; [exact Hr' | exact (filter_by_score_idempotent cn r f x Hr')]
      end
  end.
Defined.
